(** * SQLE task scheduler and SQL Server object-name rule: verification

    A shallow embedding of
    - the task scheduling service [Sqled] (audit / commit / rollback
      workflows and the running-task guard), and
    - the SQL Server backend's object-name keyword rule,
    with the properties of the specification proved about the embedding. *)

From Stdlib Require Import String Ascii List ZArith NArith Lia Bool DecimalString.
From Stdlib Require Import PrimFloat FloatOps SpecFloat Uint63.
From Stdlib Require DecimalN.
From stdpp Require Import base decidable option list gmap strings.

Local Open Scope string_scope.
Local Open Scope list_scope.

(* ===================================================================== *)
(** * SQL Server backend: object-name rules *)
(* ===================================================================== *)

Module SqlserverProtoServer.

(** ** The fragment of the ScriptDom syntax tree the rule inspects *)

(** A parameter value; only string literals carry a [Value] the rule
    reads, every other value (null included) makes reading it raise. *)
Inductive ScalarExpression : Type :=
| StringLiteral (Value : string)
| OtherScalarExpression.

(** [ConstraintIdentifier] may be null. *)
Record ConstraintDefinition : Type := {
  ConstraintIdentifier : option string
}.

Record ColumnDefinition : Type := {
  ColumnIdentifier : string;
  Constraints : list ConstraintDefinition
}.

Record IndexDefinition : Type := {
  IndexName : string
}.

Record TableDefinition : Type := {
  ColumnDefinitions : list ColumnDefinition;
  Indexes : list IndexDefinition;
  TableConstraints : list ConstraintDefinition
}.

(** A [ProcedureReferenceName]: its own [ProcedureReference] is null when
    the procedure is given by a variable; when it is present only the
    base identifier of the procedure name is read. *)
Record ProcedureReferenceName : Type := {
  InnerProcedureReference : option string
}.

(** [ExecutableProcedureReference.ProcedureReference] may be null. *)
Inductive ExecutableEntity : Type :=
| ExecutableProcedureReference
    (ProcedureReference : option ProcedureReferenceName)
    (Parameters : list ScalarExpression)
| OtherExecutableEntity.

Inductive TSqlStatement : Type :=
| CreateDatabaseStatement (DatabaseName : string)
| CreateTableStatement (BaseIdentifier : string) (Definition_ : TableDefinition)
| AlterTableAddTableElementStatement (Definition_ : TableDefinition)
| ExecuteStatement (ExecutableEntity_ : ExecutableEntity)
| CreateIndexStatement (Name : string)
| OtherStatement.

(** ** Strings *)

(** [String.ToUpper] on ASCII text: the letters a-z move to A-Z, every
    other character is kept. *)
Definition ToUpper_char (c : ascii) : ascii :=
  let n := nat_of_ascii c in
  if (97 <=? n)%nat && (n <=? 122)%nat then ascii_of_nat (n - 32) else c.

Fixpoint ToUpper (s : string) : string :=
  match s with
  | EmptyString => EmptyString
  | String c s' => String (ToUpper_char c) (ToUpper s')
  end.



(** [List<String>.Contains]: ordinal string equality. *)
Definition Contains (l : list string) (s : string) : bool :=
  existsb (String.eqb s) l.

(** [String.Join(sep, l)]. *)
Definition Join (sep : string) (l : list string) : string :=
  String.concat sep l.

(** ** ObjectNameRuleValidator *)

Definition GetNamesFromConstraints (names : list string)
    (constraints : list ConstraintDefinition) : list string :=
  fold_left (fun names constraint =>
               match ConstraintIdentifier constraint with
               | Some v => names ++ [v]
               | None => names
               end) constraints names.

Definition GetNamesFromTableDefinition (names : list string)
    (tableDefinition : TableDefinition) : list string :=
  (* column names *)
  let names :=
    fold_left (fun names columnDefinition =>
                 GetNamesFromConstraints
                   (names ++ [ColumnIdentifier columnDefinition])
                   (Constraints columnDefinition))
              (ColumnDefinitions tableDefinition) names in
  (* index names *)
  let names :=
    fold_left (fun names index => names ++ [IndexName index])
              (Indexes tableDefinition) names in
  (* constraint *)
  GetNamesFromConstraints names (TableConstraints tableDefinition).

(** [ObjectNameRuleValidator.Check]: the names the statement introduces
    are appended to [Names].  [None] is an exception: the
    [NullReferenceException] of reading the name through a null inner
    [ProcedureReference], which the source does not check, or the
    exception of the cast of the second [sp_rename] parameter to
    [StringLiteral] and of reading its [Value]. *)
Definition ObjectNameRuleValidator_Check (Names : list string)
    (statement : TSqlStatement) : option (list string) :=
  match statement with
  | CreateDatabaseStatement DatabaseName => Some (Names ++ [DatabaseName])
  | CreateTableStatement BaseIdentifier Definition_ =>
      Some (GetNamesFromTableDefinition (Names ++ [BaseIdentifier]) Definition_)
  | AlterTableAddTableElementStatement Definition_ =>
      Some (GetNamesFromTableDefinition Names Definition_)
  | ExecuteStatement
      (ExecutableProcedureReference (Some procedureReference) parameters) =>
      match InnerProcedureReference procedureReference with
      | None => None
      | Some procName =>
          if String.eqb procName "sp_rename" then
            match parameters with
            | _ :: StringLiteral newName :: _ => Some (Names ++ [newName])
            | _ :: OtherScalarExpression :: _ => None
            | _ => Some Names
            end
          else Some Names
      end
  | ExecuteStatement _ => Some Names
  | CreateIndexStatement Name => Some (Names ++ [Name])
  | OtherStatement => Some Names
  end.

(** ** ObjectNameShouldNotContainsKeywordRuleValidator *)

Definition Keywords : list string :=
  [ "ADD"; "ALL"; "ALTER"; "AND"; "ANY"; "AS"; "ASC"; "AUTHORIZATION";
    "BACKUP"; "BEGIN"; "BETWEEN"; "BREAK"; "BROWSE"; "BULK"; "BY";
    "CASCADE"; "CASE"; "CHECK"; "CHECKPOINT"; "CLOSE"; "CLUSTERED";
    "COALESCE"; "COLLATE"; "COLUMN"; "COMMIT"; "COMPUTE"; "CONSTRAINT";
    "CONTAINS"; "CONTAINSTABLE"; "CONTINUE"; "CONVERT"; "CREATE";
    "CROSS"; "CURRENT"; "CURRENT_DATE"; "CURRENT_TIME";
    "CURRENT_TIMESTAMP"; "CURRENT_USER"; "CURSOR"; "DATABASE"; "DBCC";
    "DEALLOCATE"; "DECLARE"; "DEFAULT"; "DELETE"; "DENY"; "DESC";
    "DISK"; "DISTINCT"; "DISTRIBUTED"; "DOUBLE"; "DROP"; "DUMMY";
    "DUMP"; "ELSE"; "END"; "ERRLVL"; "ESCAPE"; "EXCEPT"; "EXEC";
    "EXECUTE"; "EXISTS"; "EXIT"; "FETCH"; "FILE"; "FILLFACTOR"; "FOR";
    "FOREIGN"; "FREETEXT"; "FREETEXTTABLE"; "FROM"; "FULL"; "FUNCTION";
    "GOTO"; "GRANT"; "GROUP"; "HAVING"; "HOLDLOCK"; "IDENTITY";
    "IDENTITY_INSERT"; "IDENTITYCOL"; "IF"; "IN"; "INDEX"; "INNER";
    "INSERT"; "INTERSECT"; "INTO"; "IS"; "JOIN"; "KEY"; "KILL"; "LEFT";
    "LIKE"; "LINENO"; "LOAD"; "NATIONAL"; "NOCHECK"; "NONCLUSTERED";
    "NOT"; "NULL"; "NULLIF"; "OF"; "OFF"; "OFFSETS"; "ON"; "OPEN";
    "OPENDATASOURCE"; "OPENQUERY"; "OPENROWSET"; "OPENXML"; "OPTION";
    "OR"; "ORDER"; "OUTER"; "OVER"; "PERCENT"; "PLAN"; "PRECISION";
    "PRIMARY"; "PRINT"; "PROC"; "PROCEDURE"; "PUBLIC"; "RAISERROR";
    "READ"; "READTEXT"; "RECONFIGURE"; "REFERENCES"; "REPLICATION";
    "RESTORE"; "RESTRICT"; "RETURN"; "REVOKE"; "RIGHT"; "ROLLBACK";
    "ROWCOUNT"; "ROWGUIDCOL"; "RULE"; "SAVE"; "SCHEMA"; "SELECT";
    "SESSION_USER"; "SET"; "SETUSER"; "SHUTDOWN"; "SOME"; "STATISTICS";
    "SYSTEM_USER"; "TABLE"; "TEXTSIZE"; "THEN"; "TO"; "TOP"; "TRANSACTION";
    "TRIGGER"; "TRUNCATE"; "TSEQUAL"; "UNION"; "UNIQUE"; "UPDATE";
    "UPDATETEXT"; "USE"; "USER"; "VALUES"; "VARYING"; "VIEW";
    "WAITFOR"; "WHEN"; "WHERE"; "WHILE"; "WITH"; "WRITETEXT" ].

Definition IsReserveredKeyword (name : string) : bool :=
  if Contains Keywords (ToUpper name) then true else false.

(** The validator object: the rule's level and message template (fields
    of the [RuleValidator] base class) and the mutable [Names] list. *)
Record Validator (RULE_LEVEL : Type) : Type := {
  Level : RULE_LEVEL;
  Message : string;
  Names : list string
}.
Arguments Level {RULE_LEVEL} _.
Arguments Message {RULE_LEVEL} _.
Arguments Names {RULE_LEVEL} _.

Definition reset {RULE_LEVEL} (v : Validator RULE_LEVEL) : Validator RULE_LEVEL :=
  {| Level := Level v; Message := Message v; Names := [] |}.

Section KeywordRule.

Context {RULE_LEVEL : Type}.

(** [RuleValidator.GetMessage(params)] formats the rule's message
    template with its argument; the base class is not part of the
    modelled sources, so the formatter is a parameter. *)
Variable GetMessage : string -> string -> string.

(** [context.AdviseResultContext]: the [AddAdviseResult] calls received,
    oldest first. *)
Definition AdviseResultContext : Type := list (RULE_LEVEL * string).

Definition AddAdviseResult (ctx : AdviseResultContext)
    (level : RULE_LEVEL) (message : string) : AdviseResultContext :=
  ctx ++ [(level, message)].

(** [ObjectNameShouldNotContainsKeywordRuleValidator.Check].  [None]: the
    exception of the base [Check] escapes, before anything is reported
    and before [reset]. *)
Definition Check (v : Validator RULE_LEVEL) (context : AdviseResultContext)
    (statement : TSqlStatement)
  : option (Validator RULE_LEVEL * AdviseResultContext) :=
  match ObjectNameRuleValidator_Check (Names v) statement with
  | None => None
  | Some names =>
      let invalidNames :=
        fold_left (fun invalidNames name =>
                     if IsReserveredKeyword name
                     then invalidNames ++ [name] else invalidNames)
                  names [] in
      let context :=
        if (0 <? length invalidNames)%nat
        then AddAdviseResult context (Level v)
               (GetMessage (Message v) (Join "," invalidNames))
        else context in
      Some (reset v, context)
  end.

End KeywordRule.

(** ** ObjectNameMaxLengthRuleValidator *)

Section MaxLengthRule.

Context {RULE_LEVEL : Type}.

(** [RuleValidator.GetMessage()] without parameters gives the rule's
    message; the base class is not part of the modelled sources, so it
    is a parameter. *)
Variable GetMessage0 : string -> string.

(** The loop over [Names] with its [break]: the first name longer than
    64 is reported and ends the loop.  ([String.Length] is taken on
    ASCII text, one unit per character.) *)
Fixpoint MaxLength_loop (v : Validator RULE_LEVEL)
    (context : @AdviseResultContext RULE_LEVEL) (names : list string)
  : @AdviseResultContext RULE_LEVEL :=
  match names with
  | [] => context
  | name :: rest =>
      if (64 <? String.length name)%nat
      then AddAdviseResult context (Level v) (GetMessage0 (Message v))
      else MaxLength_loop v context rest
  end.

(** [ObjectNameMaxLengthRuleValidator.Check].  [None]: the exception of
    the base [Check] escapes, before anything is reported and before
    [reset]. *)
Definition MaxLength_Check (v : Validator RULE_LEVEL)
    (context : @AdviseResultContext RULE_LEVEL) (statement : TSqlStatement)
  : option (Validator RULE_LEVEL * @AdviseResultContext RULE_LEVEL) :=
  match ObjectNameRuleValidator_Check (Names v) statement with
  | None => None
  | Some names => Some (reset v, MaxLength_loop v context names)
  end.

End MaxLengthRule.

End SqlserverProtoServer.

(* ===================================================================== *)
(** * The task scheduling service *)
(* ===================================================================== *)

Module Sqle.

(** ** Data model

    The package [model] is not among the sources; its types and constants
    are taken from the data model of the specification and from the fields
    and constants the scheduler names. *)

(** Modelled from the spec: the constants [model.TaskStatus...], the
    task status values initialized, audited, executing, exec_succeeded and
    exec_failed. *)
Inductive TaskStatus : Type :=
| TaskStatusInit
| TaskStatusAudited
| TaskStatusExecuting
| TaskStatusExecuteSucceeded
| TaskStatusExecuteFailed.

(** Modelled from the spec: the constants [model.SQLExecuteStatus...],
    the execution status of one statement (not started, in progress,
    succeeded, failed); [SQLExecuteStatusUnset] is the empty string of a
    freshly allocated [BaseSQL]. *)
Inductive SQLExecuteStatus : Type :=
| SQLExecuteStatusUnset
| SQLExecuteStatusInit
| SQLExecuteStatusDoing
| SQLExecuteStatusSucceeded
| SQLExecuteStatusFailed.

(** Modelled from the spec: the constants [model.SQL_TYPE_...], the
    aggregate statement type of a task (DML, DDL, procedure or function,
    and the two conflict states); [SQL_TYPE_UNSET] is the value of a task
    that was never classified, which no [case] of the source names. *)
Inductive SQLType_t : Type :=
| SQL_TYPE_UNSET
| SQL_TYPE_DML
| SQL_TYPE_DDL
| SQL_TYPE_MULTI
| SQL_TYPE_PROCEDURE_FUNCTION
| SQL_TYPE_PROCEDURE_FUNCTION_MULTI.

(** Modelled from the spec: the constants [model.TASK_ACTION_...], the
    action kinds audit, commit and rollback; an [int] in the source, so
    values outside the three constants exist and fall through the
    [switch] of [do]. *)
Inductive ActionTyp : Type :=
| TASK_ACTION_AUDIT
| TASK_ACTION_EXECUTE
| TASK_ACTION_ROLLBACK
| TASK_ACTION_OTHER (n : Z).

(** Modelled from the spec: the constant [model.RULE_LEVEL_NORMAL], the
    severity level "normal". *)
Definition RULE_LEVEL_NORMAL : string := "normal".

#[global] Instance TaskStatus_eq_dec : EqDecision TaskStatus.
Proof. solve_decision. Defined.
#[global] Instance SQLExecuteStatus_eq_dec : EqDecision SQLExecuteStatus.
Proof. solve_decision. Defined.
#[global] Instance SQLType_eq_dec : EqDecision SQLType_t.
Proof. solve_decision. Defined.

(** Modelled from the spec: the error codes and error values of the
    package [errors].  [CodeError c m] is [errors.New(c, fmt.Errorf(m))];
    [Errorf m] is a plain [fmt.Errorf(m)]; the two package-level error
    values the scheduler returns are constructors of their own. *)
Inductive ErrorCode : Type :=
| TASK_RUNNING
| TASK_NOT_EXIST
| OTHER_CODE (n : Z).

Inductive error : Type :=
| CodeError (code : ErrorCode) (msg : string)
| Errorf (msg : string)
| SQL_STMT_CONFLICT_ERROR
| SQL_STMT_PROCEUDRE_FUNCTION_ERROR.

(** Modelled from the spec: the structs [model.BaseSQL],
    [model.ExecuteSQL], [model.RollbackSQL] and [model.Task], with the
    fields the scheduler and its callers read and write.  A [Node] is a
    parsed statement handle. *)
Record Node : Type := { Text : string }.

Record BaseSQL : Type := {
  Number : N;
  Content : string;
  Stmts : list Node;
  ExecStatus : SQLExecuteStatus;
  ExecResult : string
}.

Record ExecuteSQL : Type := {
  E_BaseSQL : BaseSQL;
  AuditStatus : string;
  AuditResult : string;
  AuditLevel : string
}.

Record RollbackSQL : Type := {
  R_BaseSQL : BaseSQL
}.

Record Task : Type := {
  ID : N;
  InstanceId : N;
  Schema : string;
  SQLType : SQLType_t;
  SQLSource : string;
  PassRate : float;
  Status : TaskStatus;
  ExecuteSQLs : list ExecuteSQL;
  RollbackSQLs : list RollbackSQL
}.

(** *** Field updates *)

(** The execution fields of a statement, the part of a [BaseSQL] that
    running it (or recording its status) writes. *)
Definition ExecFields : Type := (SQLExecuteStatus * string)%type.

(** The audit fields of a statement, the part auditing writes. *)
Record AuditFields : Type := {
  af_status : string;
  af_result : string;
  af_level : string
}.

Definition setExec (f : ExecFields) (sql : BaseSQL) : BaseSQL :=
  {| Number := Number sql; Content := Content sql; Stmts := Stmts sql;
     ExecStatus := fst f; ExecResult := snd f |}.

Definition setStmts (nodes : list Node) (sql : BaseSQL) : BaseSQL :=
  {| Number := Number sql; Content := Content sql; Stmts := nodes;
     ExecStatus := ExecStatus sql; ExecResult := ExecResult sql |}.

Definition setBase (b : BaseSQL) (sql : ExecuteSQL) : ExecuteSQL :=
  {| E_BaseSQL := b; AuditStatus := AuditStatus sql;
     AuditResult := AuditResult sql; AuditLevel := AuditLevel sql |}.

Definition setAudit (a : AuditFields) (sql : ExecuteSQL) : ExecuteSQL :=
  {| E_BaseSQL := E_BaseSQL sql; AuditStatus := af_status a;
     AuditResult := af_result a; AuditLevel := af_level a |}.

Definition setRBase (b : BaseSQL) (sql : RollbackSQL) : RollbackSQL :=
  {| R_BaseSQL := b |}.

Definition setExecuteSQLs (l : list ExecuteSQL) (t : Task) : Task :=
  {| ID := ID t; InstanceId := InstanceId t; Schema := Schema t;
     SQLType := SQLType t; SQLSource := SQLSource t; PassRate := PassRate t;
     Status := Status t; ExecuteSQLs := l; RollbackSQLs := RollbackSQLs t |}.

Definition setRollbackSQLs (l : list RollbackSQL) (t : Task) : Task :=
  {| ID := ID t; InstanceId := InstanceId t; Schema := Schema t;
     SQLType := SQLType t; SQLSource := SQLSource t; PassRate := PassRate t;
     Status := Status t; ExecuteSQLs := ExecuteSQLs t; RollbackSQLs := l |}.

Definition setPassRate (r : float) (t : Task) : Task :=
  {| ID := ID t; InstanceId := InstanceId t; Schema := Schema t;
     SQLType := SQLType t; SQLSource := SQLSource t; PassRate := r;
     Status := Status t; ExecuteSQLs := ExecuteSQLs t;
     RollbackSQLs := RollbackSQLs t |}.

Definition setStatus (s : TaskStatus) (t : Task) : Task :=
  {| ID := ID t; InstanceId := InstanceId t; Schema := Schema t;
     SQLType := SQLType t; SQLSource := SQLSource t; PassRate := PassRate t;
     Status := s; ExecuteSQLs := ExecuteSQLs t;
     RollbackSQLs := RollbackSQLs t |}.

(** Statements are shared by pointer with the collaborators: a call that
    is handed [n] statements answers with the fields it wrote, which are
    stored back position by position.  A statement without an answer
    keeps its fields. *)
Fixpoint writeBack {A B : Type} (f : B -> A -> A) (l : list A) (bs : list B)
  : list A :=
  match l, bs with
  | a :: l', b :: bs' => f b a :: writeBack f l' bs'
  | _, _ => l
  end.

(** [fmt.Sprintf("%d", n)] and [fmt.Sprintf("%v", n)] of an unsigned
    integer: its decimal digits. *)
Definition Sprintf_d (n : N) : string :=
  NilZero.string_of_uint (N.to_uint n).

(** ** Rounding of the pass rate

    [float64] is the binary64 type of the kernel: every operation rounds
    to the nearest value, ties to even, one operation at a time, as the
    Go compiler emits them for amd64 (the language lets a target fuse
    [f*p + 0.5] into one rounding). *)

(** [float64(n)] of a non-negative integer below 2^63. *)
Definition float64_of_Z (z : Z) : float := PrimFloat.of_uint63 (Uint63.of_Z z).

(** [math.Pow10(n)] for [0 <= n <= 18], where 10^n is a value of the type
    or rounds to the nearest one. *)
Definition Pow10 (n : nat) : float := float64_of_Z (10 ^ Z.of_nat n).

(** [math.Trunc]: the integer part, rounding toward zero, which drops
    the bits of the mantissa below the unit; zeros, infinities, NaN and
    the values without a fraction are returned as they are. *)
Definition Trunc (x : float) : float :=
  match Prim2SF x with
  | S754_finite s m e =>
      if (0 <=? e)%Z then x
      else
        let v := float64_of_Z (Z.shiftr (Zpos m) (- e)) in
        if s then PrimFloat.opp v else v
  | _ => x
  end.

Definition round (f : float) (n : nat) : float :=
  let p := Pow10 n in
  PrimFloat.div (Trunc (PrimFloat.add (PrimFloat.mul f p) 0.5%float)) p.

(** Written from the specification: [count] over [total] rounded to [n]
    decimals, half up, in exact arithmetic, as a number of units of
    10^-n; and the [float64] that is this many units over 10^n. *)
Definition halfUpUnits (count total : Z) (n : nat) : Z :=
  ((2 * 10 ^ Z.of_nat n * count + total) / (2 * total))%Z.

Definition roundHalfUp (count total : Z) (n : nat) : float :=
  PrimFloat.div (float64_of_Z (halfUpUnits count total n)) (Pow10 n).

(** The counter of [audit] after [k] statements of level normal. *)
Definition addOnes (k : nat) : float :=
  Nat.iter k (fun normalCount => PrimFloat.add normalCount 1%float) 0%float.

(** [round] gives the number [roundHalfUp] gives for the counts [count],
    ..., [count + fuel - 1] out of [total], where [normalCount] is the
    counter at [count]. *)
Fixpoint agreesFrom (total : Z) (fuel : nat) (count : Z) (normalCount : float) : bool :=
  match fuel with
  | O => true
  | S fuel =>
      PrimFloat.eqb (round (PrimFloat.div normalCount (float64_of_Z total)) 4)
                    (roundHalfUp count total 4)
      && agreesFrom total fuel (count + 1) (PrimFloat.add normalCount 1%float)
  end.

Definition agreesFor (total : nat) : bool :=
  agreesFrom (Z.of_nat total) (S total) 0 0%float.

Definition agreesBelow (bound : nat) : bool :=
  forallb agreesFor (seq 1 (bound - 1)).

(** ** The collaborators

    The inspector (package [inspector]), the rules and the [Task] method
    [ValidAction] are not among the sources; they are parameters.
    [SqlInvalid] and [SqlType] read the inspector's state; [Ctx] is the
    context object the inspector holds, shared by pointer with whoever
    created it; [ValidAction] answers nil or the error that forbids the
    action. *)
Class Collaborators : Type := {
  Inspector : Type;
  Context : Type;
  Rule : Type;
  RuleMap : Type;
  NewContext : Context;
  NewInspector : Context -> Task -> list Task -> option RuleMap -> Inspector;
  Ctx : Inspector -> Context;
  SqlInvalid : Inspector -> bool;
  SqlType : Inspector -> SQLType_t;
  GetRuleMapFromAllArray : list Rule -> RuleMap;
  ValidAction : Task -> ActionTyp -> option error;
  TaskSQLSourceFromMyBatisXMLFile : string
}.

Inductive LogLevel : Type := LInfo | LWarn | LError.

Inductive LogArg : Type :=
| ArgErr (e : error)
| ArgStr (s : string).

Section Events.

Context `{Collaborators}.

(** *** Calls that leave the workflow

    Every call to the task store, to the inspector and to the logger is
    an event; its index is the type of what comes back.  A call on the
    inspector answers with the inspector's next state.  A call that is
    handed a statement by pointer answers with the execution fields (or
    audit fields) the statement has afterwards. *)
Inductive Ev : Type -> Type :=
(* task store *)
| GetTaskDetailById (taskId : string) : Ev (option Task + error)
| GetRulesByInstanceId (instanceId : string) : Ev (list Rule + error)
| GetRelatedDDLTask (task : Task) : Ev (list Task + error)
| UpdateExecuteSQLs (task : Task) (sqls : list ExecuteSQL) : Ev (option error)
| UpdateTask (task : Task) (sql_type : SQLType_t) (pass_rate : float)
             (status : TaskStatus) : Ev (option error)
| UpdateRollbackSQLs (task : Task) (sqls : list RollbackSQL) : Ev (option error)
| UpdateTaskStatusById (id : N) (status : TaskStatus) : Ev (option error)
| UpdateExecuteSQLStatusByTaskId (task : Task) (status : SQLExecuteStatus)
    : Ev (option error)
| UpdateExecuteSqlStatus (sql : BaseSQL) (status : SQLExecuteStatus)
                         (result : string) : Ev (ExecFields * option error)
| UpdateRollbackSqlStatus (sql : BaseSQL) (status : SQLExecuteStatus)
                          (result : string) : Ev (ExecFields * option error)
| SaveExecuteSQL (sql : ExecuteSQL) : Ev (option error)
| SaveRollbackSQL (sql : RollbackSQL) : Ev (option error)
(* inspector *)
| Advise (i : Inspector) (sqls : list ExecuteSQL) (rules : list Rule)
    : Ev (Inspector * list AuditFields * option error)
| GenerateAllRollbackSql (i : Inspector) (sqls : list ExecuteSQL)
    : Ev (Inspector * (list RollbackSQL + error))
| ParseSqlType (i : Inspector) (sqls : list ExecuteSQL)
    : Ev (Inspector * option error)
| ParseSql (i : Inspector) (content : string)
    : Ev (Inspector * (list Node + error))
| Add (i : Inspector) (sql : BaseSQL) : Ev (Inspector * option error)
| GetProcedureFunctionBackupSql (i : Inspector) (content : string)
    : Ev (Inspector * (list string + error))
| CommitDDL (i : Inspector) (sql : BaseSQL)
    : Ev (Inspector * ExecFields * option error)
| CommitDMLs (i : Inspector) (sqls : list BaseSQL)
    : Ev (Inspector * list ExecFields)
(* logger *)
| Log (level : LogLevel) (format : string) (args : list LogArg) : Ev unit.

(** One call with its answer. *)
Inductive Entry : Type :=
| Call (X : Type) (e : Ev X) (x : X).

(** The world outside the workflow: it answers every call, knowing
    the calls made so far. *)
Definition Oracle : Type := forall X : Type, list Entry -> Ev X -> X.

(** Computations that make calls: given the world and the calls so far,
    a result and the calls extended. *)
Definition M (A : Type) : Type := Oracle -> list Entry -> A * list Entry.

Definition call {X : Type} (e : Ev X) : M X :=
  fun o h => let x := o X h e in (x, h ++ [Call X e x]).

Definition mret_M {A : Type} (a : A) : M A := fun _ h => (a, h).

Definition mbind_M {A B : Type} (f : A -> M B) (m : M A) : M B :=
  fun o h => let '(a, h') := m o h in f a o h'.

#[global] Instance M_ret : MRet M := @mret_M.
#[global] Instance M_bind : MBind M := @mbind_M.

(** Run a computation from the empty history. *)
Definition run {A : Type} (o : Oracle) (m : M A) : A * list Entry := m o [].

End Events.

Section Workflows.

Context `{Collaborators}.

(** ** The audit workflow *)

(** The loop that counts the statements whose level is "normal". *)
Definition normalCount (sqls : list ExecuteSQL) : float :=
  fold_left (fun normalCount sql =>
               if String.eqb (AuditLevel sql) RULE_LEVEL_NORMAL
               then PrimFloat.add normalCount 1%float else normalCount)
            sqls 0%float.

(** The last part of [audit]: persist the statements, compute the pass
    rate, persist the task and the rollback statements. *)
Definition audit_persist (task : Task) (sqlType : SQLType_t)
    (rollbackSqls : list RollbackSQL) : M (Task * option error) :=
  err ← call (UpdateExecuteSQLs task (ExecuteSQLs task));
  match err with
  | Some err =>
      _ ← call (Log LError "save commit sql to storage failed, error: %v" [ArgErr err]);
      mret (task, Some err)
  | None =>
      let normalCount := normalCount (ExecuteSQLs task) in
      let task :=
        if negb (length (ExecuteSQLs task) =? 0)%nat
        then setPassRate
               (round (PrimFloat.div normalCount
                         (float64_of_Z (Z.of_nat (length (ExecuteSQLs task))))) 4)
               task
        else task in
      let task := setStatus TaskStatusAudited task in
      err ← call (UpdateTask task sqlType (PassRate task) (Status task));
      match err with
      | Some err =>
          _ ← call (Log LError "update task to storage failed, error: %v" [ArgErr err]);
          mret (task, Some err)
      | None =>
          if (0 <? length rollbackSqls)%nat then
            err ← call (UpdateRollbackSQLs task rollbackSqls);
            match err with
            | Some err =>
                _ ← call (Log LError "save rollback sql to storage failed, error: %v" [ArgErr err]);
                mret (task, Some err)
            | None => mret (task, None)
            end
          else mret (task, None)
      end
  end.

(** The middle part of [audit]: generate rollback after advise. *)
Definition audit_rollback (task : Task) (ruleMap : RuleMap)
    (firstSqlInvalid : bool) (sqlType : SQLType_t) : M (Task * option error) :=
  if firstSqlInvalid then
    _ ← call (Log LWarn "sql invalid, ignore generate rollback" []);
    audit_persist task sqlType []
  else if String.eqb (SQLSource task) TaskSQLSourceFromMyBatisXMLFile then
    _ ← call (Log LWarn "task is mybatis xml file audit, ignore generate rollback" []);
    audit_persist task sqlType []
  else
    let ctx := NewContext in
    let i := NewInspector ctx task [] (Some ruleMap) in
    '(i, r) ← call (GenerateAllRollbackSql i (ExecuteSQLs task));
    match r with
    | inr err => mret (task, Some err)
    | inl rollbackSqls => audit_persist task sqlType rollbackSqls
    end.

Definition audit (task : Task) : M (Task * option error) :=
  r ← call (GetRulesByInstanceId (Sprintf_d (InstanceId task)));
  match r with
  | inr err =>
      _ ← call (Log LError "get instance rule from storage failed, error: %v" [ArgErr err]);
      mret (task, Some err)
  | inl rules =>
      let ruleMap := GetRuleMapFromAllArray rules in
      let ctx := NewContext in
      let i := NewInspector ctx task [] (Some ruleMap) in
      '(i, afs, err) ← call (Advise i (ExecuteSQLs task) rules);
      let task := setExecuteSQLs (writeBack setAudit (ExecuteSQLs task) afs) task in
      match err with
      | Some err => mret (task, Some err)
      | None =>
          let firstSqlInvalid := SqlInvalid i in
          let sqlType := SqlType i in
          (* if sql type is DML and sql invalid, try to advise with other DDL. *)
          if bool_decide (sqlType = SQL_TYPE_DML) && SqlInvalid i then
            r ← call (GetRelatedDDLTask task);
            match r with
            | inr err => mret (task, Some err)
            | inl relateTasks =>
                if (0 <? length relateTasks)%nat then
                  _ ← call (Log LWarn "dml sql invalid, retry advise with relate ddl" []);
                  let i := NewInspector (Ctx i) task relateTasks (Some ruleMap) in
                  '(i, afs, err) ← call (Advise i (ExecuteSQLs task) rules);
                  let task :=
                    setExecuteSQLs (writeBack setAudit (ExecuteSQLs task) afs) task in
                  match err with
                  | Some err => mret (task, Some err)
                  | None => audit_rollback task ruleMap firstSqlInvalid sqlType
                  end
                else audit_rollback task ruleMap firstSqlInvalid sqlType
            end
          else audit_rollback task ruleMap firstSqlInvalid sqlType
      end
  end.

(** ** Registered actions

    Modelled from the spec: [Inspector.Add] and [Inspector.Do], which
    the sources call but do not contain.  [Add] hands a statement and
    its action to the inspector, and can fail; nothing runs yet.  [Do]
    runs the registered actions one at a time, in registration order,
    each on its own statement, and stops at the first one that fails,
    whose error it returns. *)
Fixpoint AddAll {A : Type} (registered : A -> bool) (base : A -> BaseSQL)
    (i : Inspector) (sqls : list A) : M (Inspector * option error) :=
  match sqls with
  | [] => mret (i, None)
  | currentSql :: rest =>
      if registered currentSql then
        '(i, err) ← call (Add i (base currentSql));
        match err with
        | Some err => mret (i, Some err)
        | None => AddAll registered base i rest
        end
      else AddAll registered base i rest
  end.

Fixpoint Do {A : Type} (registered : A -> bool)
    (action : Inspector -> A -> M (Inspector * A * option error))
    (i : Inspector) (sqls : list A) : M (Inspector * list A * option error) :=
  match sqls with
  | [] => mret (i, [], None)
  | currentSql :: rest =>
      if registered currentSql then
        '(i, currentSql, err) ← action i currentSql;
        match err with
        | Some err => mret (i, currentSql :: rest, Some err)
        | None =>
            '(i, rest, err) ← Do registered action i rest;
            mret (i, currentSql :: rest, err)
        end
      else
        '(i, rest, err) ← Do registered action i rest;
        mret (i, currentSql :: rest, err)
  end.

(** ** The commit workflow *)

(** The loop that decides the task status after the statements ran. *)
Fixpoint taskStatusAfter (sqls : list ExecuteSQL) : TaskStatus :=
  match sqls with
  | [] => TaskStatusExecuteSucceeded
  | sql :: rest =>
      if bool_decide (ExecStatus (E_BaseSQL sql) = SQLExecuteStatusFailed)
      then TaskStatusExecuteFailed
      else taskStatusAfter rest
  end.

(** A fresh [BaseSQL] with only [Content] set. *)
Definition backupSqlModel (backupSql : string) : BaseSQL :=
  {| Number := 0; Content := backupSql; Stmts := [];
     ExecStatus := SQLExecuteStatusUnset; ExecResult := "" |}.

(** The loop over the backup statements of one procedure or function. *)
Fixpoint commitBackupSqls (i : Inspector) (backupSqls : list string)
  : M Inspector :=
  match backupSqls with
  | [] => mret i
  | backupSql :: rest =>
      '(i, _, err) ← call (CommitDDL i (backupSqlModel backupSql));
      _ ← match err with
          | Some err =>
              call (Log LError
                      "create procedure function backup failed, sql: %v, error: %v"
                      [ArgStr backupSql; ArgErr err])
          | None => mret tt
          end;
      commitBackupSqls i rest
  end.

Definition logSaveFailed (err : option error) : M unit :=
  match err with
  | Some err =>
      call (Log LError "save commit sql to storage failed, error: %v" [ArgErr err])
  | None => mret tt
  end.

(** The action [commitDDL] registers for one statement. *)
Definition commitDDL_action (isProcedureFunction : bool)
    (i : Inspector) (currentSql : ExecuteSQL)
  : M (Inspector * ExecuteSQL * option error) :=
  let sql := E_BaseSQL currentSql in
  '(f, err) ← call (UpdateExecuteSqlStatus sql SQLExecuteStatusDoing "");
  let sql := setExec f sql in
  let currentSql := setBase sql currentSql in
  match err with
  | Some err =>
      _ ← call (Log LError "update commit sql status to storage failed, error: %v"
                  [ArgErr err]);
      mret (i, currentSql, Some err)
  | None =>
      '(i, err) ←
        (if isProcedureFunction then
           '(i, r) ← call (GetProcedureFunctionBackupSql i (Content sql));
           match r with
           | inr err =>
               _ ← call (Log LError
                           "get procedure function backup sql failed, error: %v"
                           [ArgErr err]);
               mret (i, Some err)
           | inl backupSqls =>
               i ← commitBackupSqls i backupSqls;
               mret (i, None)
           end
         else mret (i, None));
      match err with
      | Some err => mret (i, currentSql, Some err)
      | None =>
          '(i, f, _) ← call (CommitDDL i sql);
          let sql := setExec f sql in
          let currentSql := setBase sql currentSql in
          if negb (String.eqb (ExecResult sql) "ok") then
            err ← call (SaveExecuteSQL currentSql);
            _ ← logSaveFailed err;
            mret (i, currentSql, Some (Errorf "exec ddl commit sql failed"))
          else
            err ← call (SaveExecuteSQL currentSql);
            _ ← logSaveFailed err;
            mret (i, currentSql, err)
      end
  end.

Definition commitDDL (task : Task) (isProcedureFunction : bool)
  : M (Task * option error) :=
  _ ← call (Log LInfo "start commit" []);
  let i := NewInspector NewContext task [] None in
  '(i, err) ← AddAll (fun _ => true) E_BaseSQL i (ExecuteSQLs task);
  match err with
  | Some err =>
      _ ← call (Log LError "add commit sql to task failed" []);
      mret (task, Some err)
  | None =>
      err ← call (UpdateTaskStatusById (ID task) TaskStatusExecuting);
      match err with
      | Some err => mret (task, Some err)
      | None =>
          '(i, sqls, err) ←
            Do (fun _ => true) (commitDDL_action isProcedureFunction)
               i (ExecuteSQLs task);
          let task := setExecuteSQLs sqls task in
          _ ← match err with
              | Some _ => call (Log LError "commit sql failed" [])
              | None => call (Log LInfo "commit sql finish" [])
              end;
          let taskStatus := taskStatusAfter (ExecuteSQLs task) in
          err ← call (UpdateTaskStatusById (ID task) taskStatus);
          mret (task, err)
      end
  end.

(** The loop of [commitDML] that parses every statement again. *)
Fixpoint commitDML_parse (i : Inspector) (sqls : list ExecuteSQL)
  : M (Inspector * list ExecuteSQL * option error) :=
  match sqls with
  | [] => mret (i, [], None)
  | executeSQL :: rest =>
      '(i, r) ← call (ParseSql i (Content (E_BaseSQL executeSQL)));
      match r with
      | inr err => mret (i, executeSQL :: rest, Some err)
      | inl nodes =>
          let executeSQL :=
            setBase (setStmts nodes (E_BaseSQL executeSQL)) executeSQL in
          '(i, rest, err) ← commitDML_parse i rest;
          mret (i, executeSQL :: rest, err)
      end
  end.

Definition commitDML (task : Task) : M (Task * option error) :=
  _ ← call (Log LInfo "start commit" []);
  let i := NewInspector NewContext task [] None in
  err ← call (UpdateExecuteSQLStatusByTaskId task SQLExecuteStatusDoing);
  match err with
  | Some err =>
      _ ← call (Log LError "update commit sql status to storage failed, error: %v"
                  [ArgErr err]);
      mret (task, Some err)
  | None =>
      '(i, executeSQLs, err) ← commitDML_parse i (ExecuteSQLs task);
      let task := setExecuteSQLs executeSQLs task in
      match err with
      | Some err => mret (task, Some err)
      | None =>
          let sqls := map E_BaseSQL (ExecuteSQLs task) in
          err ← call (UpdateTaskStatusById (ID task) TaskStatusExecuting);
          match err with
          | Some err => mret (task, Some err)
          | None =>
              '(i, fs) ← call (CommitDMLs i sqls);
              let task :=
                setExecuteSQLs
                  (writeBack (fun f sql => setBase (setExec f (E_BaseSQL sql)) sql)
                             (ExecuteSQLs task) fs)
                  task in
              err ← call (UpdateExecuteSQLs task (ExecuteSQLs task));
              match err with
              | Some err =>
                  _ ← call (Log LError "save commit sql to storage failed, error: %v"
                              [ArgErr err]);
                  err' ← call (UpdateTaskStatusById (ID task) TaskStatusExecuteFailed);
                  _ ← match err' with
                      | Some err' =>
                          call (Log LError "update task exec_status failed: %v"
                                  [ArgErr err'])
                      | None => mret tt
                      end;
                  mret (task, Some err)
              | None =>
                  let taskStatus := taskStatusAfter (ExecuteSQLs task) in
                  err ← call (UpdateTaskStatusById (ID task) taskStatus);
                  mret (task, err)
              end
          end
      end
  end.

Definition commit (task : Task) : M (Task * option error) :=
  if bool_decide (SQLType task = SQL_TYPE_DML) then commitDML task
  else if bool_decide (SQLType task = SQL_TYPE_DDL) then commitDDL task false
  else if bool_decide (SQLType task = SQL_TYPE_PROCEDURE_FUNCTION)
  then commitDDL task true
  else
    (* if task is not inspected, parse task SQL type and commit it. *)
    let i := NewInspector NewContext task [] None in
    '(i, err) ← call (ParseSqlType i (ExecuteSQLs task));
    match err with
    | Some err => mret (task, Some err)
    | None =>
        match SqlType i with
        | SQL_TYPE_DML => commitDML task
        | SQL_TYPE_DDL => commitDDL task false
        | SQL_TYPE_MULTI => mret (task, Some SQL_STMT_CONFLICT_ERROR)
        | SQL_TYPE_PROCEDURE_FUNCTION => commitDDL task true
        | SQL_TYPE_PROCEDURE_FUNCTION_MULTI =>
            mret (task, Some SQL_STMT_PROCEUDRE_FUNCTION_ERROR)
        | SQL_TYPE_UNSET => mret (task, None)
        end
    end.

(** ** The rollback workflow *)

(** [currentSql.Content == ""] makes the loop [continue]: the
    statement is not registered. *)
Definition rollbackRegistered (currentSql : RollbackSQL) : bool :=
  negb (String.eqb (Content (R_BaseSQL currentSql)) "").

(** The action [rollback] registers for one rollback statement. *)
Definition rollback_action (i : Inspector) (currentSql : RollbackSQL)
  : M (Inspector * RollbackSQL * option error) :=
  let sql := R_BaseSQL currentSql in
  '(f, err) ← call (UpdateRollbackSqlStatus sql SQLExecuteStatusDoing "");
  let sql := setExec f sql in
  let currentSql := setRBase sql currentSql in
  match err with
  | Some err =>
      _ ← call (Log LError "update rollback sql status to storage failed, error: %v"
                  [ArgErr err]);
      mret (i, currentSql, Some err)
  | None =>
      let save (i : Inspector) (currentSql : RollbackSQL) :=
        err ← call (SaveRollbackSQL currentSql);
        _ ← logSaveFailed err;
        mret (i, currentSql, err) in
      match SqlType i with
      | SQL_TYPE_DDL =>
          '(i, f, _) ← call (CommitDDL i sql);
          save i (setRBase (setExec f sql) currentSql)
      | SQL_TYPE_DML =>
          '(i, fs) ← call (CommitDMLs i [sql]);
          save i (setRBase (hd sql (writeBack setExec [sql] fs)) currentSql)
      | SQL_TYPE_MULTI =>
          _ ← call (Log LError "%v" [ArgErr SQL_STMT_CONFLICT_ERROR]);
          mret (i, currentSql, Some SQL_STMT_CONFLICT_ERROR)
      | SQL_TYPE_PROCEDURE_FUNCTION =>
          (* need not rollback procedure and function *)
          save i currentSql
      | SQL_TYPE_PROCEDURE_FUNCTION_MULTI =>
          _ ← call (Log LError "%v" [ArgErr SQL_STMT_PROCEUDRE_FUNCTION_ERROR]);
          mret (i, currentSql, Some SQL_STMT_PROCEUDRE_FUNCTION_ERROR)
      | SQL_TYPE_UNSET => save i currentSql
      end
  end.

Definition rollback (task : Task) : M (Task * option error) :=
  _ ← call (Log LInfo "start rollback sql" []);
  let i := NewInspector NewContext task [] None in
  '(i, err) ← AddAll rollbackRegistered R_BaseSQL i (RollbackSQLs task);
  match err with
  | Some err =>
      _ ← call (Log LError "add rollback sql to task failed" []);
      mret (task, Some err)
  | None =>
      '(i, sqls, err) ←
        Do rollbackRegistered rollback_action i (RollbackSQLs task);
      let task := setRollbackSQLs sqls task in
      _ ← match err with
          | Some _ => call (Log LError "rollback sql failed" [])
          | None => call (Log LInfo "rollback sql finish" [])
          end;
      mret (task, err)
  end.

(** ** The scheduler *)

(** An action for a task.  [A_Task] is nil until the task is loaded.
    The [Done] channel only wakes a waiting caller and is left out. *)
Record Action : Type := {
  A_Task : option Task;
  Typ : ActionTyp;
  Error : option error
}.

(** [currentTask] holds the ids of the tasks with an action under way;
    [queue] is the channel of accepted actions, oldest first. *)
Record Sqled : Type := {
  currentTask : gset string;
  queue : list Action
}.

(** [InitSqled]. *)
Definition InitSqled : Sqled := {| currentTask := ∅; queue := [] |}.

Definition HasTask (s : Sqled) (taskId : string) : bool :=
  bool_decide (taskId ∈ currentTask s).

(** The first critical section of [addTask]: under the lock, look the
    id up and insert it when it is absent. *)
Definition addTask_lock (s : Sqled) (taskId : string) : bool * Sqled :=
  let taskRunning := bool_decide (taskId ∈ currentTask s) in
  (taskRunning,
   if taskRunning then s
   else {| currentTask := {[taskId]} ∪ currentTask s; queue := queue s |}).

(** The critical section at the label [Error] of [addTask], and the one
    of [do]: under the lock, delete the id. *)
Definition deleteTask (s : Sqled) (taskId : string) : Sqled :=
  {| currentTask := currentTask s ∖ {[taskId]}; queue := queue s |}.

(** What [addTask] does with the answer of the store: the task to
    queue, or the error to leave with. *)
Definition addTask_validate (r : option Task + error) (typ : ActionTyp)
  : Task + error :=
  match r with
  | inr err => inr err
  | inl None => inr (CodeError TASK_NOT_EXIST "task not exist")
  | inl (Some task) =>
      match ValidAction task typ with
      | Some err => inr err
      | None => inl task
      end
  end.

(** [s.queue <- action]. *)
Definition send (s : Sqled) (action : Action) : Sqled :=
  {| currentTask := currentTask s; queue := queue s ++ [action] |}.

(** [errors.New(errors.TASK_RUNNING, fmt.Errorf("task is running"))]. *)
Definition taskRunningError : error := CodeError TASK_RUNNING "task is running".

Definition addTask (s : Sqled) (taskId : string) (typ : ActionTyp)
  : M (Sqled * Action * option error) :=
  let action := {| A_Task := None; Typ := typ; Error := None |} in
  let '(taskRunning, s) := addTask_lock s taskId in
  if taskRunning then
    mret (s, action, Some taskRunningError)
  else
    r ← call (GetTaskDetailById taskId);
    match addTask_validate r typ with
    | inr err => mret (deleteTask s taskId, action, Some err)
    | inl task =>
        let action := {| A_Task := Some task; Typ := typ; Error := None |} in
        mret (send s action, action, None)
    end.

Definition AddTask (s : Sqled) (taskId : string) (typ : ActionTyp)
  : M (Sqled * option error) :=
  '(s, _, err) ← addTask s taskId typ;
  mret (s, err).

(** The [switch] of [do]. *)
Definition do_switch (task : Task) (typ : ActionTyp) : M (Task * option error) :=
  match typ with
  | TASK_ACTION_AUDIT => audit task
  | TASK_ACTION_EXECUTE => commit task
  | TASK_ACTION_ROLLBACK => rollback task
  | TASK_ACTION_OTHER _ => mret (task, None)
  end.

(** [do]; [None] is the nil dereference of an action without a task,
    which [addTask] never queues. *)
Definition do (s : Sqled) (action : Action)
  : M (option (Sqled * Action * option error)) :=
  match A_Task action with
  | None => mret None
  | Some task =>
      '(task, err) ← do_switch task (Typ action);
      let action :=
        {| A_Task := Some task; Typ := Typ action;
           Error := match err with Some _ => err | None => Error action end |} in
      let taskId := Sprintf_d (ID task) in
      mret (Some (deleteTask s taskId, action, err))
  end.

(** ** The scheduler with its callers running side by side

    The state the goroutines share is [Sqled]; every access to
    [currentTask] is inside a critical section, so an execution is a
    sequence of the steps below.  [pending] are the calls of [addTask]
    between their first critical section and the answer of the store,
    [running] the actions [taskLoop] has started with [go s.do]. *)
Record Sched : Type := {
  sqled : Sqled;
  pending : list (string * ActionTyp);
  running : list Action
}.

Definition initSched : Sched :=
  {| sqled := InitSqled; pending := []; running := [] |}.

Inductive Label : Type :=
(* a caller runs the first critical section of [addTask] *)
| LEnter (taskId : string) (typ : ActionTyp)
(* the [k]-th pending call gets the store's answer [r] and finishes *)
| LValidate (k : nat) (r : option Task + error)
(* [taskLoop] receives from the queue and starts [do] *)
| LDispatch
(* the [k]-th running [do] runs its workflow against the world [o] and
   deletes its id *)
| LFinish (k : nat) (o : Oracle).

(** What the call of [LEnter] returns at once, if anything. *)
Definition enter_error (s : Sched) (taskId : string) : option error :=
  if fst (addTask_lock (sqled s) taskId)
  then Some taskRunningError else None.

Definition step (s : Sched) (l : Label) : option Sched :=
  match l with
  | LEnter taskId typ =>
      let '(taskRunning, sq) := addTask_lock (sqled s) taskId in
      Some {| sqled := sq;
              pending := if taskRunning then pending s
                         else pending s ++ [(taskId, typ)];
              running := running s |}
  | LValidate k r =>
      match pending s !! k with
      | None => None
      | Some (taskId, typ) =>
          let sq :=
            match addTask_validate r typ with
            | inr _ => deleteTask (sqled s) taskId
            | inl task =>
                send (sqled s) {| A_Task := Some task; Typ := typ; Error := None |}
            end in
          Some {| sqled := sq; pending := delete k (pending s);
                  running := running s |}
      end
  | LDispatch =>
      match queue (sqled s) with
      | [] => None
      | action :: rest =>
          Some {| sqled := {| currentTask := currentTask (sqled s); queue := rest |};
                  pending := pending s;
                  running := running s ++ [action] |}
      end
  | LFinish k o =>
      match running s !! k with
      | None => None
      | Some action =>
          match fst (run o (do (sqled s) action)) with
          | None => None
          | Some (sq, _, _) =>
              Some {| sqled := sq; pending := pending s;
                      running := delete k (running s) |}
          end
      end
  end.

Fixpoint steps (s : Sched) (ls : list Label) : option Sched :=
  match ls with
  | [] => Some s
  | l :: ls' =>
      match step s l with
      | None => None
      | Some s' => steps s' ls'
      end
  end.

(** The ids with an action under way: one per pending call, per queued
    action and per running action. *)
Definition actionId (action : Action) : string :=
  match A_Task action with
  | Some task => Sprintf_d (ID task)
  | None => ""
  end.

Definition inFlight (s : Sched) : list string :=
  map fst (pending s) ++ map actionId (queue (sqled s))
    ++ map actionId (running s).

(** The invariant of the scheduler: the ids in flight are pairwise
    different, and they are the members of [currentTask]. *)
Definition guarded (s : Sched) : Prop :=
  NoDup (inFlight s)
  /\ forall taskId, taskId ∈ currentTask (sqled s) <-> In taskId (inFlight s).

(** The store answers a lookup by id with the task of that id. *)
Definition answerFor (taskId : string) (r : option Task + error) : Prop :=
  match r with
  | inl (Some task) => Sprintf_d (ID task) = taskId
  | _ => True
  end.

(** An execution in which every answer of the store is for the id asked. *)
Fixpoint faithfulStore (s : Sched) (ls : list Label) : Prop :=
  match ls with
  | [] => True
  | l :: ls' =>
      match l with
      | LValidate k r =>
          match pending s !! k with
          | Some (taskId, _) => answerFor taskId r
          | None => True
          end
      | _ => True
      end /\
      match step s l with
      | Some s' => faithfulStore s' ls'
      | None => True
      end
  end.

(** [n] callers of [addTask] on one id run their first critical
    section one after the other; the result of each. *)
Fixpoint race (s : Sched) (taskId : string) (typs : list ActionTyp)
  : list (option error) * Sched :=
  match typs with
  | [] => ([], s)
  | typ :: rest =>
      let err := enter_error s taskId in
      match step s (LEnter taskId typ) with
      | Some s' => let '(errs, s'') := race s' taskId rest in (err :: errs, s'')
      | None => ([], s)
      end
  end.

End Workflows.

(** ** Reading a history of calls *)

Section Observers.

Context `{Collaborators}.

(** The event of an entry, whatever its answer. *)
Definition onEvent (p : forall X, Ev X -> bool) (en : Entry) : bool :=
  match en with Call X e _ => p X e end.

(** A statement is run against the database. *)
Definition isExec : Entry -> bool :=
  onEvent (fun _ e => match e with
                      | CommitDDL _ _ | CommitDMLs _ _ => true
                      | _ => false
                      end).

(** The task store is asked to write. *)
Definition isStoreUpdate : Entry -> bool :=
  onEvent (fun _ e => match e with
                      | UpdateExecuteSQLs _ _ | UpdateTask _ _ _ _
                      | UpdateRollbackSQLs _ _ | UpdateTaskStatusById _ _
                      | UpdateExecuteSQLStatusByTaskId _ _
                      | UpdateExecuteSqlStatus _ _ _
                      | UpdateRollbackSqlStatus _ _ _
                      | SaveExecuteSQL _ | SaveRollbackSQL _ => true
                      | _ => false
                      end).

(** The task store is asked to write a task's status. *)
Definition isStatusUpdate : Entry -> bool :=
  onEvent (fun _ e => match e with
                      | UpdateTask _ _ _ _ | UpdateTaskStatusById _ _ => true
                      | _ => false
                      end).

(** The task store is asked to write a task's pass rate. *)
Definition isPassRateUpdate : Entry -> bool :=
  onEvent (fun _ e => match e with
                      | UpdateTask _ _ _ _ => true
                      | _ => false
                      end).

(** The store accepted the status [status] for the task [id]. *)
Definition isStatusSet (id : N) (status : TaskStatus) (en : Entry) : bool :=
  match en with
  | Call _ (UpdateTaskStatusById id' status') None =>
      bool_decide (id' = id) && bool_decide (status' = status)
  | _ => false
  end.

(** The statements run by [CommitDDL], oldest first. *)
Definition commitDDLArg (en : Entry) : option BaseSQL :=
  match en with
  | Call _ (CommitDDL _ sql) _ => Some sql
  | _ => None
  end.

Definition commitDDLArgs (t : list Entry) : list BaseSQL :=
  omap commitDDLArg t.

(** The computation [m] makes only calls that satisfy [P], extends the
    history it is given, and its result satisfies [Q]. *)
Definition sat {A : Type} (m : M A) (P : Entry -> Prop) (Q : A -> Prop) : Prop :=
  forall (o : Oracle) (h : list Entry),
  exists t, snd (m o h) = h ++ t /\ Forall P t /\ Q (fst (m o h)).

(** The general form: [Phi] relates the result of [m] to the calls
    [m] added to the history. *)
Definition spec {A : Type} (m : M A) (Phi : A -> list Entry -> Prop) : Prop :=
  forall (o : Oracle) (h : list Entry),
  exists t, snd (m o h) = h ++ t /\ Phi (fst (m o h)) t.

(** *** What the audit workflow asked and was told *)

(** The answers of [Advise], oldest first. *)
Definition adviseAnswer (en : Entry)
  : option (Inspector * list AuditFields * option error) :=
  match en with
  | Call X e x =>
      match e in Ev X return X -> option _ with
      | Advise _ _ _ => fun x => Some x
      | _ => fun _ => None
      end x
  end.

Definition adviseAnswers (t : list Entry) := omap adviseAnswer t.







Definition generateAnswer (en : Entry) : option (list RollbackSQL + error) :=
  match en with
  | Call X e x =>
      match e in Ev X return X -> option _ with
      | GenerateAllRollbackSql _ _ => fun x => Some (snd x)
      | _ => fun _ => None
      end x
  end.

Definition generateAnswers (t : list Entry) := omap generateAnswer t.



(** The pass rates the store was asked to write, with the task they
    were written for. *)
Definition updateTaskArg (en : Entry) : option (Task * float * option error) :=
  match en with
  | Call X e x =>
      match e in Ev X return X -> option _ with
      | UpdateTask task _ pass_rate _ => fun x => Some (task, pass_rate, x)
      | _ => fun _ => None
      end x
  end.

Definition updateTaskArgs (t : list Entry) := omap updateTaskArg t.

(** *** Frames *)

Definition isNormal (sql : ExecuteSQL) : bool :=
  String.eqb (AuditLevel sql) RULE_LEVEL_NORMAL.

(** Two statements that differ at most in their execution fields. *)
Definition sameStatement (a b : BaseSQL) : Prop :=
  Number a = Number b /\ Content a = Content b /\ Stmts a = Stmts b.

(** [task'] is [task] but for the execution fields of its rollback
    statements. *)
Definition rollbackFrame (task task' : Task) : Prop :=
  ID task' = ID task /\ InstanceId task' = InstanceId task
  /\ Schema task' = Schema task /\ SQLType task' = SQLType task
  /\ SQLSource task' = SQLSource task /\ PassRate task' = PassRate task
  /\ Status task' = Status task /\ ExecuteSQLs task' = ExecuteSQLs task
  /\ Forall2 (fun r' r => sameStatement (R_BaseSQL r') (R_BaseSQL r))
             (RollbackSQLs task') (RollbackSQLs task).

(** [task'] has the fields of [task] that are not statements. *)
Definition scalarsKept (task task' : Task) : Prop :=
  ID task' = ID task /\ InstanceId task' = InstanceId task
  /\ Schema task' = Schema task /\ SQLType task' = SQLType task
  /\ SQLSource task' = SQLSource task /\ PassRate task' = PassRate task
  /\ Status task' = Status task.

(** *** What the commit workflow asked and was told *)

(** The status the store accepted for the task [id], if [en] is such a
    write; [lastStatusSet] is the last one in a history. *)
Definition statusSet (id : N) (en : Entry) : option TaskStatus :=
  match en with
  | Call _ (UpdateTaskStatusById id' status) None =>
      if bool_decide (id' = id) then Some status else None
  | _ => None
  end.

Definition lastStatusSet (id : N) (t : list Entry) : option TaskStatus :=
  last (omap (statusSet id) t).

(** The status writes asked for by id, with the store's answers. *)
Definition statusWrite (en : Entry) : option (N * TaskStatus * option error) :=
  match en with
  | Call X e x =>
      match e in Ev X return X -> option _ with
      | UpdateTaskStatusById id status => fun x => Some (id, status, x)
      | _ => fun _ => None
      end x
  end.

Definition statusWrites (t : list Entry) := omap statusWrite t.

(** The store refused to write the statements back. *)
Definition isPersistFailure (en : Entry) : bool :=
  match en with
  | Call _ (UpdateExecuteSQLs _ _) (Some _) => true
  | _ => false
  end.

(** The inspector could not produce the backup statements. *)
Definition isBackupFetchFailure (en : Entry) : bool :=
  match en with
  | Call X e x =>
      match e in Ev X return X -> bool with
      | GetProcedureFunctionBackupSql _ _ =>
          fun x => match snd x with inr _ => true | inl _ => false end
      | _ => fun _ => false
      end x
  end.

(** The error of a [CommitDDL] call, if [en] is one. *)
Definition commitDDLResult (en : Entry) : option (BaseSQL * option error) :=
  match en with
  | Call X e x =>
      match e in Ev X return X -> option _ with
      | CommitDDL _ sql => fun x => Some (sql, snd x)
      | _ => fun _ => None
      end x
  end.

Definition isBackupFailedLog (backupSql : string) (err : error) (en : Entry)
  : Prop :=
  match en with
  | Call _ (Log level format args) _ =>
      level = LError
      /\ format = "create procedure function backup failed, sql: %v, error: %v"
      /\ args = [ArgStr backupSql; ArgErr err]
  | _ => False
  end.

(** [t] is the history of running the backup statements [backupSqls]:
    one [CommitDDL] per statement, in order, each failure followed by
    its log line, and nothing else. *)
Fixpoint backupShape (backupSqls : list string) (t : list Entry) : Prop :=
  match backupSqls, t with
  | [], [] => True
  | backupSql :: rest, en :: t' =>
      match commitDDLResult en with
      | Some (sql, None) => sql = backupSqlModel backupSql /\ backupShape rest t'
      | Some (sql, Some err) =>
          sql = backupSqlModel backupSql
          /\ match t' with
             | en' :: t'' =>
                 isBackupFailedLog backupSql err en' /\ backupShape rest t''
             | [] => False
             end
      | None => False
      end
  | _, _ => False
  end.

(** A call of [commitDML] that neither writes a status, nor runs a
    statement, nor is a refused write of the statements. *)
Definition quietDML (en : Entry) : Prop :=
  isStatusUpdate en = false /\ isExec en = false /\ isPersistFailure en = false.

(** In [t], every call that satisfies [p] comes after one that
    satisfies [g]. *)
Definition precededBy (g p : Entry -> bool) (t : list Entry) : Prop :=
  forall t1 en t2, t = t1 ++ en :: t2 -> p en = true -> existsb g t1 = true.

End Observers.

(** ** Reading a history of calls: statements handed over *)

Section StatementObservers.

Context `{Collaborators}.

(** The batches run by [CommitDMLs], oldest first. *)
Definition commitDMLsArg (en : Entry) : option (list BaseSQL) :=
  match en with
  | Call _ (CommitDMLs _ sqls) _ => Some sqls
  | _ => None
  end.

Definition commitDMLsArgs (t : list Entry) : list (list BaseSQL) :=
  omap commitDMLsArg t.

(** The texts handed to [ParseSql], oldest first. *)
Definition parseSqlArg (en : Entry) : option string :=
  match en with
  | Call _ (ParseSql _ content) _ => Some content
  | _ => None
  end.

Definition parseSqlArgs (t : list Entry) : list string := omap parseSqlArg t.

(** The inspector could not parse a statement. *)
Definition isParseFailure (en : Entry) : bool :=
  match en with
  | Call X e x =>
      match e in Ev X return X -> bool with
      | ParseSql _ _ =>
          fun x => match snd x with inr _ => true | inl _ => false end
      | _ => fun _ => false
      end x
  end.

(** The statements a call is handed: to register, to mark, to run or to
    save. *)
Definition touchedSqls (en : Entry) : list BaseSQL :=
  match en with
  | Call _ e _ =>
      match e with
      | Add _ sql | UpdateExecuteSqlStatus sql _ _
      | UpdateRollbackSqlStatus sql _ _ | CommitDDL _ sql => [sql]
      | CommitDMLs _ sqls => sqls
      | SaveExecuteSQL sql => [E_BaseSQL sql]
      | SaveRollbackSQL sql => [R_BaseSQL sql]
      | _ => []
      end
  end.

(** The inspector is asked to classify the statements. *)
Definition isClassify : Entry -> bool :=
  onEvent (fun _ e => match e with
                      | ParseSqlType _ _ => true
                      | _ => false
                      end).

(** The error with which the store refused to write the statements
    back, if [en] is such a refusal. *)
Definition persistError (en : Entry) : option error :=
  match en with
  | Call _ (UpdateExecuteSQLs _ _) (Some e) => Some e
  | _ => None
  end.

Definition persistErrors (t : list Entry) : list error := omap persistError t.

(** The statements handed to [Add], oldest first. *)
Definition addArg (en : Entry) : option BaseSQL :=
  match en with
  | Call _ (Add _ sql) _ => Some sql
  | _ => None
  end.

Definition addArgs (t : list Entry) : list BaseSQL := omap addArg t.

(** The inspector refused to register a statement. *)
Definition isAddFailure (en : Entry) : bool :=
  match en with
  | Call X e x =>
      match e in Ev X return X -> bool with
      | Add _ _ =>
          fun x => match snd x with Some _ => true | None => false end
      | _ => fun _ => false
      end x
  end.

(** Two statements that differ at most in their parsed nodes. *)
Definition sameButStmts (a b : BaseSQL) : Prop :=
  Number a = Number b /\ Content a = Content b
  /\ ExecStatus a = ExecStatus b /\ ExecResult a = ExecResult b.

End StatementObservers.

(** ** AddTaskWaitResult: waiting on the channel [Done]

    [Done] is an unbuffered channel made by [addTask].  The caller of
    [AddTaskWaitResult] receives from it once [addTask] has returned the
    queued action; [do] ends with a [select] that sends on it when a
    receiver is waiting at that moment and falls to [default] otherwise.
    Nothing else sends on the channel. *)
Inductive Caller : Type :=
(* [addTask] has returned; [<-action.Done] is not reached yet *)
| CallerBeforeReceive
(* blocked in [<-action.Done] *)
| CallerReceiving
(* [AddTaskWaitResult] has returned [action.Task, action.Error] *)
| CallerReturned (task : option Task) (err : option error).

Inductive Worker : Type :=
(* [do] has not reached its [select] *)
| WorkerRunning
(* [do] is past its [select] *)
| WorkerPastSelect.

Record Wait : Type := {
  caller : Caller;
  worker : Worker
}.

Definition initWait : Wait :=
  {| caller := CallerBeforeReceive; worker := WorkerRunning |}.

Inductive WaitLabel : Type :=
(* the caller reaches [<-action.Done] *)
| LReceive
(* [do] reaches its [select], the action being as the workflow left it *)
| LSelect (action : Action).

Definition wait_step (w : Wait) (l : WaitLabel) : option Wait :=
  match l with
  | LReceive =>
      match caller w with
      | CallerBeforeReceive =>
          Some {| caller := CallerReceiving; worker := worker w |}
      | _ => None
      end
  | LSelect action =>
      match worker w with
      | WorkerRunning =>
          Some {| caller :=
                    match caller w with
                    | CallerReceiving =>
                        (* case action.Done <- struct{}{} *)
                        CallerReturned (A_Task action) (Error action)
                    | c =>
                        (* default *)
                        c
                    end;
                  worker := WorkerPastSelect |}
      | WorkerPastSelect => None
      end
  end.

Fixpoint wait_steps (w : Wait) (ls : list WaitLabel) : option Wait :=
  match ls with
  | [] => Some w
  | l :: ls' =>
      match wait_step w l with
      | None => None
      | Some w' => wait_steps w' ls'
      end
  end.

End Sqle.

(* ===================================================================== *)
(** * The task API (package v1) *)
(* ===================================================================== *)

Module V1.

Import Sqle.

(** ** createTaskByRequestParam: the statements of a new task *)

(** The [ExecuteSQL] the loop appends for the node at index [n]: only
    [Number] and [Content] are set. *)
Definition newExecuteSQL (n : nat) (node : Node) : ExecuteSQL :=
  {| E_BaseSQL := {| Number := N.of_nat (n + 1); Content := Text node;
                     Stmts := []; ExecStatus := SQLExecuteStatusUnset;
                     ExecResult := "" |};
     AuditStatus := ""; AuditResult := ""; AuditLevel := "" |}.

(** [for n, node := range nodes { task.ExecuteSQLs = append(...) }], from
    the index [n] on. *)
Fixpoint appendExecuteSQLs (executeSQLs : list ExecuteSQL) (n : nat)
    (nodes : list Node) : list ExecuteSQL :=
  match nodes with
  | [] => executeSQLs
  | node :: rest =>
      appendExecuteSQLs (executeSQLs ++ [newExecuteSQL n node]) (S n) rest
  end.

(** The statements of the task [createTaskByRequestParam] saves: the loop
    run on the empty list the task literal starts with. *)
Definition createTask_ExecuteSQLs (nodes : list Node) : list ExecuteSQL :=
  appendExecuteSQLs [] 0 nodes.

(** ** GetTaskSQLs: the page the store is asked for *)

(** A [uint32] is an integer in [0, 2^32); its arithmetic wraps around. *)
Definition uint32 (z : Z) : Z := z mod 2 ^ 32.

Record GetTaskSQLsReqV1 : Type := {
  FilterExecStatus : string;
  FilterAuditStatus : string;
  NoDuplicate : bool;
  PageIndex : Z;
  PageSize : Z
}.

(** [var offset uint32; if req.PageIndex >= 1 { offset = req.PageSize *
    (req.PageIndex - 1) }]. *)
Definition offset (req : GetTaskSQLsReqV1) : Z :=
  if (1 <=? PageIndex req)%Z
  then uint32 (PageSize req * uint32 (PageIndex req - 1))
  else 0%Z.

(** The entries "limit" and "offset" of the query handed to the store. *)
Definition limit (req : GetTaskSQLsReqV1) : Z := PageSize req.

(** ** DownloadTaskSQLFile: the body of the file *)

(** [strings.TrimRight(s, cutset)] for a cutset of ASCII characters: the
    longest suffix of [s] made of characters of [cutset] is dropped. *)
Fixpoint TrimRight (s cutset : string) : string :=
  match s with
  | EmptyString => EmptyString
  | String c s' =>
      match TrimRight s' cutset with
      | EmptyString =>
          if existsb (Ascii.eqb c) (list_ascii_of_string cutset)
          then EmptyString else String c EmptyString
      | t => String c t
      end
  end.

(** The line feed. *)
Definition LF : string := String (ascii_of_nat 10) EmptyString.

(** The loop that fills the buffer: every statement without its trailing
    semicolons, then a semicolon and a line feed. *)
Definition DownloadTaskSQLFile_body (sqls : list string) : string :=
  fold_left (fun buff sql => buff ++ TrimRight sql ";" ++ ";" ++ LF)%string
            sqls EmptyString.

End V1.

(* ===================================================================== *)
(** * A small world to run the scheduler in *)
(* ===================================================================== *)

Module Demo.

Import Sqle.

(** A toy classifier: statements that start with CREATE, ALTER or DROP are
    DDL, the others DML; a batch with both kinds is mixed. *)
Definition classify (content : string) : SQLType_t :=
  if String.prefix "CREATE" content || String.prefix "ALTER" content
     || String.prefix "DROP" content
  then SQL_TYPE_DDL else SQL_TYPE_DML.

Fixpoint classifyAll (contents : list string) : SQLType_t :=
  match contents with
  | [] => SQL_TYPE_UNSET
  | [content] => classify content
  | content :: rest =>
      if bool_decide (classify content = classifyAll rest)
      then classify content else SQL_TYPE_MULTI
  end.

(** The inspector's state: the type of the batch and whether it was
    judged invalid. *)
Definition notAllowed : error := CodeError (OTHER_CODE 0) "action not allowed".

Definition demo : Collaborators :=
  {| Inspector := SQLType_t * bool;
     Context := unit;
     Rule := string;
     RuleMap := list string;
     NewContext := tt;
     NewInspector := fun _ task _ _ => (SQLType task, false);
     Ctx := fun _ => tt;
     SqlInvalid := snd;
     SqlType := fst;
     GetRuleMapFromAllArray := fun rules => rules;
     ValidAction := fun task typ =>
       match typ, Status task with
       | TASK_ACTION_ROLLBACK, TaskStatusInit => Some notAllowed
       | TASK_ACTION_EXECUTE, TaskStatusInit => Some notAllowed
       | _, _ => None
       end;
     TaskSQLSourceFromMyBatisXMLFile := "mybatis_xml_file" |}.

(** What can go wrong in the world. *)
Record Faults : Type := {
  persistFails : bool;      (* the store refuses UpdateExecuteSQLs *)
  backupFetchFails : bool;  (* the inspector cannot produce the backup *)
  backupExecFails : bool    (* running a backup statement fails *)
}.

Definition noFaults : Faults :=
  {| persistFails := false; backupFetchFails := false; backupExecFails := false |}.

Definition persistFault : Faults :=
  {| persistFails := true; backupFetchFails := false; backupExecFails := false |}.

Definition backupFetchFault : Faults :=
  {| persistFails := false; backupFetchFails := true; backupExecFails := false |}.

Definition backupExecFault : Faults :=
  {| persistFails := false; backupFetchFails := false; backupExecFails := true |}.

Definition storeError : error := Errorf "storage unreachable".
Definition backupError : error := Errorf "backup failed".

Definition normalAudit : AuditFields :=
  {| af_status := "finished"; af_result := ""; af_level := RULE_LEVEL_NORMAL |}.

Definition errorAudit : AuditFields :=
  {| af_status := "finished"; af_result := "[error]table is dropped";
     af_level := "error" |}.

(** A toy rule: dropping a table is an error, everything else passes. *)
Definition advise (content : string) : AuditFields :=
  if String.prefix "DROP" content then errorAudit else normalAudit.

(** The tasks the store knows. *)
Definition statement (n : N) (content : string) : ExecuteSQL :=
  {| E_BaseSQL := {| Number := n; Content := content; Stmts := [];
                     ExecStatus := SQLExecuteStatusInit; ExecResult := "" |};
     AuditStatus := "initialized"; AuditResult := ""; AuditLevel := "" |}.

Definition task (id : N) (sqlType : SQLType_t) (status : TaskStatus)
    (contents : list string) : Task :=
  {| ID := id; InstanceId := 1; Schema := "db1"; SQLType := sqlType;
     SQLSource := "form_data"; PassRate := 0%float; Status := status;
     ExecuteSQLs := imap (fun n content => statement (N.of_nat (S n)) content) contents;
     RollbackSQLs := [] |}.

Definition mixedTask : Task :=
  task 1 SQL_TYPE_UNSET TaskStatusInit
       ["CREATE TABLE t(id int)"; "INSERT INTO t VALUES(1)"].

Definition dmlTask : Task :=
  task 2 SQL_TYPE_DML TaskStatusAudited ["DELETE FROM t WHERE id=1"].

Definition procedureTask : Task :=
  task 3 SQL_TYPE_PROCEDURE_FUNCTION TaskStatusAudited
       ["CREATE PROCEDURE p() BEGIN SELECT 1; END"].

(** A procedure task after its commit, with one rollback statement. *)
Definition executedProcedureTask : Task :=
  setRollbackSQLs
    [ {| R_BaseSQL := {| Number := 1; Content := "DROP PROCEDURE p";
                         Stmts := []; ExecStatus := SQLExecuteStatusInit;
                         ExecResult := "" |} |} ]
    (task 4 SQL_TYPE_PROCEDURE_FUNCTION TaskStatusExecuteSucceeded
          ["CREATE PROCEDURE p() BEGIN SELECT 1; END"]).

(** 800 statements of which the first 57 pass the audit. *)
Definition tieTask : Task :=
  task 5 SQL_TYPE_UNSET TaskStatusInit
       (repeat "INSERT INTO t VALUES(1)" 57 ++ repeat "DROP TABLE t" 743).

Definition lookup (taskId : string) : option Task :=
  if String.eqb taskId "1" then Some mixedTask
  else if String.eqb taskId "2" then Some dmlTask
  else if String.eqb taskId "3" then Some procedureTask
  else None.

(** The world: every call succeeds, but for the faults asked for. *)
Definition world (w : Faults) : Oracle (H := demo) :=
  fun X h e =>
    match e in Ev X return X with
    | GetTaskDetailById taskId => inl (lookup taskId)
    | GetRulesByInstanceId _ => inl []
    | GetRelatedDDLTask _ => inl []
    | UpdateExecuteSQLs _ _ =>
        if persistFails w then Some storeError else None
    | UpdateTask _ _ _ _ => None
    | UpdateRollbackSQLs _ _ => None
    | UpdateTaskStatusById _ _ => None
    | UpdateExecuteSQLStatusByTaskId _ _ => None
    | UpdateExecuteSqlStatus sql status _ => ((status, ExecResult sql), None)
    | UpdateRollbackSqlStatus sql status _ => ((status, ExecResult sql), None)
    | SaveExecuteSQL _ => None
    | SaveRollbackSQL _ => None
    | Advise i sqls _ =>
        ((classifyAll (map (fun sql => Content (E_BaseSQL sql)) sqls), false),
         map (fun sql => advise (Content (E_BaseSQL sql))) sqls, None)
    | GenerateAllRollbackSql i sqls => (i, inl [])
    | ParseSqlType i sqls =>
        ((classifyAll (map (fun sql => Content (E_BaseSQL sql)) sqls), snd i), None)
    | ParseSql i content => (i, inl [ {| Text := content |} ])
    | Add i _ => (i, None)
    | GetProcedureFunctionBackupSql i content =>
        (i, if backupFetchFails w then inr backupError
            else inl ["CREATE PROCEDURE p() BEGIN SELECT 0; END"])
    | CommitDDL i sql =>
        if backupExecFails w && bool_decide (Number sql = 0%N)
        then (i, (SQLExecuteStatusFailed, "failed"), Some backupError)
        else (i, (SQLExecuteStatusSucceeded, "ok"), None)
    | CommitDMLs i sqls =>
        (i, map (fun _ => (SQLExecuteStatusSucceeded, "ok")) sqls)
    | Log _ _ _ => tt
    end.

(** A world in which the inspector cannot parse any statement. *)
Definition parseError : error := Errorf "syntax error".

Definition unparsableWorld : Oracle (H := demo) :=
  fun X h e =>
    match e in Ev X return X with
    | ParseSql i _ => (i, inr parseError)
    | e' => world noFaults _ h e'
    end.

(** A world in which the inspector refuses to register statements. *)
Definition addError : error := Errorf "cannot register".

Definition refusingWorld : Oracle (H := demo) :=
  fun X h e =>
    match e in Ev X return X with
    | Add i _ => (i, Some addError)
    | e' => world noFaults _ h e'
    end.

End Demo.

Import Sqle.

(* ===================================================================== *)
(** * Properties of the object-name keyword rule *)
(* ===================================================================== *)

Section KeywordRuleFacts.

Import SqlserverProtoServer.









End KeywordRuleFacts.


(* ===================================================================== *)
(** * Reasoning about computations that make calls *)
(* ===================================================================== *)

Section SatRules.

Context `{Collaborators}.

Lemma sat_ret {A} (a : A) (P : Entry -> Prop) (Q : A -> Prop) :
  Q a -> sat (mret a) P Q.
Proof.
  intros Ha o h. exists []. simpl. rewrite app_nil_r. auto.
Qed.

Lemma sat_call {X} (e : Ev X) (P : Entry -> Prop) (Q : X -> Prop) :
  (forall x, P (Call X e x)) -> (forall x, Q x) -> sat (call e) P Q.
Proof.
  intros HP HQ o h. exists [Call X e (o X h e)]. simpl. auto.
Qed.

Lemma sat_bind {A B} (m : M A) (f : A -> M B) (P : Entry -> Prop)
    (Q : A -> Prop) (R : B -> Prop) :
  sat m P Q -> (forall a, Q a -> sat (f a) P R) -> sat (m ≫= f) P R.
Proof.
  intros Hm Hf o h. unfold mbind, M_bind, mbind_M.
  destruct (Hm o h) as (t1 & Ht1 & HP1 & HQ).
  destruct (m o h) as [a h1]. simpl in *. subst h1.
  destruct (Hf a HQ o (h ++ t1)) as (t2 & Ht2 & HP2 & HR).
  exists (t1 ++ t2). rewrite Ht2, app_assoc. split; [reflexivity|].
  split; [apply Forall_app; auto|assumption].
Qed.

Lemma sat_weaken {A} (m : M A) (P P' : Entry -> Prop) (Q Q' : A -> Prop) :
  sat m P Q -> (forall en, P en -> P' en) -> (forall a, Q a -> Q' a) ->
  sat m P' Q'.
Proof.
  intros Hm HP HQ o h. destruct (Hm o h) as (t & Ht & HPt & HQa).
  exists t. split; [assumption|]. split; [|auto].
  eapply Forall_impl; eauto.
Qed.

Lemma sat_run {A} (m : M A) (P : Entry -> Prop) (Q : A -> Prop) (o : Oracle) :
  sat m P Q -> Forall P (snd (run o m)) /\ Q (fst (run o m)).
Proof.
  intros Hm. destruct (Hm o []) as (t & Ht & HP & HQ).
  unfold run. rewrite Ht. auto.
Qed.

End SatRules.

(** Walk through a computation: one rule per construct.  A call or a
    block in front of a bind is passed with no claim about its result. *)
Ltac sat_step :=
  lazymatch goal with
  | |- sat (mret _) _ _ => apply sat_ret; try exact I
  | |- sat (call _) _ _ =>
      apply sat_call; [intros ?; first [reflexivity | exact I] | intros ?; try exact I]
  | |- sat (mbind _ _) _ _ =>
      apply sat_bind with (Q := fun _ => True); [|intros ? _]
  | |- sat (match ?x with _ => _ end) _ _ => destruct x
  | |- sat (let _ := _ in _) _ _ => cbv zeta
  | |- sat (logSaveFailed _) _ _ => unfold logSaveFailed
  end.

Section Frames.

Context `{Collaborators}.

Lemma AddAll_sat {A} (registered : A -> bool) (base : A -> BaseSQL)
    (P : Entry -> Prop) (sqls : list A) :
  (forall i sql x, P (Call _ (Add i sql) x)) ->
  forall i, sat (AddAll registered base i sqls) P (fun _ => True).
Proof.
  intros HP. induction sqls as [|sql sqls IH]; intros i; simpl.
  - now apply sat_ret.
  - destruct (registered sql); [|apply IH].
    eapply sat_bind.
    + apply sat_call with (Q := fun _ => True); auto.
    + intros [i' [err|]] _; [now apply sat_ret|apply IH].
Qed.

Lemma Do_sat {A} (registered : A -> bool)
    (action : Inspector -> A -> M (Inspector * A * option error))
    (P : Entry -> Prop) (R : A -> A -> Prop) :
  (forall a, R a a) ->
  (forall i a, sat (action i a) P (fun r => R (snd (fst r)) a)) ->
  forall sqls i,
    sat (Do registered action i sqls) P
        (fun r => Forall2 R (snd (fst r)) sqls).
Proof.
  intros HR Hact. induction sqls as [|sql sqls IH]; intros i; simpl.
  - apply sat_ret. constructor.
  - destruct (registered sql).
    + eapply sat_bind; [apply Hact|].
      intros [[i' sql'] [err|]] Hsql; simpl in Hsql.
      * apply sat_ret. simpl. constructor; [assumption|].
        apply Forall2_same_length_lookup_2; [reflexivity|].
        intros k x y Hx Hy. rewrite Hx in Hy. injection Hy as ->. apply HR.
      * eapply sat_bind; [apply IH|].
        intros [[i'' rest'] err] Hrest; simpl in Hrest.
        apply sat_ret. simpl. now constructor.
    + eapply sat_bind; [apply IH|].
      intros [[i'' rest'] err] Hrest; simpl in Hrest.
      apply sat_ret. simpl. constructor; [apply HR|assumption].
Qed.

Lemma rollback_action_sat (i : Inspector) (currentSql : RollbackSQL) :
  sat (rollback_action i currentSql)
      (fun en => isStatusUpdate en = false)
      (fun r => sameStatement (R_BaseSQL (snd (fst r))) (R_BaseSQL currentSql)).
Proof.
  unfold rollback_action.
  repeat sat_step; simpl; try (repeat split; reflexivity).
  (* the DML case: one statement written back *)
  match goal with
  | |- context [match ?fs with [] => _ | _ :: _ => _ end] =>
      destruct fs; repeat split; reflexivity
  end.
Qed.

Lemma rollback_sat (task : Task) :
  sat (rollback task) (fun en => isStatusUpdate en = false)
      (fun r => rollbackFrame task (fst r)).
Proof.
  assert (Hrefl : rollbackFrame task task).
  { unfold rollbackFrame. repeat split; try reflexivity.
    apply Forall2_same_length_lookup_2; [reflexivity|].
    intros k x y Hx Hy. rewrite Hx in Hy. now injection Hy as ->. }
  unfold rollback. sat_step; [sat_step|].
  cbv zeta. eapply sat_bind.
  { apply AddAll_sat with (P := fun en => isStatusUpdate en = false).
    reflexivity. }
  intros [i [err|]] _.
  - repeat sat_step. exact Hrefl.
  - eapply sat_bind.
    { apply Do_sat with (R := fun r' r => sameStatement (R_BaseSQL r') (R_BaseSQL r)).
      - intros r0. repeat split; reflexivity.
      - intros i' r0. apply rollback_action_sat. }
    intros [[i' sqls] err] Hsqls; simpl in Hsqls.
    sat_step.
    + repeat sat_step.
    + sat_step. simpl. unfold rollbackFrame. simpl. repeat split; try reflexivity.
      exact Hsqls.
Qed.

End Frames.

Section RoundFacts.

Lemma normalCount_acc (sqls : list ExecuteSQL) (acc : float) :
  fold_left (fun normalCount sql =>
               if String.eqb (AuditLevel sql) RULE_LEVEL_NORMAL
               then PrimFloat.add normalCount 1%float else normalCount)
            sqls acc
  = Nat.iter (length (List.filter isNormal sqls))
             (fun normalCount => PrimFloat.add normalCount 1%float) acc.
Proof.
  revert acc. induction sqls as [|sql sqls IH]; intros acc; simpl.
  - reflexivity.
  - unfold isNormal at 1.
    destruct (String.eqb (AuditLevel sql) RULE_LEVEL_NORMAL).
    + rewrite IH. simpl length. now rewrite Nat.iter_succ_r.
    + apply IH.
Qed.

(** The counter counts: it is [0 + 1 + ... + 1], one for every
    statement of level normal. *)
Lemma normalCount_count `{Collaborators} (sqls : list ExecuteSQL) :
  normalCount sqls = addOnes (length (List.filter isNormal sqls)).
Proof. unfold normalCount, addOnes. apply normalCount_acc. Qed.

Lemma filter_isNormal_length (sqls : list ExecuteSQL) :
  (length (List.filter isNormal sqls) <= length sqls)%nat.
Proof.
  induction sqls as [|sql sqls IH]; simpl; [lia|].
  destruct (isNormal sql); simpl; lia.
Qed.

Lemma agreesFrom_spec (total : Z) (fuel : nat) :
  forall (count : Z) (acc : float),
    agreesFrom total fuel count acc = true ->
    forall j : nat,
      (j < fuel)%nat ->
      PrimFloat.eqb
        (round (PrimFloat.div
                  (Nat.iter j (fun c => PrimFloat.add c 1%float) acc)
                  (float64_of_Z total)) 4)
        (roundHalfUp (count + Z.of_nat j) total 4) = true.
Proof.
  induction fuel as [|fuel IH]; intros count acc Hall j Hj; [lia|].
  simpl in Hall. apply andb_prop in Hall as [Hhere Hrest].
  destruct j as [|j].
  - simpl. now rewrite Z.add_0_r.
  - rewrite Nat.iter_succ_r.
    replace (count + Z.of_nat (S j))%Z with (count + 1 + Z.of_nat j)%Z by lia.
    apply IH; [assumption|lia].
Qed.

Lemma agreesFor_spec (total j : nat) :
  agreesFor total = true ->
  (j <= total)%nat ->
  PrimFloat.eqb
    (round (PrimFloat.div (addOnes j) (float64_of_Z (Z.of_nat total))) 4)
    (roundHalfUp (Z.of_nat j) (Z.of_nat total) 4) = true.
Proof.
  intros Hall Hj. unfold agreesFor in Hall.
  apply (agreesFrom_spec _ _ 0%Z 0%float Hall j). lia.
Qed.

Lemma agreesBelow_spec (bound total : nat) :
  agreesBelow bound = true ->
  (1 <= total < bound)%nat ->
  agreesFor total = true.
Proof.
  unfold agreesBelow. rewrite forallb_forall. intros Hall Htotal.
  apply Hall, in_seq. lia.
Qed.

Lemma agreesBelow_800 : agreesBelow 800 = true.
Proof. vm_compute. reflexivity. Qed.

(** Below 800 statements [round] is rounding half up. *)
Lemma round_agrees_below `{Collaborators} (sqls : list ExecuteSQL) :
  sqls <> [] ->
  (length sqls < 800)%nat ->
  PrimFloat.eqb
    (round (PrimFloat.div (normalCount sqls)
                          (float64_of_Z (Z.of_nat (length sqls)))) 4)
    (roundHalfUp (Z.of_nat (length (List.filter isNormal sqls)))
                 (Z.of_nat (length sqls)) 4) = true.
Proof.
  intros Hne Hlen.
  assert (Hpos : (1 <= length sqls)%nat).
  { destruct sqls; [congruence|simpl; lia]. }
  rewrite normalCount_count.
  apply agreesFor_spec; [|apply filter_isNormal_length].
  apply (agreesBelow_spec 800); [exact agreesBelow_800|].
  split; assumption.
Qed.

(** [halfUpUnits count total n] is the integer [z] with
    [z <= 10^n * count / total + 1/2 < z + 1]. *)
Lemma halfUpUnits_spec (count total : Z) (n : nat) :
  (0 < total)%Z ->
  let z := halfUpUnits count total n in
  (2 * total * z <= 2 * 10 ^ Z.of_nat n * count + total
   < 2 * total * (z + 1))%Z.
Proof.
  intros Hpos z. unfold z, halfUpUnits.
  pose proof (Z.div_mod (2 * 10 ^ Z.of_nat n * count + total) (2 * total)
                        ltac:(lia)) as Hdm.
  pose proof (Z.mod_pos_bound (2 * 10 ^ Z.of_nat n * count + total)
                              (2 * total) ltac:(lia)) as Hb.
  lia.
Qed.

End RoundFacts.

Example round_one :
  round (PrimFloat.div (addOnes 1) (float64_of_Z 1)) 4 = 1%float.
Proof. vm_compute. reflexivity. Qed.

Example round_third :
  round (PrimFloat.div (addOnes 1) (float64_of_Z 3)) 4 = roundHalfUp 3333 10000 4.
Proof. vm_compute. reflexivity. Qed.

Example round_two_thirds :
  round (PrimFloat.div (addOnes 2) (float64_of_Z 3)) 4 = roundHalfUp 6667 10000 4.
Proof. vm_compute. reflexivity. Qed.

(** 57 of 800 is 712.5 units of 1/10000: half up is 713 units, [round]
    gives 712. *)
Example round_tie_down :
  round (PrimFloat.div (addOnes 57) (float64_of_Z 800)) 4 = roundHalfUp 712 10000 4
  /\ halfUpUnits 57 800 4 = 713%Z
  /\ PrimFloat.eqb (roundHalfUp 712 10000 4) (roundHalfUp 57 800 4) = false.
Proof. vm_compute. repeat split. Qed.

Section SpecRules.

Context `{Collaborators}.

Lemma spec_ret {A} (a : A) (Phi : A -> list Entry -> Prop) :
  Phi a [] -> spec (mret a) Phi.
Proof. intros Ha o h. exists []. simpl. now rewrite app_nil_r. Qed.

Lemma spec_call {X} (e : Ev X) (Phi : X -> list Entry -> Prop) :
  (forall x, Phi x [Call X e x]) -> spec (call e) Phi.
Proof. intros HP o h. exists [Call X e (o X h e)]. simpl. auto. Qed.

Lemma spec_bind {A B} (m : M A) (f : A -> M B)
    (Phi : A -> list Entry -> Prop) (Psi : B -> list Entry -> Prop) :
  spec m Phi ->
  (forall a t1, Phi a t1 -> spec (f a) (fun b t2 => Psi b (t1 ++ t2))) ->
  spec (m ≫= f) Psi.
Proof.
  intros Hm Hf o h. unfold mbind, M_bind, mbind_M.
  destruct (Hm o h) as (t1 & Ht1 & HPhi).
  destruct (m o h) as [a h1]. simpl in *. subst h1.
  destruct (Hf a t1 HPhi o (h ++ t1)) as (t2 & Ht2 & HPsi).
  exists (t1 ++ t2). now rewrite Ht2, app_assoc.
Qed.

Lemma spec_bind_call {X B} (e : Ev X) (f : X -> M B)
    (Psi : B -> list Entry -> Prop) :
  (forall x, spec (f x) (fun b t2 => Psi b (Call X e x :: t2))) ->
  spec (call e ≫= f) Psi.
Proof.
  intros Hf. eapply spec_bind.
  - apply spec_call with (Phi := fun x t => t = [Call X e x]). reflexivity.
  - intros x t1 ->. apply Hf.
Qed.

Lemma spec_bind_ret {A B} (a : A) (f : A -> M B)
    (Psi : B -> list Entry -> Prop) :
  spec (f a) Psi -> spec (mret a ≫= f) Psi.
Proof.
  intros Hf. eapply spec_bind.
  - apply spec_ret with (Phi := fun x t => x = a /\ t = []). auto.
  - intros x t1 [-> ->]. apply Hf.
Qed.

Lemma spec_weaken {A} (m : M A) (Phi Psi : A -> list Entry -> Prop) :
  spec m Phi -> (forall a t, Phi a t -> Psi a t) -> spec m Psi.
Proof.
  intros Hm Himp o h. destruct (Hm o h) as (t & Ht & HPhi). eauto.
Qed.

Lemma spec_run {A} (m : M A) (Phi : A -> list Entry -> Prop) (o : Oracle) :
  spec m Phi -> Phi (fst (run o m)) (snd (run o m)).
Proof.
  intros Hm. destruct (Hm o []) as (t & Ht & HPhi). unfold run.
  now rewrite Ht.
Qed.

Lemma sat_spec {A} (m : M A) (P : Entry -> Prop) (Q : A -> Prop) :
  sat m P Q -> spec m (fun a t => Forall P t /\ Q a).
Proof. intros Hm o h. destruct (Hm o h) as (t & ? & ? & ?). eauto. Qed.

End SpecRules.

Ltac spec_step :=
  lazymatch goal with
  | |- spec (mret _) _ => apply spec_ret
  | |- spec (call _) _ => apply spec_call; intros ?
  | |- spec (mbind _ (call _)) _ => apply spec_bind_call; intros ?
  | |- spec (mbind _ (mret _)) _ => apply spec_bind_ret
  | |- spec (mbind _ (logSaveFailed _)) _ => unfold logSaveFailed
  | |- spec (mbind _ (match ?x with _ => _ end)) _ => destruct x eqn:?
  | |- spec (match ?x with _ => _ end) _ => destruct x eqn:?
  | |- spec (let _ := _ in _) _ => cbv zeta
  | |- spec ((fun _ => _) _) _ => cbv beta
  end.

Lemma ltb_length_true {A} (l : list A) : (0 <? length l)%nat = true -> l <> [].
Proof. destruct l; simpl; [discriminate|discriminate]. Qed.

Lemma ltb_length_false {A} (l : list A) : (0 <? length l)%nat = false -> l = [].
Proof. destruct l; simpl; [reflexivity|discriminate]. Qed.

Lemma eqb_length_true {A} (l : list A) : (length l =? 0)%nat = true -> l = [].
Proof. destruct l; simpl; [reflexivity|discriminate]. Qed.

Lemma eqb_length_false {A} (l : list A) : (length l =? 0)%nat = false -> l <> [].
Proof. destruct l; simpl; [discriminate|discriminate]. Qed.

(** Turn the tests a branch has passed into facts. *)
Ltac branch_facts :=
  repeat match goal with
    | H : (_ && _) = true |- _ => apply andb_true_iff in H; destruct H
    | H : (_ && _) = false |- _ => apply andb_false_iff in H
    | H : bool_decide _ = true |- _ => apply bool_decide_eq_true in H
    | H : bool_decide _ = false |- _ => apply bool_decide_eq_false in H
    | H : negb _ = true |- _ => apply negb_true_iff in H
    | H : negb _ = false |- _ => apply negb_false_iff in H
    | H : (0 <? length _)%nat = true |- _ => apply ltb_length_true in H
    | H : (0 <? length _)%nat = false |- _ => apply ltb_length_false in H
    | H : (length _ =? 0)%nat = true |- _ => apply eqb_length_true in H
    | H : (length _ =? 0)%nat = false |- _ => apply eqb_length_false in H
    | H : String.eqb _ _ = true |- _ => apply String.eqb_eq in H
    | H : String.eqb _ _ = false |- _ => apply String.eqb_neq in H
    end.

Section AuditFacts.

Context `{Collaborators}.



Lemma audit_pass_rate_shape (task : Task) :
  spec (audit task) (fun r t =>
    snd r = None ->
    let sqls := ExecuteSQLs (fst r) in
    (sqls <> [] ->
     PassRate (fst r)
     = round (PrimFloat.div (normalCount sqls)
                            (float64_of_Z (Z.of_nat (length sqls)))) 4)
    /\ (sqls = [] -> PassRate (fst r) = PassRate task)
    /\ updateTaskArgs t = [(fst r, PassRate (fst r), None)]).
Proof.
  unfold audit, audit_rollback, audit_persist.
  repeat spec_step.
  all: cbn -[round normalCount PrimFloat.div float64_of_Z]; intros Herr; try discriminate Herr.
  all: branch_facts; subst.
  all: repeat match goal with
              | |- context [if ?b then _ else _] => destruct b eqn:?
              end; branch_facts; cbn -[round normalCount PrimFloat.div float64_of_Z] in *.
  all: try solve [intuition congruence].
Qed.

End AuditFacts.

Section CommitFrames.

Context `{Collaborators}.

Lemma scalarsKept_refl (task : Task) : scalarsKept task task.
Proof. repeat split. Qed.

Lemma isStatusUpdate_isPassRateUpdate (en : Entry) :
  isStatusUpdate en = false -> isPassRateUpdate en = false.
Proof. destruct en as [X [] x]; simpl; congruence. Qed.

Lemma isStatusUpdate_statusWrite (en : Entry) :
  isStatusUpdate en = false -> statusWrite en = None.
Proof. destruct en as [X [] x]; simpl; congruence. Qed.

Lemma isStatusUpdate_statusSet (id : N) (en : Entry) :
  isStatusUpdate en = false -> statusSet id en = None.
Proof. destruct en as [X [] x]; simpl; congruence. Qed.

(** The actions and loops of [commit] never write a task's status or
    pass rate. *)
Lemma commitBackupSqls_sat (backupSqls : list string) :
  forall i, sat (commitBackupSqls i backupSqls)
                (fun en => isStatusUpdate en = false) (fun _ => True).
Proof.
  induction backupSqls as [|backupSql rest IH]; intros i; simpl.
  - repeat sat_step.
  - sat_step; [sat_step|]. destruct a as [[i' f] err].
    sat_step; [repeat sat_step|]. apply IH.
Qed.

Lemma commitDDL_action_sat (isProcedureFunction : bool) (i : Inspector)
    (currentSql : ExecuteSQL) :
  sat (commitDDL_action isProcedureFunction i currentSql)
      (fun en => isStatusUpdate en = false) (fun _ => True).
Proof.
  unfold commitDDL_action.
  repeat first [ apply commitBackupSqls_sat | sat_step ].
Qed.

Lemma commitDML_parse_sat (sqls : list ExecuteSQL) :
  forall i, sat (commitDML_parse i sqls)
                (fun en => isStatusUpdate en = false /\ isExec en = false)
                (fun _ => True).
Proof.
  induction sqls as [|sql rest IH]; intros i; simpl.
  - repeat sat_step.
  - sat_step; [apply sat_call; [intros; split; reflexivity|auto]|].
    destruct a as [i' [nodes|err]].
    + sat_step; [apply IH|]. repeat sat_step.
    + repeat sat_step.
Qed.

Lemma AddAll_quiet {A} (registered : A -> bool) (base : A -> BaseSQL)
    (sqls : list A) (i : Inspector) :
  sat (AddAll registered base i sqls)
      (fun en => isStatusUpdate en = false /\ isExec en = false)
      (fun _ => True).
Proof. apply AddAll_sat. intros; split; reflexivity. Qed.

Lemma Do_commitDDL_sat (isProcedureFunction : bool) (sqls : list ExecuteSQL)
    (i : Inspector) :
  sat (Do (fun _ => true) (commitDDL_action isProcedureFunction) i sqls)
      (fun en => isStatusUpdate en = false) (fun _ => True).
Proof.
  apply sat_weaken with (P := fun en => isStatusUpdate en = false)
                        (Q := fun r => Forall2 (fun _ _ => True) (snd (fst r)) sqls);
    [|auto|auto].
  apply Do_sat; [auto|].
  intros. eapply sat_weaken; [apply commitDDL_action_sat|auto|auto].
Qed.

End CommitFrames.

Section CommitShapes.

Context `{Collaborators}.

Lemma commitDDL_sat (task : Task) (isProcedureFunction : bool) :
  sat (commitDDL task isProcedureFunction)
      (fun en => isPassRateUpdate en = false)
      (fun r => scalarsKept task (fst r)).
Proof.
  unfold commitDDL.
  repeat first
    [ apply AddAll_sat; reflexivity
    | eapply sat_weaken;
      [apply Do_commitDDL_sat|apply isStatusUpdate_isPassRateUpdate|auto]
    | sat_step ].
  all: repeat split.
Qed.

Lemma commitDML_sat (task : Task) :
  sat (commitDML task) (fun en => isPassRateUpdate en = false)
      (fun r => scalarsKept task (fst r)).
Proof.
  unfold commitDML.
  repeat first
    [ eapply sat_weaken;
      [apply commitDML_parse_sat
      |intros en [? _]; now apply isStatusUpdate_isPassRateUpdate|auto]
    | sat_step ].
  all: repeat split.
Qed.

Lemma commit_sat (task : Task) :
  sat (commit task) (fun en => isPassRateUpdate en = false)
      (fun r => scalarsKept task (fst r)).
Proof.
  unfold commit.
  repeat first [ apply commitDML_sat | apply commitDDL_sat | sat_step ].
  all: repeat split.
Qed.

(** The calls of [commitDDL], in three cases: registration failed; the
    store refused the status [executing]; the statements ran. *)
Lemma commitDDL_shape (task : Task) (isProcedureFunction : bool) :
  spec (commitDDL task isProcedureFunction) (fun r t =>
    exists tA,
      Forall (fun en => isStatusUpdate en = false /\ isExec en = false) tA
      /\ ((exists e, snd r = Some e /\ t = tA)
          \/ (exists e,
                 snd r = Some e
                 /\ t = tA ++ [Call _ (UpdateTaskStatusById (ID task)
                                         TaskStatusExecuting) (Some e)])
          \/ (exists tB,
                 Forall (fun en => isStatusUpdate en = false) tB
                 /\ t = tA
                        ++ Call _ (UpdateTaskStatusById (ID task)
                                     TaskStatusExecuting) None
                        :: tB
                        ++ [Call _ (UpdateTaskStatusById (ID task)
                                      (taskStatusAfter (ExecuteSQLs (fst r))))
                                   (snd r)]))).
Proof.
  unfold commitDDL.
  apply spec_bind_call; intros [].
  eapply spec_bind; [apply sat_spec, AddAll_quiet|].
  intros [i [err|]] tA [HtA _].
  - apply spec_bind_call; intros []. apply spec_ret.
    exists (Call _ (Log LInfo "start commit" []) tt
              :: tA ++ [Call _ (Log LError "add commit sql to task failed" []) tt]).
    split.
    + constructor; [split; reflexivity|].
      apply Forall_app; split; [assumption|]. constructor; [split; reflexivity|constructor].
    + left. exists err. rewrite ?app_nil_r. split; reflexivity.
  - apply spec_bind_call; intros [e|].
    + apply spec_ret.
      exists (Call _ (Log LInfo "start commit" []) tt :: tA). split.
      * constructor; [split; reflexivity|assumption].
      * right; left. exists e. rewrite ?app_nil_r. split; reflexivity.
    + eapply spec_bind; [apply sat_spec, Do_commitDDL_sat|].
      intros [[i' sqls] err] tDo [HtDo _]. cbv beta iota zeta.
      assert (Hlog : forall (m : M unit),
                 (m = call (Log LError "commit sql failed" [])
                  \/ m = call (Log LInfo "commit sql finish" [])) ->
                 spec m (fun _ t => Forall (fun en => isStatusUpdate en = false) t)).
      { intros m [-> | ->]; apply spec_call; intros [];
          (constructor; [reflexivity|constructor]). }
      eapply spec_bind.
      { apply Hlog. destruct err; auto. }
      intros [] tL HtL.
      apply spec_bind_call; intros x. apply spec_ret.
      exists (Call _ (Log LInfo "start commit" []) tt :: tA). split.
      * constructor; [split; reflexivity|assumption].
      * right; right. exists (tDo ++ tL). split.
        -- apply Forall_app; split; assumption.
        -- simpl. rewrite ?app_nil_r, <- ?app_assoc. reflexivity.
Qed.

Lemma commitDML_parse_quiet (sqls : list ExecuteSQL) :
  forall i, sat (commitDML_parse i sqls) quietDML (fun _ => True).
Proof.
  induction sqls as [|sql rest IH]; intros i; simpl.
  - repeat sat_step.
  - sat_step; [apply sat_call; [intros; repeat split; reflexivity|auto]|].
    destruct a as [i' [nodes|err]].
    + sat_step; [apply IH|]. repeat sat_step.
    + repeat sat_step.
Qed.

(** The calls of [commitDML]: it stopped before the status [executing]
    was asked for; the store refused that status; or the statements ran,
    and then writing them back succeeded or failed. *)
Lemma commitDML_shape (task : Task) :
  spec (commitDML task) (fun r t =>
    exists tA,
      Forall quietDML tA
      /\ ((exists e, snd r = Some e /\ t = tA)
          \/ (exists e,
                 snd r = Some e
                 /\ t = tA ++ [Call _ (UpdateTaskStatusById (ID task)
                                         TaskStatusExecuting) (Some e)])
          \/ (exists i sqls a ans tail,
                 t = tA
                     ++ [Call _ (UpdateTaskStatusById (ID task)
                                   TaskStatusExecuting) None;
                         Call _ (CommitDMLs i sqls) a;
                         Call _ (UpdateExecuteSQLs (fst r) (ExecuteSQLs (fst r))) ans]
                     ++ tail
                 /\ match ans with
                    | None =>
                        tail = [Call _ (UpdateTaskStatusById (ID task)
                                          (taskStatusAfter (ExecuteSQLs (fst r))))
                                       (snd r)]
                    | Some e =>
                        snd r = Some e
                        /\ exists en x tL,
                            tail = en
                                   :: Call _ (UpdateTaskStatusById (ID task)
                                                TaskStatusExecuteFailed) x
                                   :: tL
                            /\ Forall quietDML (en :: tL)
                    end))).
Proof.
  unfold commitDML.
  apply spec_bind_call; intros [].
  apply spec_bind_call; intros [e|].
  { apply spec_bind_call; intros []. apply spec_ret. eexists. split.
    2: { left. exists e. split; reflexivity. }
    repeat constructor. }
  eapply spec_bind; [apply sat_spec, commitDML_parse_quiet|].
  intros [[i sqls] [err|]] tP [HtP _]; cbv beta iota zeta.
  { apply spec_ret. eexists. split.
    2: { left. exists err. split; reflexivity. }
    rewrite app_nil_r. repeat (constructor; [repeat split|]). assumption. }
  apply spec_bind_call; intros [e|].
  { apply spec_ret.
    exists (Call _ (Log LInfo "start commit" []) tt
              :: Call _ (UpdateExecuteSQLStatusByTaskId task SQLExecuteStatusDoing) None
              :: tP).
    split; [repeat (constructor; [repeat split|]); assumption|].
    right; left. exists e. split; reflexivity. }
  apply spec_bind_call; intros [i' fs].
  cbv beta iota zeta.
  apply spec_bind_call; intros [e|].
  - apply spec_bind_call; intros [].
    apply spec_bind_call; intros x.
    destruct x as [e'|];
      [apply spec_bind_call; intros []|apply spec_bind_ret];
      apply spec_ret;
      (exists (Call _ (Log LInfo "start commit" []) tt
                 :: Call _ (UpdateExecuteSQLStatusByTaskId task SQLExecuteStatusDoing) None
                 :: tP);
       split; [repeat (constructor; [repeat split|]); assumption|];
       right; right; eexists _, _, _, (Some e), _;
       split; [simpl; reflexivity|];
       split; [reflexivity|];
       eexists _, _, _; split; [reflexivity|];
       repeat (constructor; [repeat split|]); constructor).
  - apply spec_bind_call; intros x. apply spec_ret.
    exists (Call _ (Log LInfo "start commit" []) tt
              :: Call _ (UpdateExecuteSQLStatusByTaskId task SQLExecuteStatusDoing) None
              :: tP).
    split; [repeat (constructor; [repeat split|]); assumption|].
    right; right. eexists _, _, _, None, _.
    split; [simpl; reflexivity|reflexivity].
Qed.

End CommitShapes.

Section BackupFacts.

Context `{Collaborators}.

Lemma commitBackupSqls_shape (backupSqls : list string) :
  forall i, spec (commitBackupSqls i backupSqls)
                 (fun _ t => backupShape backupSqls t).
Proof.
  induction backupSqls as [|backupSql rest IH]; intros i; simpl.
  - apply spec_ret. exact I.
  - apply spec_bind_call. intros [[i' f] [err|]]; cbv beta iota.
    + apply spec_bind_call. intros [].
      eapply spec_weaken; [apply IH|].
      intros ? t Ht. simpl. repeat split; assumption.
    + apply spec_bind_ret.
      eapply spec_weaken; [apply IH|].
      intros ? t Ht. simpl. split; [reflexivity|assumption].
Qed.

Lemma run_bind {A B} (m : M A) (f : A -> M B) (o : Oracle) (h : list Entry) :
  (m ≫= f) o h = let '(a, h') := m o h in f a o h'.
Proof. reflexivity. Qed.

Lemma run_call {X} (e : Ev X) (o : Oracle) (h : list Entry) :
  call e o h = (o X h e, h ++ [Call X e (o X h e)]).
Proof. reflexivity. Qed.

Lemma run_ret {A} (a : A) (o : Oracle) (h : list Entry) :
  (mret a : M A) o h = (a, h).
Proof. reflexivity. Qed.

Lemma commitDDL_action_backup (o : Oracle) (h : list Entry) (i : Inspector)
    (currentSql : ExecuteSQL) (f : ExecFields) (i1 : Inspector)
    (ans : list string + error) :
  let sql := E_BaseSQL currentSql in
  let e1 := UpdateExecuteSqlStatus sql SQLExecuteStatusDoing "" in
  let e2 := GetProcedureFunctionBackupSql i (Content sql) in
  let h2 := h ++ [Call _ e1 (f, None); Call _ e2 (i1, ans)] in
  let r := commitDDL_action true i currentSql o h in
  o _ h e1 = (f, None) ->
  o _ (h ++ [Call _ e1 (f, None)]) e2 = (i1, ans) ->
  match ans with
  | inl backupSqls =>
      exists tb tm,
        snd r = h2 ++ tb ++ tm
        /\ backupShape backupSqls tb
        /\ commitDDLArgs tm = [setExec f sql]
  | inr err =>
      snd r = h2 ++ [Call _ (Log LError
                               "get procedure function backup sql failed, error: %v"
                               [ArgErr err]) tt]
      /\ snd (fst r) = Some err
      /\ commitDDLArgs (snd r) = commitDDLArgs h
  end.
Proof.
  intros sql e1 e2 h2 r H1 H2. subst r h2. unfold commitDDL_action.
  fold sql. rewrite run_bind, run_call. fold e1. rewrite H1.
  cbv beta iota zeta.
  rewrite run_bind, run_bind, run_call.
  change (Content (setExec f sql)) with (Content sql). fold e2. rewrite H2.
  replace (h ++ [Call _ e1 (f, None); Call _ e2 (i1, ans)])
    with ((h ++ [Call _ e1 (f, None)]) ++ [Call _ e2 (i1, ans)])
    by (now rewrite <- app_assoc).
  set (h2 := (h ++ [Call _ e1 (f, None)]) ++ [Call _ e2 (i1, ans)]).
  destruct ans as [backupSqls|err]; cbv beta iota zeta.
  - rewrite run_bind.
    destruct (commitBackupSqls_shape backupSqls i1 o h2) as (tb & Htb & Hshape).
    destruct (commitBackupSqls i1 backupSqls o h2) as [i2 h3]. simpl in Htb. subst h3.
    rewrite run_ret. cbv beta iota zeta.
    rewrite run_bind, run_call.
    destruct (o _ (h2 ++ tb) (CommitDDL i2 (setExec f sql))) as [[i3 f3] err3].
    cbv beta iota zeta.
    exists tb.
    destruct (negb _);
      rewrite run_bind, run_call;
      destruct (o _ _ (SaveExecuteSQL _)) as [e|]; unfold logSaveFailed;
      rewrite run_bind;
      [rewrite run_call|rewrite run_ret|rewrite run_call|rewrite run_ret];
      rewrite run_ret; simpl snd;
      (eexists; split;
       [rewrite <- !app_assoc; reflexivity|split; [exact Hshape|reflexivity]]).
  - rewrite run_bind, run_call, run_ret. cbv beta iota zeta. rewrite run_ret.
    simpl fst; simpl snd. destruct (o _ h2 (Log _ _ _)).
    split; [reflexivity|]. split; [reflexivity|].
    unfold h2, commitDDLArgs. rewrite !omap_app. simpl. now rewrite !app_nil_r.
Qed.

End BackupFacts.

Section HistoryFacts.

Context `{Collaborators}.

Lemma omap_quiet {B} (f : Entry -> option B) (t : list Entry) :
  Forall (fun en => f en = None) t -> omap f t = [].
Proof.
  induction 1 as [|en t Hen _ IH]; simpl; [reflexivity|].
  now rewrite Hen.
Qed.

Lemma omap_cons_None {B} (f : Entry -> option B) (en : Entry) (t : list Entry) :
  f en = None -> omap f (en :: t) = omap f t.
Proof. intros Hen. simpl. now rewrite Hen. Qed.

Lemma omap_cons_Some {B} (f : Entry -> option B) (en : Entry) (t : list Entry)
    (b : B) :
  f en = Some b -> omap f (en :: t) = b :: omap f t.
Proof. intros Hen. simpl. now rewrite Hen. Qed.

Lemma existsb_quiet (p : Entry -> bool) (t : list Entry) :
  Forall (fun en => p en = false) t -> existsb p t = false.
Proof.
  induction 1 as [|en t Hen _ IH]; simpl; [reflexivity|].
  now rewrite Hen.
Qed.

Lemma precededBy_quiet (g p : Entry -> bool) (t : list Entry) :
  Forall (fun en => p en = false) t -> precededBy g p t.
Proof.
  intros Ht t1 en t2 -> Hp.
  apply Forall_app in Ht as [_ Ht]. inversion Ht; subst. congruence.
Qed.

Lemma precededBy_guard (g p : Entry -> bool) (tA : list Entry) (e : Entry)
    (tB : list Entry) :
  Forall (fun en => p en = false) tA -> p e = false -> g e = true ->
  precededBy g p (tA ++ e :: tB).
Proof.
  intros HtA Hpe Hge. induction HtA as [|a tA Ha _ IH]; intros t1 en t2 Heq Hp.
  - destruct t1 as [|x t1]; simpl in Heq; injection Heq as -> Heq.
    + congruence.
    + simpl. now rewrite Hge.
  - destruct t1 as [|x t1]; simpl in Heq; injection Heq as -> Heq.
    + congruence.
    + simpl. rewrite (IH t1 en t2 Heq Hp). apply orb_true_r.
Qed.

Lemma taskStatusAfter_failed (sqls : list ExecuteSQL) :
  taskStatusAfter sqls = TaskStatusExecuteFailed
  <-> Exists (fun sql => ExecStatus (E_BaseSQL sql) = SQLExecuteStatusFailed) sqls.
Proof.
  induction sqls as [|sql rest IH]; simpl.
  - split; [discriminate|]. intros Hex. inversion Hex.
  - case_bool_decide as Hsql.
    + split; [intros _; now constructor|reflexivity].
    + rewrite IH. split.
      * intros Hex. now apply Exists_cons_tl.
      * intros Hex. inversion Hex; subst; [contradiction|assumption].
Qed.

Lemma taskStatusAfter_cases (sqls : list ExecuteSQL) :
  taskStatusAfter sqls = TaskStatusExecuteFailed
  \/ taskStatusAfter sqls = TaskStatusExecuteSucceeded.
Proof.
  induction sqls as [|sql rest IH]; simpl; [now right|].
  case_bool_decide; [now left|assumption].
Qed.

Lemma taskStatusAfter_succeeded (sqls : list ExecuteSQL) :
  taskStatusAfter sqls = TaskStatusExecuteSucceeded
  <-> ~ Exists (fun sql => ExecStatus (E_BaseSQL sql) = SQLExecuteStatusFailed) sqls.
Proof.
  rewrite <- taskStatusAfter_failed.
  destruct (taskStatusAfter_cases sqls) as [-> | ->]; split; congruence.
Qed.

Lemma quietDML_exec (t : list Entry) :
  Forall quietDML t -> Forall (fun en => isExec en = false) t.
Proof. intros Ht. eapply Forall_impl; [exact Ht|]. now intros en (_ & ? & _). Qed.

Lemma quietDML_persist (t : list Entry) :
  Forall quietDML t -> Forall (fun en => isPersistFailure en = false) t.
Proof. intros Ht. eapply Forall_impl; [exact Ht|]. now intros en (_ & _ & ?). Qed.

Lemma quietDML_statusSet (id : N) (t : list Entry) :
  Forall quietDML t -> Forall (fun en => statusSet id en = None) t.
Proof.
  intros Ht. eapply Forall_impl; [exact Ht|].
  intros en (? & _ & _). now apply isStatusUpdate_statusSet.
Qed.

Lemma quietDML_statusWrite (t : list Entry) :
  Forall quietDML t -> Forall (fun en => statusWrite en = None) t.
Proof.
  intros Ht. eapply Forall_impl; [exact Ht|].
  intros en (? & _ & _). now apply isStatusUpdate_statusWrite.
Qed.

Lemma statusSet_self (id : N) (s : TaskStatus) :
  statusSet id (Call _ (UpdateTaskStatusById id s) None) = Some s.
Proof. simpl. now rewrite bool_decide_eq_true_2. Qed.

Lemma isStatusSet_self (id : N) (s : TaskStatus) :
  isStatusSet id s (Call _ (UpdateTaskStatusById id s) None) = true.
Proof. simpl. now rewrite !bool_decide_eq_true_2. Qed.

Lemma commitDDL_status (o : Oracle) (task : Task) (isProcedureFunction : bool) :
  let r := run o (commitDDL task isProcedureFunction) in
  precededBy (isStatusSet (ID task) TaskStatusExecuting) isExec (snd r)
  /\ (snd (fst r) = None ->
      lastStatusSet (ID task) (snd r)
      = Some (taskStatusAfter (ExecuteSQLs (fst (fst r))))).
Proof.
  intros r.
  destruct (spec_run _ _ o (commitDDL_shape task isProcedureFunction))
    as (tA & HtA & Hcases).
  fold r in Hcases.
  assert (HtAx : Forall (fun en => isExec en = false) tA).
  { eapply Forall_impl; [exact HtA|]. now intros en [_ ?]. }
  destruct Hcases as [(e & He & Ht) | [(e & He & Ht) | (tB & HtB & Ht)]].
  - rewrite He, Ht. split; [now apply precededBy_quiet|discriminate].
  - rewrite He, Ht. split; [|discriminate].
    apply precededBy_quiet. apply Forall_app. split; [assumption|].
    constructor; [reflexivity|constructor].
  - rewrite Ht. split.
    + apply precededBy_guard; [assumption|reflexivity|apply isStatusSet_self].
    + intros Herr. rewrite Herr. unfold lastStatusSet.
      change (tA ++ ?e :: tB ++ [?f]) with (tA ++ (e :: tB) ++ [f]).
      rewrite app_assoc, omap_app. simpl.
      rewrite bool_decide_eq_true_2 by reflexivity. apply last_snoc.
Qed.

Lemma commitDML_status (o : Oracle) (task : Task) :
  let r := run o (commitDML task) in
  precededBy (isStatusSet (ID task) TaskStatusExecuting) isExec (snd r)
  /\ (snd (fst r) = None ->
      lastStatusSet (ID task) (snd r)
      = Some (taskStatusAfter (ExecuteSQLs (fst (fst r)))))
  /\ (existsb isPersistFailure (snd r) = true ->
      snd (fst r) <> None
      /\ exists x,
          last (statusWrites (snd r))
          = Some (ID task, TaskStatusExecuteFailed, x)).
Proof.
  intros r.
  destruct (spec_run _ _ o (commitDML_shape task)) as (tA & HtA & Hcases).
  fold r in Hcases.
  pose proof (quietDML_exec _ HtA) as HtAx.
  pose proof (quietDML_persist _ HtA) as HtAp.
  destruct Hcases as [(e & He & Ht) | [(e & He & Ht)
                     | (i & sqls & a & ans & tail & Ht & Hans)]].
  - rewrite He, Ht. split; [now apply precededBy_quiet|].
    split; [discriminate|]. rewrite existsb_quiet by assumption. discriminate.
  - rewrite He, Ht. split; [|split; [discriminate|]].
    + apply precededBy_quiet. apply Forall_app. split; [assumption|].
      constructor; [reflexivity|constructor].
    + rewrite existsb_app, existsb_quiet by assumption. discriminate.
  - rewrite Ht. split; [|split].
    + apply precededBy_guard; [assumption|reflexivity|apply isStatusSet_self].
    + intros Herr. rewrite Herr in Hans. destruct ans as [e|].
      { destruct Hans as [Habs _]. discriminate. }
      subst tail. unfold lastStatusSet.
      rewrite !omap_app, (omap_quiet _ _ (quietDML_statusSet _ _ HtA)).
      simpl. now rewrite !bool_decide_eq_true_2.
    + intros Hpf. destruct ans as [e|].
      * destruct Hans as (He & en & x & tL & -> & HtL). split; [congruence|].
        exists x. unfold statusWrites.
        inversion HtL as [|? ? Hen HtL']; subst.
        rewrite !omap_app, (omap_quiet _ _ (quietDML_statusWrite _ HtA)).
        rewrite (omap_cons_Some statusWrite _ _ (ID task, TaskStatusExecuting, None))
          by reflexivity.
        do 2 rewrite omap_cons_None by reflexivity.
        rewrite (omap_cons_None _ en) by (now apply isStatusUpdate_statusWrite, Hen).
        rewrite (omap_cons_Some statusWrite _ _ (ID task, TaskStatusExecuteFailed, x))
          by reflexivity.
        rewrite (omap_quiet _ _ (quietDML_statusWrite _ HtL')).
        reflexivity.
      * subst tail. rewrite !existsb_app, existsb_quiet in Hpf by assumption.
        discriminate.
Qed.

Lemma isPersistFailure_persistError (en : Entry) :
  isPersistFailure en = false -> persistError en = None.
Proof. destruct en as [X [] x]; simpl; try reflexivity. destruct x; congruence. Qed.

Lemma quietDML_persistError (t : list Entry) :
  Forall quietDML t -> Forall (fun en => persistError en = None) t.
Proof.
  intros Ht. eapply Forall_impl; [exact Ht|].
  intros en (_ & _ & ?). now apply isPersistFailure_persistError.
Qed.

(** When the store refuses to write the statements back, that
    refusal's error is what [commitDML] returns, and the last status it
    asks the store to write is exec_failed. *)
Lemma commitDML_persist_error (o : Oracle) (task : Task) :
  let r := run o (commitDML task) in
  existsb isPersistFailure (snd r) = true ->
  exists e x,
    persistErrors (snd r) = [e]
    /\ snd (fst r) = Some e
    /\ last (statusWrites (snd r))
       = Some (ID task, TaskStatusExecuteFailed, x).
Proof.
  intros r.
  destruct (spec_run _ _ o (commitDML_shape task)) as (tA & HtA & Hcases).
  fold r in Hcases.
  pose proof (quietDML_persist _ HtA) as HtAp.
  destruct Hcases as [(e & He & Ht) | [(e & He & Ht)
                     | (i & sqls & a & ans & tail & Ht & Hans)]].
  - rewrite Ht. rewrite existsb_quiet by assumption. discriminate.
  - rewrite Ht. rewrite existsb_app, existsb_quiet by assumption. discriminate.
  - rewrite Ht. intros Hpf. destruct ans as [e|].
    + destruct Hans as (He & en & x & tL & -> & HtL).
      exists e, x. inversion HtL as [|? ? Hen HtL']; subst.
      split; [|split; [exact He|]].
      * unfold persistErrors.
        rewrite !omap_app, (omap_quiet _ _ (quietDML_persistError _ HtA)).
        do 2 rewrite omap_cons_None by reflexivity.
        rewrite (omap_cons_Some persistError _ _ e) by reflexivity.
        rewrite (omap_cons_None _ en)
          by (destruct Hen as (_ & _ & Hen); now apply isPersistFailure_persistError).
        rewrite omap_cons_None by reflexivity.
        rewrite (omap_quiet _ _ (quietDML_persistError _ HtL')).
        reflexivity.
      * unfold statusWrites.
        rewrite !omap_app, (omap_quiet _ _ (quietDML_statusWrite _ HtA)).
        rewrite (omap_cons_Some statusWrite _ _ (ID task, TaskStatusExecuting, None))
          by reflexivity.
        do 2 rewrite omap_cons_None by reflexivity.
        rewrite (omap_cons_None _ en) by (now apply isStatusUpdate_statusWrite, Hen).
        rewrite (omap_cons_Some statusWrite _ _ (ID task, TaskStatusExecuteFailed, x))
          by reflexivity.
        rewrite (omap_quiet _ _ (quietDML_statusWrite _ HtL')).
        reflexivity.
    + subst tail. rewrite !existsb_app, existsb_quiet in Hpf by assumption.
      discriminate.
Qed.

End HistoryFacts.

Section CommitDispatch.

Context `{Collaborators}.

Lemma sat_extends {A} (m : M A) (P : Entry -> Prop) (Q : A -> Prop)
    (o : Oracle) (h : list Entry) :
  sat m P Q -> exists t, snd (m o h) = h ++ t.
Proof. intros Hm. destruct (Hm o h) as (t & Ht & _). eauto. Qed.

Lemma commit_unclassified (o : Oracle) (task : Task) :
  SQLType task <> SQL_TYPE_DML ->
  SQLType task <> SQL_TYPE_DDL ->
  SQLType task <> SQL_TYPE_PROCEDURE_FUNCTION ->
  let e := ParseSqlType (NewInspector NewContext task [] None) (ExecuteSQLs task) in
  let a := o _ [] e in
  let r := run o (commit task) in
  (exists t, snd r = Call _ e a :: t)
  /\ (snd a = None -> SqlType (fst a) = SQL_TYPE_MULTI ->
      r = (task, Some SQL_STMT_CONFLICT_ERROR, [Call _ e a]))
  /\ (snd a = None -> SqlType (fst a) = SQL_TYPE_PROCEDURE_FUNCTION_MULTI ->
      r = (task, Some SQL_STMT_PROCEUDRE_FUNCTION_ERROR, [Call _ e a])).
Proof.
  intros Hdml Hddl Hpf e a r. subst r. unfold run, commit.
  rewrite !bool_decide_eq_false_2 by assumption.
  rewrite run_bind, run_call. fold e a. destruct a as [i [err|]] eqn:Ea.
  - simpl. split; [exists []; reflexivity|]. split; discriminate.
  - simpl fst; simpl snd. cbv beta iota zeta.
    destruct (SqlType i) eqn:Ei.
    all: split; [|split; intros _ Habs; try discriminate Habs; reflexivity].
    all: try (exists []; reflexivity).
    + destruct (sat_extends _ _ _ o [Call _ e (i, None)] (commitDML_sat task))
        as (t & ->). now exists t.
    + destruct (sat_extends _ _ _ o [Call _ e (i, None)] (commitDDL_sat task false))
        as (t & ->). now exists t.
    + destruct (sat_extends _ _ _ o [Call _ e (i, None)] (commitDDL_sat task true))
        as (t & ->). now exists t.
Qed.

Lemma isStatusUpdate_isStatusSet (id : N) (s : TaskStatus) (en : Entry) :
  isStatusUpdate en = false -> isStatusSet id s en = false.
Proof. destruct en as [X [] x]; simpl; congruence. Qed.

(** Once the status [executing] was accepted, what [commitDDL] returns
    is the store's answer to the last status write, nothing else. *)
Lemma commitDDL_returns_last_write (o : Oracle) (task : Task)
    (isProcedureFunction : bool) :
  let r := run o (commitDDL task isProcedureFunction) in
  existsb (isStatusSet (ID task) TaskStatusExecuting) (snd r) = true ->
  exists t0,
    snd r = t0 ++ [Call _ (UpdateTaskStatusById (ID task)
                             (taskStatusAfter (ExecuteSQLs (fst (fst r)))))
                          (snd (fst r))].
Proof.
  intros r.
  destruct (spec_run _ _ o (commitDDL_shape task isProcedureFunction))
    as (tA & HtA & Hcases).
  fold r in Hcases.
  assert (HtAs : Forall (fun en => isStatusSet (ID task) TaskStatusExecuting en = false) tA).
  { eapply Forall_impl; [exact HtA|]. intros en [? _].
    now apply isStatusUpdate_isStatusSet. }
  destruct Hcases as [(e & He & Ht) | [(e & He & Ht) | (tB & HtB & Ht)]].
  - rewrite Ht, existsb_quiet by assumption. discriminate.
  - rewrite Ht, existsb_app, existsb_quiet by assumption. discriminate.
  - intros _. rewrite Ht.
    exists (tA ++ Call _ (UpdateTaskStatusById (ID task) TaskStatusExecuting) None :: tB).
    now rewrite <- app_assoc.
Qed.

End CommitDispatch.

Section SchedulerFacts.

Context `{Collaborators}.

(** No workflow changes the id of its task. *)
Lemma audit_keeps_ID (task : Task) :
  sat (audit task) (fun _ => True) (fun r => ID (fst r) = ID task).
Proof.
  unfold audit, audit_rollback, audit_persist.
  repeat sat_step; simpl;
    repeat match goal with
           | |- context [if ?b then _ else _] => destruct b
           end; reflexivity.
Qed.

Lemma do_switch_keeps_ID (o : Oracle) (h : list Entry) (task : Task)
    (typ : ActionTyp) :
  ID (fst (fst (do_switch task typ o h))) = ID task.
Proof.
  destruct typ; simpl.
  - destruct (audit_keeps_ID task o h) as (t & _ & _ & Hid). exact Hid.
  - destruct (commit_sat task o h) as (t & _ & _ & Hid). apply Hid.
  - destruct (rollback_sat task o h) as (t & _ & _ & Hid). apply Hid.
  - reflexivity.
Qed.

(** What [do] leaves in [Sqled]: the id of the action's task deleted. *)
Lemma do_deletes (o : Oracle) (h : list Entry) (s : Sqled) (action : Action)
    (s' : Sqled) (action' : Action) (err : option error) :
  fst (do s action o h) = Some (s', action', err) ->
  s' = deleteTask s (actionId action) /\ A_Task action <> None.
Proof.
  unfold do, actionId. destruct (A_Task action) as [task|]; [|discriminate].
  rewrite run_bind.
  pose proof (do_switch_keeps_ID o h task (Typ action)) as Hid.
  destruct (do_switch task (Typ action) o h) as [[task' err'] h'].
  simpl in Hid. rewrite run_ret. simpl. intros [= <- _ _].
  rewrite Hid. split; [reflexivity|discriminate].
Qed.

Lemma guarded_init : guarded initSched.
Proof.
  split; [constructor|]. intros taskId. simpl.
  split; [intros Hk; exact (not_elem_of_empty taskId Hk)|tauto].
Qed.

(** Removing one id that is in flight, from the list and from the set. *)
Lemma guarded_remove (cur : gset string) (l l' : list string) (taskId : string) :
  NoDup l -> (forall k, k ∈ cur <-> In k l) ->
  l ≡ₚ taskId :: l' ->
  NoDup l' /\ forall k, k ∈ cur ∖ {[taskId]} <-> In k l'.
Proof.
  intros Hnd Hin Hperm. rewrite Hperm in Hnd.
  apply NoDup_cons in Hnd as [Hnotin Hnd']. split; [assumption|].
  intros k. rewrite elem_of_difference, elem_of_singleton, Hin.
  rewrite <- !list_elem_of_In, Hperm, elem_of_cons.
  split.
  - intros [[-> | Hk] Hne]; [contradiction|assumption].
  - intros Hk. split; [now right|]. intros ->. contradiction.
Qed.

Lemma guarded_step (s s' : Sched) (l : Label) :
  guarded s ->
  match l with
  | LValidate k r =>
      match pending s !! k with
      | Some (taskId, _) => answerFor taskId r
      | None => True
      end
  | _ => True
  end ->
  step s l = Some s' -> guarded s'.
Proof.
  intros [Hnd Hin] Hans Hstep. unfold guarded, inFlight in *.
  destruct l as [taskId typ | k r | | k o]; simpl in Hstep.
  - (* a caller enters *)
    unfold addTask_lock in Hstep. case_bool_decide as Hrun;
      injection Hstep as <-; simpl; [split; assumption|].
    rewrite map_app. simpl.
    assert (Hperm : (map fst (pending s) ++ [taskId])
                      ++ map actionId (queue (sqled s))
                      ++ map actionId (running s)
                    ≡ₚ taskId :: map fst (pending s)
                         ++ map actionId (queue (sqled s))
                         ++ map actionId (running s)).
    { rewrite <- app_assoc. simpl. now rewrite <- Permutation_middle. }
    split.
    + rewrite Hperm. apply NoDup_cons. split; [|assumption].
      rewrite list_elem_of_In, <- Hin. exact Hrun.
    + intros k. rewrite <- list_elem_of_In, Hperm, elem_of_cons, list_elem_of_In.
      rewrite <- Hin. simpl. rewrite elem_of_union, elem_of_singleton.
      intuition congruence.
  - (* a pending call is answered *)
    destruct (pending s !! k) as [[taskId typ]|] eqn:Hk; [|discriminate].
    injection Hstep as <-. simpl.
    assert (Hperm : map fst (pending s)
                    ≡ₚ taskId :: map fst (delete k (pending s))).
    { rewrite (delete_Permutation (pending s) k (taskId, typ)) at 1 by assumption.
      reflexivity. }
    destruct r as [[task|]|err]; simpl in *.
    + destruct (ValidAction task typ) as [err|]; simpl.
      * apply (guarded_remove _ _ _ taskId Hnd Hin). now rewrite Hperm.
      * rewrite map_app. simpl.
        change (actionId {| A_Task := Some task; Typ := typ; Error := None |})
          with (Sprintf_d (ID task)).
        rewrite Hans.
        assert (Hperm' : map fst (delete k (pending s))
                           ++ (map actionId (queue (sqled s)) ++ [taskId])
                           ++ map actionId (running s)
                         ≡ₚ map fst (pending s)
                              ++ map actionId (queue (sqled s))
                              ++ map actionId (running s)).
        { rewrite Hperm. simpl. rewrite <- !app_assoc. simpl.
          rewrite <- !Permutation_middle. reflexivity. }
        split; [now rewrite Hperm'|].
        intros k'. rewrite Hin, <- !list_elem_of_In. now rewrite Hperm'.
    + apply (guarded_remove _ _ _ taskId Hnd Hin). now rewrite Hperm.
    + apply (guarded_remove _ _ _ taskId Hnd Hin). now rewrite Hperm.
  - (* the loop starts an action *)
    destruct (queue (sqled s)) as [|action rest] eqn:Hq; [discriminate|].
    injection Hstep as <-. simpl in *. rewrite map_app. simpl.
    assert (Hperm : map fst (pending s) ++ map actionId rest
                      ++ map actionId (running s) ++ [actionId action]
                    ≡ₚ map fst (pending s) ++ actionId action :: map actionId rest
                         ++ map actionId (running s)).
    { apply Permutation_app_head. rewrite app_assoc. symmetry.
      apply Permutation_cons_append. }
    split; [now rewrite Hperm|].
    intros k'. rewrite Hin, <- !list_elem_of_In. now rewrite Hperm.
  - (* an action finishes *)
    destruct (running s !! k) as [action|] eqn:Hk; [|discriminate].
    destruct (fst (run o (do (sqled s) action))) as [[[sq action'] err]|] eqn:Hdo;
      [|discriminate].
    injection Hstep as <-. simpl.
    apply do_deletes in Hdo as [-> _]. simpl.
    apply (guarded_remove _ _ _ (actionId action) Hnd Hin).
    rewrite (delete_Permutation (running s) k action) at 1 by assumption.
    simpl. rewrite <- !Permutation_middle. reflexivity.
Qed.

Lemma guarded_steps (ls : list Label) :
  forall s s', guarded s -> faithfulStore s ls -> steps s ls = Some s' ->
               guarded s'.
Proof.
  induction ls as [|l ls IH]; intros s s' Hs Hfaith Hsteps; simpl in *.
  - now injection Hsteps as <-.
  - destruct Hfaith as [Hl Hrest].
    destruct (step s l) as [s1|] eqn:Hstep; [|discriminate].
    apply (IH s1 s'); [|assumption|assumption].
    apply (guarded_step s s1 l Hs); [|assumption].
    destruct l; auto.
Qed.

Lemma race_running (typs : list ActionTyp) :
  forall (s : Sched) (taskId : string),
    taskId ∈ currentTask (sqled s) ->
    race s taskId typs
    = (repeat (Some taskRunningError) (length typs), s).
Proof.
  induction typs as [|typ rest IH]; intros s taskId Hin; simpl; [reflexivity|].
  unfold enter_error, addTask_lock. simpl.
  rewrite bool_decide_eq_true_2 by assumption. simpl.
  assert (Hs : {| sqled := sqled s; pending := pending s; running := running s |} = s)
    by (destruct s; reflexivity).
  rewrite Hs, IH by assumption. reflexivity.
Qed.

Lemma race_free (s : Sched) (taskId : string) (typ : ActionTyp)
    (typs : list ActionTyp) :
  taskId ∉ currentTask (sqled s) ->
  fst (race s taskId (typ :: typs))
  = None :: repeat (Some taskRunningError) (length typs).
Proof.
  intros Hfree. simpl. unfold enter_error, addTask_lock. simpl.
  rewrite bool_decide_eq_false_2 by assumption. simpl.
  rewrite race_running; [reflexivity|]. simpl.
  apply elem_of_union_l, elem_of_singleton. reflexivity.
Qed.

Lemma enter_error_guarded (s : Sched) (taskId : string) :
  guarded s ->
  (In taskId (inFlight s) -> enter_error s taskId = Some taskRunningError)
  /\ (~ In taskId (inFlight s) -> enter_error s taskId = None).
Proof.
  intros [_ Hin]. unfold enter_error, addTask_lock. simpl.
  split; intros Hk; rewrite <- Hin in Hk.
  - now rewrite bool_decide_eq_true_2.
  - now rewrite bool_decide_eq_false_2.
Qed.

Lemma finish_removes (s s' : Sched) (k : nat) (o : Oracle) :
  guarded s -> step s (LFinish k o) = Some s' ->
  exists action,
    running s !! k = Some action
    /\ (actionId action ∉ currentTask (sqled s'))
    /\ ~ In (actionId action) (inFlight s').
Proof.
  intros Hs Hstep.
  assert (Hs' : guarded s') by (apply (guarded_step s s' (LFinish k o)); auto).
  simpl in Hstep.
  destruct (running s !! k) as [action|] eqn:Hk; [|discriminate].
  destruct (fst (run o (do (sqled s) action))) as [[[sq action'] err]|] eqn:Hdo;
    [|discriminate].
  injection Hstep as <-. apply do_deletes in Hdo as [-> _].
  exists action. split; [reflexivity|].
  assert (Hnot : actionId action ∉ currentTask (deleteTask (sqled s) (actionId action)))
    by (simpl; rewrite elem_of_difference, elem_of_singleton; tauto).
  split; [exact Hnot|]. destruct Hs' as [_ Hin']. now rewrite <- Hin'.
Qed.

(** [addTask] on an id that is free, when the store does not know the
    id or the task does not allow the action. *)
Lemma addTask_rejects (o : Oracle) (s : Sqled) (taskId : string)
    (typ : ActionTyp) (err : error) :
  taskId ∉ currentTask s ->
  addTask_validate (o _ [] (GetTaskDetailById taskId)) typ = inr err ->
  let r := run o (addTask s taskId typ) in
  snd (fst r) = Some err
  /\ currentTask (fst (fst (fst r))) = currentTask s
  /\ queue (fst (fst (fst r))) = queue s
  /\ snd r = [Call _ (GetTaskDetailById taskId)
                    (o _ [] (GetTaskDetailById taskId))].
Proof.
  intros Hfree Hval r. subst r. unfold run, addTask, addTask_lock.
  rewrite bool_decide_eq_false_2 by assumption.
  rewrite run_bind, run_call, Hval, run_ret. simpl.
  repeat split; try reflexivity.
  apply set_eq. intros k. rewrite elem_of_difference, elem_of_union, elem_of_singleton.
  split.
  - intros [[-> | Hk] Hne]; [contradiction|assumption].
  - intros Hk. split; [now right|]. intros ->. contradiction.
Qed.

End SchedulerFacts.

(* ===================================================================== *)
(** * The properties of the specification *)
(* ===================================================================== *)

(** The guard when every id asked for is the decimal rendering of its
    task's ID.  In every execution of the scheduler in which the store
    answers a lookup with the task of the id asked, the ids in flight
    (calls being validated, queued actions, running actions) are pairwise
    different and are exactly the members of the running set; a call on an
    id in flight gets TaskRunning and a call on a free id gets the guard,
    so of the callers that race on one id the first to take the lock
    proceeds and every other fails with TaskRunning; and when an action
    finishes its id leaves the set. *)
Theorem one_action_in_flight_per_task `{Collaborators}
    (ls : list Label) (s : Sched) :
  steps initSched ls = Some s ->
  faithfulStore initSched ls ->
  NoDup (inFlight s)
  /\ (forall taskId, taskId ∈ currentTask (sqled s) <-> In taskId (inFlight s))
  /\ (forall taskId,
         (In taskId (inFlight s) -> enter_error s taskId = Some taskRunningError)
         /\ (~ In taskId (inFlight s) -> enter_error s taskId = None))
  /\ (forall taskId typ typs,
         ~ In taskId (inFlight s) ->
         fst (race s taskId (typ :: typs))
         = None :: repeat (Some taskRunningError) (length typs))
  /\ (forall taskId typs,
         In taskId (inFlight s) ->
         fst (race s taskId typs) = repeat (Some taskRunningError) (length typs))
  /\ (forall k o s',
         step s (LFinish k o) = Some s' ->
         exists action,
           running s !! k = Some action
           /\ (actionId action ∉ currentTask (sqled s'))
           /\ ~ In (actionId action) (inFlight s')).
Proof.
  intros Hsteps Hfaith.
  assert (Hs : guarded s).
  { apply (guarded_steps ls initSched s); [apply guarded_init|assumption|assumption]. }
  destruct Hs as [Hnd Hin].
  split; [exact Hnd|]. split; [exact Hin|].
  split; [intros taskId; apply enter_error_guarded; split; assumption|].
  split.
  { intros taskId typ typs Hfree. apply race_free. now rewrite Hin. }
  split.
  { intros taskId typs Hbusy. rewrite race_running; [reflexivity|]. now rewrite Hin. }
  intros k o s' Hstep. apply (finish_removes s s' k o); [split; assumption|assumption].
Qed.

(** C1.  The guard does not keep to one action per task.  [addTask]
    guards an action under the id string it is called with, and [do]
    releases the decimal rendering of the task's ID.  Task 2 is asked for
    as "02" and as "2", and the store answers both lookups with task 2:
    both calls are accepted, and two actions of task 2 are started side
    by side.  When the first to finish is done, "2" leaves [currentTask]
    although the other action of task 2 is still running, so a further
    call on "2" is accepted and queued next to it: two actions in flight
    under the one id "2".  When the two started actions are done nothing
    is in flight, and "02" is still in [currentTask]: every later call on
    it is refused with TaskRunning. *)
Theorem guard_lost_for_unrendered_id :
  let o := Demo.world Demo.noFaults in
  let ls := [LEnter "02" TASK_ACTION_AUDIT;
             LValidate 0 (inl (Some Demo.dmlTask));
             LEnter "2" TASK_ACTION_AUDIT;
             LValidate 0 (inl (Some Demo.dmlTask));
             LDispatch; LDispatch] in
  exists s s' s'',
    steps (H := Demo.demo) initSched ls = Some s
    /\ map A_Task (running s) = [Some Demo.dmlTask; Some Demo.dmlTask]
    /\ inFlight s = ["2"; "2"]
    /\ ~ NoDup (inFlight s)
    /\ step s (LFinish 0 o) = Some s'
    /\ inFlight s' = ["2"]
    /\ HasTask (sqled s') "2" = false
    /\ enter_error s' "2" = None
    /\ (exists s3,
           steps (H := Demo.demo) s'
                 [LEnter "2" TASK_ACTION_EXECUTE;
                  LValidate 0 (inl (Some Demo.dmlTask))] = Some s3
           /\ inFlight s3 = ["2"; "2"])
    /\ step s' (LFinish 0 o) = Some s''
    /\ inFlight s'' = []
    /\ HasTask (sqled s'') "02" = true
    /\ enter_error s'' "02" = Some taskRunningError.
Proof.
  intros o ls. eexists _, _, _.
  split; [vm_compute; reflexivity|].
  split; [reflexivity|]. split; [reflexivity|].
  split.
  { intros Hnd. vm_compute in Hnd. inversion Hnd as [|? ? Hnotin _]; subst.
    apply Hnotin. now left. }
  split; [vm_compute; reflexivity|].
  split; [vm_compute; reflexivity|].
  split; [vm_compute; reflexivity|].
  split; [vm_compute; reflexivity|].
  split; [eexists; split; vm_compute; reflexivity|].
  repeat split; vm_compute; reflexivity.
Qed.

(** C2. After an audit that returns without error, the pass rate of a
    task with statements is [round], with 4 decimals, of the counter of the
    statements of level normal over the number of statements, computed in
    [float64]; the pass rate of a task without statements is the one it
    had; that pass rate is what the store is asked to write.  Commit and
    rollback leave the pass rate as it is and never ask the store to write
    one.  With fewer than 800 statements the pass rate is the quotient
    rounded half up to 4 decimals.  With 800 statements it need not be:
    for 57 statements of level normal out of 800 the quotient is 712.5
    units of 1/10000, half up is 713 units, and audit sets 712 units. *)
Theorem pass_rate_round_misses_tie `{Collaborators}
    (o : Oracle) (task : Task) :
  (let r := run o (audit task) in
   let task' := fst (fst r) in
   let sqls := ExecuteSQLs task' in
   let normal := Z.of_nat (length (List.filter isNormal sqls)) in
   let total := Z.of_nat (length sqls) in
   snd (fst r) = None ->
   (sqls <> [] ->
    PassRate task'
    = round (PrimFloat.div (normalCount sqls) (float64_of_Z total)) 4)
   /\ (sqls <> [] ->
       (length sqls < 800)%nat ->
       PrimFloat.eqb (PassRate task') (roundHalfUp normal total 4) = true)
   /\ (sqls = [] -> PassRate task' = PassRate task)
   /\ updateTaskArgs (snd r) = [(task', PassRate task', None)])
  /\ (let r := run o (commit task) in
      PassRate (fst (fst r)) = PassRate task
      /\ Forall (fun en => isPassRateUpdate en = false) (snd r))
  /\ (let r := run o (rollback task) in
      PassRate (fst (fst r)) = PassRate task
      /\ Forall (fun en => isPassRateUpdate en = false) (snd r))
  /\ (let r := run (H := Demo.demo) (Demo.world Demo.noFaults)
                   (audit Demo.tieTask) in
      let task' := fst (fst r) in
      let sqls := ExecuteSQLs task' in
      snd (fst r) = None
      /\ length sqls = 800%nat
      /\ length (List.filter isNormal sqls) = 57%nat
      /\ (2 * (10 ^ 4 * 57) = 2 * (712 * 800) + 800)%Z
      /\ halfUpUnits 57 800 4 = 713%Z
      /\ PassRate task' = PrimFloat.div (float64_of_Z 712) (Pow10 4)
      /\ PrimFloat.eqb (PassRate task') (roundHalfUp 57 800 4) = false).
Proof.
  split; [|split; [|split]].
  - intros r task' sqls normal total Herr.
    pose proof (spec_run _ _ o (audit_pass_rate_shape task)) as Hshape.
    cbv zeta in Hshape. fold r in Hshape. specialize (Hshape Herr).
    destruct Hshape as (Hsome & Hnone & Hwritten).
    split; [exact Hsome|]. split; [|split; assumption].
    intros Hne Hlen. fold task' in Hsome. fold sqls in Hsome.
    rewrite (Hsome Hne). apply round_agrees_below; assumption.
  - intros r. destruct (sat_run _ _ _ o (commit_sat task)) as [Hcalls Hkept].
    split; [apply Hkept|exact Hcalls].
  - intros r. destruct (sat_run _ _ _ o (rollback_sat task)) as [Hcalls Hkept].
    split; [apply Hkept|].
    eapply Forall_impl; [exact Hcalls|]. apply isStatusUpdate_isPassRateUpdate.
  - vm_compute. repeat split.
Qed.

(** C3. Commit of a task whose stored type is none of DML, DDL and
    procedure/function (an unset type in particular) first asks the
    inspector to classify the statements.  When that succeeds with the
    mixed type, commit returns SQL_STMT_CONFLICT_ERROR; with the
    conflicting procedure/function type it returns
    SQL_STMT_PROCEUDRE_FUNCTION_ERROR.  In both cases the classification
    is the only call made: no statement is run and the store is not asked
    to write. *)
Theorem commit_unclassified_conflict_aborts `{Collaborators}
    (o : Oracle) (task : Task) :
  SQLType task <> SQL_TYPE_DML ->
  SQLType task <> SQL_TYPE_DDL ->
  SQLType task <> SQL_TYPE_PROCEDURE_FUNCTION ->
  let e := ParseSqlType (NewInspector NewContext task [] None) (ExecuteSQLs task) in
  let a := o _ [] e in
  let r := run o (commit task) in
  (exists t, snd r = Call _ e a :: t)
  /\ (snd a = None -> SqlType (fst a) = SQL_TYPE_MULTI ->
      snd (fst r) = Some SQL_STMT_CONFLICT_ERROR
      /\ snd r = [Call _ e a]
      /\ existsb isExec (snd r) = false
      /\ existsb isStoreUpdate (snd r) = false)
  /\ (snd a = None -> SqlType (fst a) = SQL_TYPE_PROCEDURE_FUNCTION_MULTI ->
      snd (fst r) = Some SQL_STMT_PROCEUDRE_FUNCTION_ERROR
      /\ snd r = [Call _ e a]
      /\ existsb isExec (snd r) = false
      /\ existsb isStoreUpdate (snd r) = false).
Proof.
  intros Hdml Hddl Hpf e a r.
  destruct (commit_unclassified o task Hdml Hddl Hpf) as (Hfirst & Hmulti & Hpfm).
  fold e a r in Hfirst, Hmulti, Hpfm.
  split; [exact Hfirst|].
  split; intros Herr Htyp.
  - rewrite (Hmulti Herr Htyp). repeat split; reflexivity.
  - rewrite (Hpfm Herr Htyp). repeat split; reflexivity.
Qed.



(** C9. Rollback leaves the task's status alone, whether it succeeds or
    fails: the task it hands back differs from the one it was given at
    most in the execution fields of the rollback statements, and the store
    is never asked to write a task status. *)
Theorem rollback_keeps_task_status `{Collaborators} (o : Oracle) (task : Task) :
  let r := run o (rollback task) in
  Status (fst (fst r)) = Status task
  /\ rollbackFrame task (fst (fst r))
  /\ Forall (fun en => isStatusUpdate en = false) (snd r).
Proof.
  intros r. destruct (sat_run _ _ _ o (rollback_sat task)) as [Hcalls Hframe].
  split; [apply Hframe|]. split; assumption.
Qed.

(** C5, as the code has it.  On the DDL/procedure path and on the DML path
    every statement that runs does so after the store accepted the status
    executing; when the commit returns without error the last status the
    store accepted is exec_failed if the execution status of at least one
    statement ended as failed and exec_succeeded otherwise; and on the DML
    path, when the store refuses to write the statements back after they
    ran, which happens at most once, the commit returns the error of that
    refusal and the last status it asks the store to write is
    exec_failed, whatever the statements' statuses. *)
Theorem commit_status_around_execution `{Collaborators}
    (o : Oracle) (task : Task) :
  (forall isProcedureFunction,
      let r := run o (commitDDL task isProcedureFunction) in
      precededBy (isStatusSet (ID task) TaskStatusExecuting) isExec (snd r)
      /\ (snd (fst r) = None ->
          lastStatusSet (ID task) (snd r)
          = Some (taskStatusAfter (ExecuteSQLs (fst (fst r))))))
  /\ (let r := run o (commitDML task) in
      precededBy (isStatusSet (ID task) TaskStatusExecuting) isExec (snd r)
      /\ (snd (fst r) = None ->
          lastStatusSet (ID task) (snd r)
          = Some (taskStatusAfter (ExecuteSQLs (fst (fst r)))))
      /\ (existsb isPersistFailure (snd r) = true ->
          exists e x,
            persistErrors (snd r) = [e]
            /\ snd (fst r) = Some e
            /\ last (statusWrites (snd r))
               = Some (ID task, TaskStatusExecuteFailed, x)))
  /\ (forall sqls,
         (taskStatusAfter sqls = TaskStatusExecuteFailed
          <-> Exists (fun sql => ExecStatus (E_BaseSQL sql) = SQLExecuteStatusFailed)
                     sqls)
         /\ (taskStatusAfter sqls = TaskStatusExecuteSucceeded
             <-> ~ Exists (fun sql => ExecStatus (E_BaseSQL sql)
                                      = SQLExecuteStatusFailed) sqls)).
Proof.
  split; [|split].
  - intros isProcedureFunction. apply commitDDL_status.
  - destruct (commitDML_status o task) as (Hbefore & Hfinal & _).
    split; [exact Hbefore|]. split; [exact Hfinal|].
    apply commitDML_persist_error.
  - intros sqls. split; [apply taskStatusAfter_failed|apply taskStatusAfter_succeeded].
Qed.

(** C5 as stated fails: a DML commit whose only statement succeeds, in a
    world where the store refuses to write the statements back, ends with
    the status exec_failed accepted by the store although no statement's
    execution status is failed. *)
Lemma commit_failed_status_without_failed_statement :
  let r := run (H := Demo.demo) (Demo.world Demo.persistFault)
               (commit Demo.dmlTask) in
  lastStatusSet (ID Demo.dmlTask) (snd r) = Some TaskStatusExecuteFailed
  /\ map (fun sql => ExecStatus (E_BaseSQL sql)) (ExecuteSQLs (fst (fst r)))
     = [SQLExecuteStatusSucceeded]
  /\ ~ Exists (fun sql => ExecStatus (E_BaseSQL sql) = SQLExecuteStatusFailed)
              (ExecuteSQLs (fst (fst r))).
Proof.
  split; [reflexivity|]. split; [reflexivity|].
  intros Hex. vm_compute in Hex.
  inversion Hex as [? ? Hfailed|? ? Hrest]; [discriminate Hfailed|inversion Hrest].
Qed.

(** C6, as the code has it.  On the procedure/function path the action of
    a statement, once its status write was accepted, asks the inspector
    for the backup statements.  When they are returned, they are run one
    by one in order, each failure is followed by its log line and nothing
    else, and then the main statement is run, whatever the backups did.
    When the inspector fails to return them, the failure is logged, the
    action returns that error and the main statement is not run.  Neither
    failure is what the workflow returns: once the status executing was
    accepted, [commitDDL] returns the store's answer to its last status
    write. *)
Theorem backup_failures_logged_not_returned `{Collaborators}
    (o : Oracle) (h : list Entry) (i : Inspector) (currentSql : ExecuteSQL)
    (f : ExecFields) (i1 : Inspector) (ans : list string + error)
    (task : Task) :
  let sql := E_BaseSQL currentSql in
  let e1 := UpdateExecuteSqlStatus sql SQLExecuteStatusDoing "" in
  let e2 := GetProcedureFunctionBackupSql i (Content sql) in
  let h2 := h ++ [Call _ e1 (f, None); Call _ e2 (i1, ans)] in
  let r := commitDDL_action true i currentSql o h in
  o _ h e1 = (f, None) ->
  o _ (h ++ [Call _ e1 (f, None)]) e2 = (i1, ans) ->
  match ans with
  | inl backupSqls =>
      exists tb tm,
        snd r = h2 ++ tb ++ tm
        /\ backupShape backupSqls tb
        /\ commitDDLArgs tm = [setExec f sql]
  | inr err =>
      snd r = h2 ++ [Call _ (Log LError
                               "get procedure function backup sql failed, error: %v"
                               [ArgErr err]) tt]
      /\ snd (fst r) = Some err
      /\ commitDDLArgs (snd r) = commitDDLArgs h
  end
  /\ (let w := run o (commitDDL task true) in
      existsb (isStatusSet (ID task) TaskStatusExecuting) (snd w) = true ->
      exists t0,
        snd w = t0 ++ [Call _ (UpdateTaskStatusById (ID task)
                                 (taskStatusAfter (ExecuteSQLs (fst (fst w)))))
                              (snd (fst w))]).
Proof.
  intros sql e1 e2 h2 r H1 H2. split.
  - exact (commitDDL_action_backup o h i currentSql f i1 ans H1 H2).
  - apply commitDDL_returns_last_write.
Qed.

(** C6 as stated fails: when the inspector cannot produce the backup
    statements of a procedure, that failure of the backup step keeps the
    main statement from running: no statement is run at all, and the
    commit still returns without error. *)
Lemma backup_fetch_failure_aborts_main_statement :
  let r := run (H := Demo.demo) (Demo.world Demo.backupFetchFault)
               (commit Demo.procedureTask) in
  existsb isBackupFetchFailure (snd r) = true
  /\ commitDDLArgs (snd r) = []
  /\ existsb isExec (snd r) = false
  /\ snd (fst r) = None.
Proof. repeat split; reflexivity. Qed.

(** C7. A call of [addTask] on an id with no action under way, for which
    the store knows no task or whose task does not allow the action,
    returns the error of the validation (TASK_NOT_EXIST, or the error of
    [ValidAction]), leaves [currentTask] without the id and as it was,
    leaves the queue as it was, and has asked the store for the task and
    nothing else: no workflow ran. *)
Theorem addTask_validation_failure_releases_guard `{Collaborators}
    (o : Oracle) (s : Sqled) (taskId : string) (typ : ActionTyp) :
  taskId ∉ currentTask s ->
  let answer := o _ [] (GetTaskDetailById taskId) in
  let r := run o (addTask s taskId typ) in
  let s' := fst (fst (fst r)) in
  (answer = inl None ->
   snd (fst r) = Some (CodeError TASK_NOT_EXIST "task not exist")
   /\ (taskId ∉ currentTask s') /\ currentTask s' = currentTask s
   /\ queue s' = queue s
   /\ snd r = [Call _ (GetTaskDetailById taskId) answer])
  /\ (forall task err,
         answer = inl (Some task) -> ValidAction task typ = Some err ->
         snd (fst r) = Some err
         /\ (taskId ∉ currentTask s') /\ currentTask s' = currentTask s
         /\ queue s' = queue s
         /\ snd r = [Call _ (GetTaskDetailById taskId) answer]).
Proof.
  intros Hfree answer r s'. split.
  - intros Hans.
    destruct (addTask_rejects o s taskId typ (CodeError TASK_NOT_EXIST "task not exist")
                Hfree) as (Herr & Hcur & Hq & Ht).
    { fold answer. now rewrite Hans. }
    fold r in Herr, Hcur, Hq, Ht. fold s' in Hcur, Hq.
    repeat split; try assumption. now rewrite Hcur.
  - intros task err Hans Hvalid.
    destruct (addTask_rejects o s taskId typ err Hfree) as (Herr & Hcur & Hq & Ht).
    { fold answer. rewrite Hans. simpl. now rewrite Hvalid. }
    fold r in Herr, Hcur, Hq, Ht. fold s' in Hcur, Hq.
    repeat split; try assumption. now rewrite Hcur.
Qed.

(* ===================================================================== *)
(** * The properties at work in the small world *)
(* ===================================================================== *)

(** An audit of task 2 is accepted, queued and started; a second call on
    the id meanwhile is turned away. *)
Lemma one_action_in_flight_per_task_witness :
  let ls := [LEnter "2" TASK_ACTION_AUDIT;
             LValidate 0 (inl (Some Demo.dmlTask));
             LDispatch] in
  exists s,
    steps (H := Demo.demo) initSched ls = Some s
    /\ NoDup (inFlight s)
    /\ enter_error s "2" = Some taskRunningError.
Proof.
  intros ls. eexists. split; [reflexivity|].
  destruct (one_action_in_flight_per_task (H := Demo.demo) ls _ eq_refl)
    as (Hnd & _ & Hbusy & _).
  { vm_compute. repeat split. }
  split; [exact Hnd|]. apply Hbusy. vm_compute. auto.
Defined.

(** The single DELETE of task 2 is audited as normal: the pass rate is 1. *)
Example pass_rate_single_normal :
  PassRate (fst (fst (run (H := Demo.demo) (Demo.world Demo.noFaults)
                          (audit Demo.dmlTask)))) = 1%float.
Proof. vm_compute. reflexivity. Qed.

(** CREATE TABLE with INSERT in one unclassified task: commit stops with
    the conflict error after the classification. *)
Lemma commit_unclassified_conflict_aborts_witness :
  let r := run (H := Demo.demo) (Demo.world Demo.noFaults)
               (commit Demo.mixedTask) in
  snd (fst r) = Some SQL_STMT_CONFLICT_ERROR
  /\ existsb isExec (snd r) = false
  /\ existsb isStoreUpdate (snd r) = false.
Proof.
  destruct (commit_unclassified_conflict_aborts
              (H := Demo.demo) (Demo.world Demo.noFaults) Demo.mixedTask)
    as (_ & Hmulti & _); [discriminate|discriminate|discriminate|].
  destruct (Hmulti eq_refl eq_refl) as (Herr & _ & Hexec & Hstore).
  split; [exact Herr|]. split; assumption.
Defined.

(** The backup of a procedure fails to run: the failure is logged and the
    procedure itself is run all the same. *)
Lemma backup_failures_logged_not_returned_witness :
  let currentSql := Demo.statement 1 "CREATE PROCEDURE p() BEGIN SELECT 1; END" in
  let i : Inspector (Collaborators := Demo.demo) :=
    (SQL_TYPE_PROCEDURE_FUNCTION, false) in
  exists tb tm,
    snd (commitDDL_action (H := Demo.demo) true i currentSql
           (Demo.world Demo.backupExecFault) [])
    = [Call _ (UpdateExecuteSqlStatus (E_BaseSQL currentSql) SQLExecuteStatusDoing "")
            ((SQLExecuteStatusDoing, ""), None);
       Call _ (GetProcedureFunctionBackupSql i (Content (E_BaseSQL currentSql)))
            (i, inl ["CREATE PROCEDURE p() BEGIN SELECT 0; END"])]
      ++ tb ++ tm
    /\ backupShape ["CREATE PROCEDURE p() BEGIN SELECT 0; END"] tb
    /\ commitDDLArgs tm
       = [setExec (SQLExecuteStatusDoing, "") (E_BaseSQL currentSql)].
Proof.
  intros currentSql i.
  exact (proj1 (backup_failures_logged_not_returned
                  (H := Demo.demo) (Demo.world Demo.backupExecFault) [] i currentSql
                  (SQLExecuteStatusDoing, "") i
                  (inl ["CREATE PROCEDURE p() BEGIN SELECT 0; END"])
                  Demo.procedureTask eq_refl eq_refl)).
Defined.

(** A rollback asked for the initialized task 1 is refused, the guard is
    released and nothing is queued. *)
Lemma addTask_validation_failure_releases_guard_witness :
  let r := run (H := Demo.demo) (Demo.world Demo.noFaults)
               (addTask InitSqled "1" TASK_ACTION_ROLLBACK) in
  snd (fst r) = Some Demo.notAllowed
  /\ ("1" ∉ currentTask (fst (fst (fst r))))
  /\ queue (fst (fst (fst r))) = [].
Proof.
  destruct (addTask_validation_failure_releases_guard
              (H := Demo.demo) (Demo.world Demo.noFaults) InitSqled "1"
              TASK_ACTION_ROLLBACK)
    as [_ Hrefused]; [apply not_elem_of_empty|].
  destruct (Hrefused Demo.mixedTask Demo.notAllowed eq_refl eq_refl)
    as (Herr & Hfree & _ & Hq & _).
  split; [exact Herr|]. split; [exact Hfree|exact Hq].
Defined.

(** ** Further runs *)

Example unknown_task_is_refused :
  snd (fst (run (H := Demo.demo) (Demo.world Demo.noFaults)
                (addTask InitSqled "9" TASK_ACTION_AUDIT)))
  = Some (CodeError TASK_NOT_EXIST "task not exist").
Proof. reflexivity. Qed.

Example backup_exec_failure_runs_main_statement :
  map Content
      (commitDDLArgs (snd (run (H := Demo.demo) (Demo.world Demo.backupExecFault)
                               (commit Demo.procedureTask))))
  = ["CREATE PROCEDURE p() BEGIN SELECT 0; END";
     "CREATE PROCEDURE p() BEGIN SELECT 1; END"].
Proof. reflexivity. Qed.

Example procedure_rollback_runs_nothing :
  let r := run (H := Demo.demo) (Demo.world Demo.noFaults)
               (rollback Demo.executedProcedureTask) in
  existsb isExec (snd r) = false /\ snd (fst r) = None.
Proof. split; reflexivity. Qed.

Example dml_commit_succeeds :
  lastStatusSet 2 (snd (run (H := Demo.demo) (Demo.world Demo.noFaults)
                            (commit Demo.dmlTask)))
  = Some TaskStatusExecuteSucceeded.
Proof. reflexivity. Qed.

Example keyword_lower_case :
  SqlserverProtoServer.IsReserveredKeyword "select" = true.
Proof. reflexivity. Qed.

Example keyword_mixed_case :
  SqlserverProtoServer.IsReserveredKeyword "Current_Date" = true.
Proof. reflexivity. Qed.

Example not_a_keyword :
  SqlserverProtoServer.IsReserveredKeyword "selects" = false.
Proof. reflexivity. Qed.

Example keyword_rule_on_create_table :
  let v := {| SqlserverProtoServer.Level := 2%nat;
              SqlserverProtoServer.Message := "keyword: ";
              SqlserverProtoServer.Names := [] |} in
  let statement :=
    SqlserverProtoServer.CreateTableStatement "Order"
      {| SqlserverProtoServer.ColumnDefinitions :=
           [ {| SqlserverProtoServer.ColumnIdentifier := "id";
                SqlserverProtoServer.Constraints := [] |};
             {| SqlserverProtoServer.ColumnIdentifier := "key";
                SqlserverProtoServer.Constraints := [] |} ];
         SqlserverProtoServer.Indexes := [];
         SqlserverProtoServer.TableConstraints := [] |} in
  SqlserverProtoServer.Check String.append v [] statement
  = Some (v, [(2%nat, "keyword: Order,key")]).
Proof. reflexivity. Qed.

(* ===================================================================== *)
(** * Further properties: the object-name rules of the SQL Server backend *)
(* ===================================================================== *)

Section ObjectNameFacts.

Lemma GetNamesFromConstraints_app (names : list string)
    (constraints : list SqlserverProtoServer.ConstraintDefinition) :
  SqlserverProtoServer.GetNamesFromConstraints names constraints
  = names ++ omap SqlserverProtoServer.ConstraintIdentifier constraints.
Proof.
  unfold SqlserverProtoServer.GetNamesFromConstraints.
  revert names. induction constraints as [|c cs IH]; intros names; simpl.
  - now rewrite app_nil_r.
  - rewrite IH. destruct (SqlserverProtoServer.ConstraintIdentifier c); simpl.
    + now rewrite <- app_assoc.
    + reflexivity.
Qed.

Lemma column_names_app (names : list string)
    (columns : list SqlserverProtoServer.ColumnDefinition) :
  fold_left (fun names columnDefinition =>
               SqlserverProtoServer.GetNamesFromConstraints
                 (names ++ [SqlserverProtoServer.ColumnIdentifier columnDefinition])
                 (SqlserverProtoServer.Constraints columnDefinition))
            columns names
  = names ++ flat_map (fun column =>
                         SqlserverProtoServer.ColumnIdentifier column
                         :: omap SqlserverProtoServer.ConstraintIdentifier
                                 (SqlserverProtoServer.Constraints column))
                      columns.
Proof.
  revert names. induction columns as [|c cs IH]; intros names; simpl.
  - now rewrite app_nil_r.
  - rewrite IH, GetNamesFromConstraints_app.
    now rewrite <- !app_assoc.
Qed.

Lemma index_names_app (names : list string)
    (indexes : list SqlserverProtoServer.IndexDefinition) :
  fold_left (fun names index => names ++ [SqlserverProtoServer.IndexName index])
            indexes names
  = names ++ map SqlserverProtoServer.IndexName indexes.
Proof.
  revert names. induction indexes as [|x xs IH]; intros names; simpl.
  - now rewrite app_nil_r.
  - rewrite IH. now rewrite <- app_assoc.
Qed.

Lemma GetNamesFromTableDefinition_app (names : list string)
    (tableDefinition : SqlserverProtoServer.TableDefinition) :
  SqlserverProtoServer.GetNamesFromTableDefinition names tableDefinition
  = names
    ++ flat_map (fun column =>
                   SqlserverProtoServer.ColumnIdentifier column
                   :: omap SqlserverProtoServer.ConstraintIdentifier
                           (SqlserverProtoServer.Constraints column))
                (SqlserverProtoServer.ColumnDefinitions tableDefinition)
    ++ map SqlserverProtoServer.IndexName
           (SqlserverProtoServer.Indexes tableDefinition)
    ++ omap SqlserverProtoServer.ConstraintIdentifier
            (SqlserverProtoServer.TableConstraints tableDefinition).
Proof.
  unfold SqlserverProtoServer.GetNamesFromTableDefinition.
  rewrite GetNamesFromConstraints_app, index_names_app, column_names_app.
  now rewrite <- !app_assoc.
Qed.

Lemma MaxLength_loop_existsb {RULE_LEVEL : Type} (GetMessage0 : string -> string)
    (v : SqlserverProtoServer.Validator RULE_LEVEL)
    (context : SqlserverProtoServer.AdviseResultContext) (names : list string) :
  SqlserverProtoServer.MaxLength_loop GetMessage0 v context names
  = if existsb (fun name => (64 <? String.length name)%nat) names
    then context ++ [(SqlserverProtoServer.Level v,
                      GetMessage0 (SqlserverProtoServer.Message v))]
    else context.
Proof.
  induction names as [|name names IH]; simpl; [reflexivity|].
  destruct (64 <? String.length name)%nat; [reflexivity|exact IH].
Qed.

End ObjectNameFacts.

(** X1.  The names a table definition introduces, in the order they are
    collected: after the names already collected, every column's name
    followed by the names of its named constraints, then the index names,
    then the names of the named table constraints; a constraint without
    identifier contributes nothing. *)
Theorem table_definition_names_in_order :
  forall (names : list string)
         (constraints : list SqlserverProtoServer.ConstraintDefinition)
         (tableDefinition : SqlserverProtoServer.TableDefinition),
    SqlserverProtoServer.GetNamesFromConstraints names constraints
    = names ++ omap SqlserverProtoServer.ConstraintIdentifier constraints
    /\ SqlserverProtoServer.GetNamesFromTableDefinition names tableDefinition
       = names
         ++ flat_map (fun column =>
                        SqlserverProtoServer.ColumnIdentifier column
                        :: omap SqlserverProtoServer.ConstraintIdentifier
                                (SqlserverProtoServer.Constraints column))
                     (SqlserverProtoServer.ColumnDefinitions tableDefinition)
         ++ map SqlserverProtoServer.IndexName
                (SqlserverProtoServer.Indexes tableDefinition)
         ++ omap SqlserverProtoServer.ConstraintIdentifier
                 (SqlserverProtoServer.TableConstraints tableDefinition).
Proof.
  intros names constraints tableDefinition.
  split; [apply GetNamesFromConstraints_app|apply GetNamesFromTableDefinition_app].
Qed.


(** EXEC of a procedure held in a variable: collecting the names raises. *)
Example exec_through_variable_raises :
  SqlserverProtoServer.ObjectNameRuleValidator_Check []
    (SqlserverProtoServer.ExecuteStatement
       (SqlserverProtoServer.ExecutableProcedureReference
          (Some {| SqlserverProtoServer.InnerProcedureReference := None |}) []))
  = None.
Proof. reflexivity. Qed.

(** X3.  A longer-than-64 name in a statement makes the length rule report
    once, however many names are too long; names of 64 characters or
    fewer report nothing; in both cases [Names] is empty afterwards and
    the rule's level and message are kept.  When collecting the names
    raises, nothing is reported. *)
Theorem max_length_rule_reports_once :
  forall (RULE_LEVEL : Type) (GetMessage0 : string -> string)
         (v : SqlserverProtoServer.Validator RULE_LEVEL)
         (context : SqlserverProtoServer.AdviseResultContext)
         (statement : SqlserverProtoServer.TSqlStatement),
    match SqlserverProtoServer.ObjectNameRuleValidator_Check
            (SqlserverProtoServer.Names v) statement with
    | None =>
        SqlserverProtoServer.MaxLength_Check GetMessage0 v context statement = None
    | Some names =>
        exists v' context',
          SqlserverProtoServer.MaxLength_Check GetMessage0 v context statement
          = Some (v', context')
          /\ SqlserverProtoServer.Names v' = []
          /\ SqlserverProtoServer.Level v' = SqlserverProtoServer.Level v
          /\ SqlserverProtoServer.Message v' = SqlserverProtoServer.Message v
          /\ (Exists (fun name => (64 < String.length name)%nat) names ->
              context' = context ++ [(SqlserverProtoServer.Level v,
                                      GetMessage0 (SqlserverProtoServer.Message v))])
          /\ (Forall (fun name => (String.length name <= 64)%nat) names ->
              context' = context)
    end.
Proof.
  intros RULE_LEVEL GetMessage0 v context statement.
  unfold SqlserverProtoServer.MaxLength_Check.
  destruct (SqlserverProtoServer.ObjectNameRuleValidator_Check _ _) as [names|];
    [|reflexivity].
  eexists _, _. split; [reflexivity|].
  split; [reflexivity|]. split; [reflexivity|]. split; [reflexivity|].
  rewrite MaxLength_loop_existsb.
  destruct (existsb _ names) eqn:Hex.
  - split; [reflexivity|]. intros Hall.
    apply existsb_exists in Hex as (name & Hin & Hlong).
    rewrite List.Forall_forall in Hall. apply Hall in Hin.
    apply Nat.ltb_lt in Hlong. lia.
  - split; [|reflexivity]. intros Hsome.
    apply List.Exists_exists in Hsome as (name & Hin & Hlong).
    assert (Hex' : existsb (fun name => (64 <? String.length name)%nat) names = true).
    { apply existsb_exists. exists name. split; [exact Hin|].
      now apply Nat.ltb_lt. }
    congruence.
Qed.

(** A table with two over-long column names gets one report. *)
Example max_length_two_long_names :
  let long := String.concat "" (repeat "abcdefgh" 9) in
  let statement :=
    SqlserverProtoServer.CreateTableStatement "t"
      {| SqlserverProtoServer.ColumnDefinitions :=
           [ {| SqlserverProtoServer.ColumnIdentifier := long;
                SqlserverProtoServer.Constraints := [] |};
             {| SqlserverProtoServer.ColumnIdentifier := long ++ "x";
                SqlserverProtoServer.Constraints := [] |} ];
         SqlserverProtoServer.Indexes := [];
         SqlserverProtoServer.TableConstraints := [] |} in
  option_map snd
    (SqlserverProtoServer.MaxLength_Check (fun m => m)
       {| SqlserverProtoServer.Level := 1%nat;
          SqlserverProtoServer.Message := "too long";
          SqlserverProtoServer.Names := [] |} [] statement)
  = Some [(1%nat, "too long")].
Proof. reflexivity. Qed.

(* ===================================================================== *)
(** * Further properties: the task API *)
(* ===================================================================== *)

Section ApiFacts.

Lemma appendExecuteSQLs_imap (nodes : list Node) :
  forall (executeSQLs : list ExecuteSQL) (n : nat),
    V1.appendExecuteSQLs executeSQLs n nodes
    = executeSQLs ++ imap (fun k => V1.newExecuteSQL (n + k)) nodes.
Proof.
  induction nodes as [|node rest IH]; intros executeSQLs n; simpl.
  - now rewrite app_nil_r.
  - rewrite IH, <- app_assoc. simpl. rewrite Nat.add_0_r.
    do 2 f_equal. apply imap_ext. intros k x _. simpl.
    f_equal. lia.
Qed.

Lemma imap_seq_numbers (nodes : list Node) :
  forall n,
    map (fun sql => Number (E_BaseSQL sql))
        (imap (fun k => V1.newExecuteSQL (n + k)) nodes)
    = map N.of_nat (seq (S n) (length nodes)).
Proof.
  induction nodes as [|node rest IH]; intros n; simpl; [reflexivity|].
  rewrite Nat.add_0_r. f_equal; [f_equal; lia|].
  rewrite <- IH. f_equal. apply imap_ext. intros k x _. simpl.
  f_equal. lia.
Qed.

Lemma imap_contents (nodes : list Node) :
  forall n,
    map (fun sql => Content (E_BaseSQL sql))
        (imap (fun k => V1.newExecuteSQL (n + k)) nodes)
    = map Text nodes.
Proof.
  induction nodes as [|node rest IH]; intros n; simpl; [reflexivity|].
  f_equal. rewrite <- (IH (S n)). f_equal. apply imap_ext. intros k x _.
  simpl. f_equal. lia.
Qed.

(** *** [strings.TrimRight] with the cutset ";" *)

Lemma append_nil_l (s : string) : ("" ++ s)%string = s.
Proof. reflexivity. Qed.

Lemma append_cons (c : ascii) (s t : string) :
  (String c s ++ t)%string = String c (s ++ t)%string.
Proof. reflexivity. Qed.

Lemma append_nil_r (s : string) : (s ++ "")%string = s.
Proof. induction s as [|c s IH]; [reflexivity|]. now rewrite append_cons, IH. Qed.

Lemma append_assoc (a b c : string) :
  ((a ++ b) ++ c)%string = (a ++ b ++ c)%string.
Proof.
  induction a as [|x a IH]; [reflexivity|]. now rewrite !append_cons, IH.
Qed.

Lemma TrimRight_semicolon_cons (c : ascii) (s : string) :
  V1.TrimRight (String c s) ";"
  = match V1.TrimRight s ";" with
    | EmptyString => if Ascii.eqb c ";" then EmptyString else String c EmptyString
    | t => String c t
    end.
Proof.
  simpl. destruct (V1.TrimRight s ";"); [|reflexivity].
  now rewrite orb_false_r.
Qed.

Lemma TrimRight_append_semicolon (s : string) :
  V1.TrimRight (s ++ ";") ";" = V1.TrimRight s ";".
Proof.
  induction s as [|c s IH].
  - reflexivity.
  - rewrite append_cons. now rewrite !TrimRight_semicolon_cons, IH.
Qed.

Lemma TrimRight_no_trailing_semicolon (s : string) :
  forall t, V1.TrimRight s ";" <> (t ++ ";")%string.
Proof.
  induction s as [|c s IH]; intros t.
  - change (V1.TrimRight "" ";") with "".
    destruct t; [rewrite append_nil_l|rewrite append_cons]; discriminate.
  - rewrite TrimRight_semicolon_cons.
    destruct (V1.TrimRight s ";") as [|c' t'] eqn:Htrim.
    + destruct (Ascii.eqb c ";") eqn:Hc.
      * destruct t; [rewrite append_nil_l|rewrite append_cons]; discriminate.
      * destruct t as [|c0 t0]; [rewrite append_nil_l|rewrite append_cons].
        -- intros Heq. injection Heq as ->. now rewrite Ascii.eqb_refl in Hc.
        -- intros Heq. injection Heq as _ Heq.
           destruct t0; [rewrite append_nil_l in Heq|rewrite append_cons in Heq];
             discriminate.
    + destruct t as [|c0 t0]; [rewrite append_nil_l|rewrite append_cons].
      * discriminate.
      * intros Heq. injection Heq as _ Heq. exact (IH t0 Heq).
Qed.

Lemma TrimRight_suffix (s : string) :
  exists k : nat,
    s = (V1.TrimRight s ";"
         ++ string_of_list_ascii (repeat ";"%char k))%string.
Proof.
  induction s as [|c s [k IH]].
  - now exists 0%nat.
  - rewrite TrimRight_semicolon_cons.
    destruct (V1.TrimRight s ";") as [|c' t'] eqn:Htrim.
    + rewrite append_nil_l in IH. destruct (Ascii.eqb c ";") eqn:Hc.
      * apply Ascii.eqb_eq in Hc. subst c. exists (S k).
        rewrite append_nil_l. simpl. now f_equal.
      * exists k. rewrite append_cons, append_nil_l. now f_equal.
    + exists k. rewrite append_cons. now f_equal.
Qed.

Lemma body_acc (sqls : list string) :
  forall buff : string,
    fold_left (fun buff sql => buff ++ V1.TrimRight sql ";" ++ ";" ++ V1.LF)%string
              sqls buff
    = (buff ++ String.concat ""
                 (map (fun sql => V1.TrimRight sql ";" ++ ";" ++ V1.LF)%string
                      sqls))%string.
Proof.
  induction sqls as [|sql rest IH]; intros buff; simpl.
  - now rewrite append_nil_r.
  - rewrite IH, append_assoc. f_equal.
    destruct rest as [|sql' rest']; simpl.
    + now rewrite append_nil_r.
    + now rewrite append_nil_l.
Qed.

End ApiFacts.

(** X4.  The statements of a newly created task are the parsed nodes in parse
    order: the k-th (from 0) carries the number k+1 and the text of the
    k-th node and nothing else, so the numbers are 1, 2, ..., n without
    repetition. *)
Theorem new_task_statements_numbered_from_one :
  forall nodes : list Node,
    V1.createTask_ExecuteSQLs nodes = imap V1.newExecuteSQL nodes
    /\ length (V1.createTask_ExecuteSQLs nodes) = length nodes
    /\ map (fun sql => Number (E_BaseSQL sql)) (V1.createTask_ExecuteSQLs nodes)
       = map N.of_nat (seq 1 (length nodes))
    /\ map (fun sql => Content (E_BaseSQL sql)) (V1.createTask_ExecuteSQLs nodes)
       = map Text nodes
    /\ NoDup (map (fun sql => Number (E_BaseSQL sql))
                  (V1.createTask_ExecuteSQLs nodes)).
Proof.
  intros nodes. unfold V1.createTask_ExecuteSQLs.
  rewrite appendExecuteSQLs_imap. simpl.
  split; [reflexivity|].
  split; [now rewrite length_imap|].
  pose proof (imap_seq_numbers nodes 0) as Hnum. simpl in Hnum.
  split; [exact Hnum|].
  split; [exact (imap_contents nodes 0)|].
  rewrite Hnum. change (NoDup (N.of_nat <$> seq 1 (length nodes))).
  apply NoDup_fmap_2; [|apply NoDup_seq].
  intros a b Hab. lia.
Qed.

(** X5.  The page offset handed to the store, for a page index and a page
    size that are [uint32] values: it is a [uint32]; the page indexes 0
    and 1 both start at 0; as long as the product fits in 32 bits it is
    the page size times the number of pages before, and in general each
    page starts one page size after the one before, modulo 2^32. *)
Theorem page_offset_wraps (req next : V1.GetTaskSQLsReqV1) :
  (0 <= V1.PageIndex req < 2 ^ 32)%Z ->
  (0 <= V1.PageSize req < 2 ^ 32)%Z ->
  V1.PageSize next = V1.PageSize req ->
  V1.PageIndex next = (V1.PageIndex req + 1)%Z ->
  (0 <= V1.offset req < 2 ^ 32)%Z
  /\ (V1.PageIndex req <= 1 -> V1.offset req = 0)%Z
  /\ (1 <= V1.PageIndex req ->
      V1.PageSize req * (V1.PageIndex req - 1) < 2 ^ 32 ->
      V1.offset req = V1.PageSize req * (V1.PageIndex req - 1))%Z
  /\ (1 <= V1.PageIndex req -> V1.PageIndex next < 2 ^ 32 ->
      V1.offset next = V1.uint32 (V1.offset req + V1.PageSize req))%Z.
Proof.
  intros Hindex Hsize Hsame Hnext. unfold V1.offset, V1.uint32.
  rewrite Hsame, Hnext.
  split; [|split; [|split]].
  - destruct (1 <=? V1.PageIndex req)%Z; [apply Z.mod_pos_bound|]; lia.
  - intros Hle. destruct (1 <=? V1.PageIndex req)%Z eqn:Hone; [|reflexivity].
    apply Z.leb_le in Hone.
    replace (V1.PageIndex req) with 1%Z by lia. simpl.
    now rewrite Z.mul_0_r.
  - intros Hone Hfits. apply Z.leb_le in Hone as Hb. rewrite Hb.
    rewrite (Z.mod_small (V1.PageIndex req - 1)) by lia.
    apply Z.mod_small. nia.
  - intros Hone Hlt. apply Z.leb_le in Hone as Hb. rewrite Hb.
    assert (Hb' : (1 <=? V1.PageIndex req + 1)%Z = true) by (apply Z.leb_le; lia).
    rewrite Hb'.
    rewrite (Z.mod_small (V1.PageIndex req - 1)) by lia.
    rewrite (Z.mod_small (V1.PageIndex req + 1 - 1)) by lia.
    rewrite Z.add_mod_idemp_l by lia. f_equal. lia.
Qed.

(** Page 3 of pages of 20 rows starts at row 40, page 4 at row 60. *)
Lemma page_offset_wraps_witness :
  let req := {| V1.FilterExecStatus := ""; V1.FilterAuditStatus := "";
                V1.NoDuplicate := false; V1.PageIndex := 3; V1.PageSize := 20 |} in
  let next := {| V1.FilterExecStatus := ""; V1.FilterAuditStatus := "";
                 V1.NoDuplicate := false; V1.PageIndex := 4; V1.PageSize := 20 |} in
  V1.offset req = 40%Z /\ V1.offset next = V1.uint32 (V1.offset req + 20)%Z.
Proof.
  intros req next.
  destruct (page_offset_wraps req next) as (_ & _ & Hfits & Hstep);
    [simpl; lia|simpl; lia|reflexivity|reflexivity|].
  split; [apply Hfits; simpl; lia|apply Hstep; simpl; lia].
Defined.

(** With pages of 65536 rows the page 65537 starts at row 0 again. *)
Example page_offset_overflow :
  V1.offset {| V1.FilterExecStatus := ""; V1.FilterAuditStatus := "";
               V1.NoDuplicate := false;
               V1.PageIndex := 65537; V1.PageSize := 65536 |} = 0%Z.
Proof. reflexivity. Qed.

(** X6.  The downloaded SQL file holds, for every statement in order, the
    statement without its trailing semicolons followed by one semicolon
    and a line feed.  What is cut is semicolons only and all of them, so
    a statement has the same line whether it was stored with a trailing
    semicolon or not, and a task without statements gives an empty
    file. *)
Theorem sql_file_one_semicolon_per_statement :
  forall sqls : list string,
    V1.DownloadTaskSQLFile_body sqls
    = String.concat ""
        (map (fun sql => V1.TrimRight sql ";" ++ ";" ++ V1.LF)%string sqls)
    /\ (forall sql,
           (exists k : nat,
               sql = (V1.TrimRight sql ";"
                      ++ string_of_list_ascii (repeat ";"%char k))%string)
           /\ (forall t, V1.TrimRight sql ";" <> (t ++ ";")%string)
           /\ V1.TrimRight (sql ++ ";") ";" = V1.TrimRight sql ";")
    /\ V1.DownloadTaskSQLFile_body (map (fun sql => sql ++ ";")%string sqls)
       = V1.DownloadTaskSQLFile_body sqls
    /\ V1.DownloadTaskSQLFile_body [] = "".
Proof.
  intros sqls. unfold V1.DownloadTaskSQLFile_body.
  split; [exact (body_acc sqls "")|].
  split.
  { intros sql. split; [apply TrimRight_suffix|].
    split; [apply TrimRight_no_trailing_semicolon|apply TrimRight_append_semicolon]. }
  split; [|reflexivity].
  rewrite !body_acc, map_map. do 2 f_equal.
  apply map_ext. intros sql. now rewrite TrimRight_append_semicolon.
Qed.

Example sql_file_two_statements :
  V1.DownloadTaskSQLFile_body ["select 1;"; "delete from t where id = 1;;"]
  = ("select 1;" ++ V1.LF ++ "delete from t where id = 1;" ++ V1.LF)%string.
Proof. reflexivity. Qed.

(* ===================================================================== *)
(** * Further properties: the scheduler *)
(* ===================================================================== *)

Section GuardFacts.

Context `{Collaborators}.

Lemma addTask_accepts (o : Oracle) (s : Sqled) (taskId : string)
    (typ : ActionTyp) (task : Task) :
  taskId ∉ currentTask s ->
  o _ [] (GetTaskDetailById taskId) = inl (Some task) ->
  ValidAction task typ = None ->
  let action := {| A_Task := Some task; Typ := typ; Error := None |} in
  run o (addTask s taskId typ)
  = ({| currentTask := {[taskId]} ∪ currentTask s; queue := queue s ++ [action] |},
     action, None,
     [Call _ (GetTaskDetailById taskId) (inl (Some task))]).
Proof.
  intros Hfree Hans Hvalid action. unfold run, addTask, addTask_lock.
  rewrite (bool_decide_eq_false_2 _ Hfree).
  rewrite run_bind, run_call, Hans. unfold addTask_validate. rewrite Hvalid.
  reflexivity.
Qed.

Lemma addTask_running (o : Oracle) (s : Sqled) (taskId : string)
    (typ : ActionTyp) :
  taskId ∈ currentTask s ->
  run o (addTask s taskId typ)
  = (s, {| A_Task := None; Typ := typ; Error := None |},
     Some taskRunningError, []).
Proof.
  intros Hbusy. unfold run, addTask, addTask_lock.
  rewrite (bool_decide_eq_true_2 _ Hbusy). reflexivity.
Qed.

Lemma do_with_task (o : Oracle) (h : list Entry) (s : Sqled) (action : Action)
    (task : Task) :
  A_Task action = Some task ->
  exists action' err,
    fst (do s action o h)
    = Some (deleteTask s (Sprintf_d (ID task)), action', err)
    /\ Typ action' = Typ action
    /\ (err = None -> Error action' = Error action)
    /\ (err <> None -> Error action' = err).
Proof.
  intros Htask. unfold do. rewrite Htask, run_bind.
  pose proof (do_switch_keeps_ID o h task (Typ action)) as Hid.
  destruct (do_switch task (Typ action) o h) as [[task' err] h'].
  simpl in Hid. rewrite run_ret, Hid. simpl.
  eexists _, err. split; [reflexivity|]. split; [reflexivity|].
  destruct err; simpl; split; congruence.
Qed.

(** One step of the scheduler keeps actions with a task and without
    error in the queue and among the started ones. *)
Lemma step_keeps_tasks (s s' : Sched) (l : Label) :
  Forall (fun action => A_Task action <> None /\ Error action = None)
         (queue (sqled s) ++ running s) ->
  step s l = Some s' ->
  Forall (fun action => A_Task action <> None /\ Error action = None)
         (queue (sqled s') ++ running s').
Proof.
  intros Hall Hstep. apply Forall_app in Hall as [Hq Hr].
  destruct l as [taskId typ|k r| |k o]; simpl in Hstep.
  - injection Hstep as <-. simpl. apply Forall_app. split; [|exact Hr].
    destruct (bool_decide (taskId ∈ currentTask (sqled s))); exact Hq.
  - destruct (pending s !! k) as [[taskId typ]|]; [|discriminate].
    injection Hstep as <-. simpl. apply Forall_app. split; [|exact Hr].
    destruct (addTask_validate r typ) as [task|err]; simpl; [|exact Hq].
    apply Forall_app. split; [exact Hq|].
    constructor; [|constructor]. simpl. split; [discriminate|reflexivity].
  - destruct (queue (sqled s)) as [|action rest]; [discriminate|].
    injection Hstep as <-. simpl. apply Forall_cons in Hq as [Ha Hrest].
    apply Forall_app. split; [exact Hrest|].
    apply Forall_app. split; [exact Hr|]. constructor; [exact Ha|constructor].
  - destruct (running s !! k) as [action|] eqn:Hk; [|discriminate].
    destruct (fst (run o (do (sqled s) action))) as [[[sq a] e]|] eqn:Hdo;
      [|discriminate].
    injection Hstep as <-. simpl.
    apply do_deletes in Hdo as [-> _]. simpl.
    apply Forall_app. split; [exact Hq|]. now apply Forall_delete.
Qed.

Lemma steps_keep_tasks (ls : list Label) :
  forall s s' : Sched,
    Forall (fun action => A_Task action <> None /\ Error action = None)
           (queue (sqled s) ++ running s) ->
    steps s ls = Some s' ->
    Forall (fun action => A_Task action <> None /\ Error action = None)
           (queue (sqled s') ++ running s').
Proof.
  induction ls as [|l ls IH]; intros s s' Hall Hsteps; simpl in Hsteps.
  - now injection Hsteps as <-.
  - destruct (step s l) as [s1|] eqn:Hstep; [|discriminate].
    apply (IH s1 s'); [|exact Hsteps].
    now apply (step_keeps_tasks s s1 l).
Qed.

End GuardFacts.

(** X7.  An action is accepted and then run: [addTask] on an id with no action
    under way, for which the store has a task that allows the action,
    puts the id in [currentTask] and queues one action that carries the
    task; [do] on that action, whatever its workflow returns, deletes
    from [currentTask] the decimal rendering of the task's ID.  When the
    id asked for is that rendering, [currentTask] is as before the call;
    when it is another string, the id asked for stays in [currentTask]
    and every later [addTask] on it is refused with TASK_RUNNING. *)
Theorem guard_released_under_rendered_id `{Collaborators}
    (o o' : Oracle) (s : Sqled) (taskId : string) (typ : ActionTyp)
    (task : Task) :
  taskId ∉ currentTask s ->
  o _ [] (GetTaskDetailById taskId) = inl (Some task) ->
  ValidAction task typ = None ->
  exists s1 action,
    fst (run o (addTask s taskId typ)) = (s1, action, None)
    /\ A_Task action = Some task /\ Typ action = typ
    /\ queue s1 = queue s ++ [action]
    /\ HasTask s1 taskId = true
    /\ exists s2 action' err,
        fst (run o' (do s1 action)) = Some (s2, action', err)
        /\ currentTask s2
            = ({[taskId]} ∪ currentTask s) ∖ {[Sprintf_d (ID task)]}
        /\ (Sprintf_d (ID task) = taskId -> currentTask s2 = currentTask s)
        /\ (Sprintf_d (ID task) <> taskId ->
            HasTask s2 taskId = true
            /\ forall (o'' : Oracle) (typ' : ActionTyp),
                snd (fst (run o'' (addTask s2 taskId typ')))
                = Some taskRunningError).
Proof.
  intros Hfree Hans Hvalid.
  pose proof (addTask_accepts o s taskId typ task Hfree Hans Hvalid) as Hadd.
  cbv zeta in Hadd. rewrite Hadd. simpl.
  eexists _, _. split; [reflexivity|]. split; [reflexivity|].
  split; [reflexivity|]. split; [reflexivity|].
  split.
  { unfold HasTask. simpl. apply bool_decide_eq_true_2.
    apply elem_of_union. left. now apply elem_of_singleton. }
  match goal with
  | |- context [do ?s1 ?a] =>
      destruct (do_with_task o' [] s1 a task eq_refl) as (action' & err & Hdo & _)
  end.
  exists (deleteTask
            {| currentTask := {[taskId]} ∪ currentTask s;
               queue := queue s ++ [{| A_Task := Some task; Typ := typ;
                                       Error := None |}] |}
            (Sprintf_d (ID task))), action', err.
  split; [exact Hdo|]. simpl. split; [reflexivity|]. split.
  - intros Heq. rewrite Heq. apply set_eq. intros x.
    rewrite elem_of_difference, elem_of_union, elem_of_singleton.
    split; [intros [[->|Hx] Hne]; [contradiction|exact Hx]|].
    intros Hx. split; [now right|]. intros ->. contradiction.
  - intros Hne.
    assert (Hin : taskId ∈ ({[taskId]} ∪ currentTask s) ∖ {[Sprintf_d (ID task)]}).
    { rewrite elem_of_difference, elem_of_union, !elem_of_singleton.
      split; [now left|]. intros Heq. now apply Hne. }
    split; [unfold HasTask; simpl; now apply bool_decide_eq_true_2|].
    intros o'' typ'. now rewrite addTask_running.
Qed.

(** Task 2 is committed under the id "2": the guard is back to empty. *)
Lemma guard_released_under_rendered_id_witness :
  exists s1 action s2 action' err,
    fst (run (H := Demo.demo) (Demo.world Demo.noFaults)
             (addTask InitSqled "2" TASK_ACTION_EXECUTE)) = (s1, action, None)
    /\ fst (run (Demo.world Demo.noFaults) (do s1 action))
       = Some (s2, action', err)
    /\ currentTask s2 = currentTask InitSqled.
Proof.
  destruct (guard_released_under_rendered_id (H := Demo.demo)
              (Demo.world Demo.noFaults) (Demo.world Demo.noFaults)
              InitSqled "2" TASK_ACTION_EXECUTE Demo.dmlTask)
    as (s1 & action & Hadd & _ & _ & _ & _ & s2 & action' & err & Hdo & _ & Hsame & _).
  - apply not_elem_of_empty.
  - reflexivity.
  - reflexivity.
  - exists s1, action, s2, action', err.
    split; [exact Hadd|]. split; [exact Hdo|]. apply Hsame. reflexivity.
Defined.

(** X8.  In every execution of the scheduler from its initial state, the
    actions in the queue and the actions started carry a task and no
    error, so [do] never meets an action without task: every started
    action can finish, whatever the world answers, and finishing it
    removes it from the started ones and touches neither the queue nor
    the pending calls. *)
Theorem started_actions_carry_a_task `{Collaborators}
    (ls : list Label) (s : Sched) :
  steps initSched ls = Some s ->
  Forall (fun action => A_Task action <> None /\ Error action = None)
         (queue (sqled s) ++ running s)
  /\ forall (k : nat) (action : Action) (o : Oracle),
      running s !! k = Some action ->
      exists s',
        step s (LFinish k o) = Some s'
        /\ running s' = delete k (running s)
        /\ queue (sqled s') = queue (sqled s)
        /\ pending s' = pending s.
Proof.
  intros Hsteps.
  assert (Hall : Forall (fun action => A_Task action <> None /\ Error action = None)
                        (queue (sqled s) ++ running s)).
  { apply (steps_keep_tasks ls initSched s); [constructor|exact Hsteps]. }
  split; [exact Hall|].
  intros k action o Hk. simpl. rewrite Hk.
  apply Forall_app in Hall as [_ Hr].
  rewrite Forall_lookup in Hr. destruct (Hr k action Hk) as [Htask _].
  destruct (A_Task action) as [task|] eqn:Ha; [|contradiction].
  destruct (do_with_task o [] (sqled s) action task Ha) as (action' & err & Hdo & _).
  unfold run. rewrite Hdo. eexists. split; [reflexivity|].
  simpl. repeat split; reflexivity.
Qed.

(** Task 2 is accepted, started and finished. *)
Lemma started_actions_carry_a_task_witness :
  let ls := [LEnter "2" TASK_ACTION_AUDIT;
             LValidate 0 (inl (Some Demo.dmlTask));
             LDispatch] in
  exists s s',
    steps (H := Demo.demo) initSched ls = Some s
    /\ step s (LFinish 0 (Demo.world Demo.noFaults)) = Some s'
    /\ running s' = [].
Proof.
  intros ls. eexists.
  destruct (started_actions_carry_a_task (H := Demo.demo) ls _ eq_refl)
    as [_ Hfinish].
  destruct (Hfinish 0%nat _ (Demo.world Demo.noFaults) eq_refl)
    as (s' & Hstep & Hrun & _).
  exists s'. split; [reflexivity|]. split; [exact Hstep|exact Hrun].
Defined.

Section RenderingFacts.

Lemma Sprintf_d_inj (a b : N) : Sprintf_d a = Sprintf_d b -> a = b.
Proof.
  unfold Sprintf_d. intros Heq.
  assert (Hnn : forall n : N, N.to_uint n <> Decimal.Nil).
  { intros [|p]; simpl; [discriminate|].
    intros Hnil. pose proof (DecimalPos.Unsigned.of_to p) as Hof.
    rewrite Hnil in Hof. discriminate Hof. }
  apply DecimalN.Unsigned.to_uint_inj.
  pose proof (NilZero.usu _ (Hnn a)) as Ha.
  pose proof (NilZero.usu _ (Hnn b)) as Hb.
  rewrite Heq in Ha. congruence.
Qed.

End RenderingFacts.

(** X9.  The key under which an action is guarded, the decimal rendering of
    its task's ID, is different for different IDs.  So an action under
    way for one task does not stand in the way of another task: with the
    first accepted under its rendered id, [HasTask] is false for the
    rendered id of the other, and [addTask] on it gets past the guard and
    asks the store. *)
Theorem guard_keys_distinguish_tasks `{Collaborators} :
  (forall a b : N, Sprintf_d a = Sprintf_d b -> a = b)
  /\ forall (o o' : Oracle) (s : Sqled) (task : Task) (other : N)
            (typ typ' : ActionTyp),
      ID task <> other ->
      Sprintf_d (ID task) ∉ currentTask s ->
      Sprintf_d other ∉ currentTask s ->
      o _ [] (GetTaskDetailById (Sprintf_d (ID task))) = inl (Some task) ->
      ValidAction task typ = None ->
      let s1 := fst (fst (fst (run o (addTask s (Sprintf_d (ID task)) typ)))) in
      HasTask s1 (Sprintf_d (ID task)) = true
      /\ HasTask s1 (Sprintf_d other) = false
      /\ snd (run o' (addTask s1 (Sprintf_d other) typ'))
         = [Call _ (GetTaskDetailById (Sprintf_d other))
                   (o' _ [] (GetTaskDetailById (Sprintf_d other)))].
Proof.
  split; [exact Sprintf_d_inj|].
  intros o o' s task other typ typ' Hne Hfree Hother Hans Hvalid s1.
  assert (Hs1 : currentTask s1 = {[Sprintf_d (ID task)]} ∪ currentTask s).
  { unfold s1. now rewrite (addTask_accepts o s _ typ task Hfree Hans Hvalid). }
  assert (Hout : Sprintf_d other ∉ currentTask s1).
  { rewrite Hs1, elem_of_union, elem_of_singleton. intros [Heq|Hin].
    - apply Hne. symmetry. now apply Sprintf_d_inj.
    - contradiction. }
  split; [|split].
  - unfold HasTask. apply bool_decide_eq_true_2. rewrite Hs1.
    apply elem_of_union. left. now apply elem_of_singleton.
  - unfold HasTask. now apply bool_decide_eq_false_2.
  - unfold run, addTask, addTask_lock.
    rewrite (bool_decide_eq_false_2 _ Hout).
    rewrite run_bind, run_call.
    destruct (addTask_validate _ typ'); reflexivity.
Qed.

(** Task 2 is being committed; task 3 is not held back. *)
Lemma guard_keys_distinguish_tasks_witness :
  let s1 := fst (fst (fst (run (H := Demo.demo) (Demo.world Demo.noFaults)
                               (addTask InitSqled "2" TASK_ACTION_EXECUTE)))) in
  HasTask s1 "2" = true /\ HasTask s1 "3" = false.
Proof.
  intros s1.
  destruct (guard_keys_distinguish_tasks (H := Demo.demo)) as [_ Hkeys].
  destruct (Hkeys (Demo.world Demo.noFaults) (Demo.world Demo.noFaults)
                  InitSqled Demo.dmlTask 3%N
                  TASK_ACTION_EXECUTE TASK_ACTION_EXECUTE)
    as (Hbusy & Hfree & _).
  - discriminate.
  - apply not_elem_of_empty.
  - apply not_elem_of_empty.
  - reflexivity.
  - reflexivity.
  - split; [exact Hbusy|exact Hfree].
Defined.

(* ===================================================================== *)
(** * Further properties: the audit workflow *)
(* ===================================================================== *)

Section AuditFrame.

Context `{Collaborators}.

Lemma writeBack_setAudit_base (sqls : list ExecuteSQL) :
  forall afs : list AuditFields,
    map E_BaseSQL (writeBack setAudit sqls afs) = map E_BaseSQL sqls.
Proof.
  induction sqls as [|sql rest IH]; intros [|af afs]; simpl;
    try reflexivity.
  now rewrite IH.
Qed.

Lemma audit_frame (task : Task) :
  sat (audit task) (fun en => isExec en = false)
      (fun r =>
         ID (fst r) = ID task /\ InstanceId (fst r) = InstanceId task
         /\ Schema (fst r) = Schema task /\ SQLType (fst r) = SQLType task
         /\ SQLSource (fst r) = SQLSource task
         /\ RollbackSQLs (fst r) = RollbackSQLs task
         /\ map E_BaseSQL (ExecuteSQLs (fst r)) = map E_BaseSQL (ExecuteSQLs task)
         /\ (Status (fst r) = Status task \/ Status (fst r) = TaskStatusAudited)
         /\ (snd r = None -> Status (fst r) = TaskStatusAudited)).
Proof.
  unfold audit, audit_rollback, audit_persist.
  repeat sat_step; simpl;
    repeat match goal with
           | |- context [if ?b then _ else _] => destruct b
           end; simpl; rewrite ?writeBack_setAudit_base;
    repeat split; auto; discriminate.
Qed.

(** The writes of [audit], in order, with the store's answers. *)
Lemma audit_writes_shape (task : Task) :
  spec (audit task) (fun r t =>
    let ws := List.filter isStoreUpdate t in
    match snd r with
    | None =>
        exists task0 sqlType i1 afs rest',
          adviseAnswers t = (i1, afs, None) :: rest'
          /\ sqlType = SqlType i1
          /\ ExecuteSQLs task0 = ExecuteSQLs (fst r)
          /\ ws = [Call _ (UpdateExecuteSQLs task0 (ExecuteSQLs (fst r))) None;
                   Call _ (UpdateTask (fst r) sqlType (PassRate (fst r))
                                      TaskStatusAudited) None]
                  ++ match generateAnswers t with
                     | [inl (sql :: rest)] =>
                         [Call _ (UpdateRollbackSQLs (fst r) (sql :: rest)) None]
                     | _ => []
                     end
    | Some e =>
        ws = []
        \/ (exists task0 sqls, ws = [Call _ (UpdateExecuteSQLs task0 sqls) (Some e)])
        \/ (exists task0 sqls task1 sqlType passRate,
               ws = [Call _ (UpdateExecuteSQLs task0 sqls) None;
                     Call _ (UpdateTask task1 sqlType passRate TaskStatusAudited)
                            (Some e)])
        \/ (exists task0 sqls task1 sqlType passRate rollbackSqls,
               rollbackSqls <> []
               /\ generateAnswers t = [inl rollbackSqls]
               /\ ws = [Call _ (UpdateExecuteSQLs task0 sqls) None;
                        Call _ (UpdateTask task1 sqlType passRate TaskStatusAudited)
                               None;
                        Call _ (UpdateRollbackSQLs task1 rollbackSqls) (Some e)])
    end).
Proof.
  unfold audit, audit_rollback, audit_persist.
  repeat spec_step.
  all: cbn -[round normalCount PrimFloat.div float64_of_Z].
  all: branch_facts; subst; try congruence.
  all: repeat match goal with
              | |- context [if ?b then _ else _] => destruct b
              end; cbn -[round normalCount PrimFloat.div float64_of_Z].
  all: try solve [left; reflexivity].
  all: try solve [right; left; eexists _, _; reflexivity].
  all: try solve [right; right; left; eexists _, _, _, _, _; reflexivity].
  all: try solve [right; right; right; eexists _, _, _, _, _, _;
                  split; [eassumption|]; split; reflexivity].
  all: try solve [eexists _, _, _, _, _; split; [reflexivity|];
                  split; [reflexivity|]; split; cycle 1; reflexivity].
  all: try solve [match goal with
                  | Hne : ?l <> [] |- _ =>
                      destruct l as [|sql rest]; [congruence|]
                  end;
                  eexists _, _, _, _, _; split; [reflexivity|];
                  split; [reflexivity|]; split; cycle 1; reflexivity].
Qed.

End AuditFrame.

(** X10.  An audit never runs a statement, whether it succeeds or fails, and of
    the task in memory it changes at most the audit fields of the
    statements, the pass rate and the status: the id, the instance, the
    schema, the rollback statements and the number, text and execution
    fields of every statement are as before, and so is the task's stored
    statement type, which audit sends to the store without assigning it
    to the task.  The status is audited after an audit without error, and
    either the former one or audited after a failed one.  (A call to the
    store or to the inspector writes what it answers with, the audit
    fields, and no other field of the task it is handed.) *)
Theorem audit_changes_audit_fields_only `{Collaborators}
    (o : Oracle) (task : Task) :
  let r := run o (audit task) in
  let task' := fst (fst r) in
  Forall (fun en => isExec en = false) (snd r)
  /\ ID task' = ID task /\ InstanceId task' = InstanceId task
  /\ Schema task' = Schema task /\ SQLType task' = SQLType task
  /\ SQLSource task' = SQLSource task
  /\ RollbackSQLs task' = RollbackSQLs task
  /\ map E_BaseSQL (ExecuteSQLs task') = map E_BaseSQL (ExecuteSQLs task)
  /\ (Status task' = Status task \/ Status task' = TaskStatusAudited)
  /\ (snd (fst r) = None -> Status task' = TaskStatusAudited).
Proof.
  intros r task'.
  destruct (sat_run _ _ _ o (audit_frame task)) as [Hcalls Hframe].
  split; [exact Hcalls|exact Hframe].
Qed.

(** X11.  The store writes of an audit.  An audit that returns without
    error has written, in this order and each accepted, the statements as
    the task has them, then the task with the status audited, its pass
    rate and the statement type found by the first audit pass, then the
    rollback statements that were generated if at least one was, and
    nothing else: no rollback write when none was generated.  An audit
    that returns an error has written nothing, or a prefix of that
    sequence of which only the last write was refused, with the error the
    audit returns; a refused rollback write is of the generated
    statements. *)
Theorem audit_writes_in_order `{Collaborators} (o : Oracle) (task : Task) :
  let r := run o (audit task) in
  let task' := fst (fst r) in
  let ws := List.filter isStoreUpdate (snd r) in
  match snd (fst r) with
  | None =>
      exists task0 sqlType i1 afs rest',
        adviseAnswers (snd r) = (i1, afs, None) :: rest'
        /\ sqlType = SqlType i1
        /\ ExecuteSQLs task0 = ExecuteSQLs task'
        /\ ws = [Call _ (UpdateExecuteSQLs task0 (ExecuteSQLs task')) None;
                 Call _ (UpdateTask task' sqlType (PassRate task')
                                    TaskStatusAudited) None]
                ++ match generateAnswers (snd r) with
                   | [inl (sql :: rest)] =>
                       [Call _ (UpdateRollbackSQLs task' (sql :: rest)) None]
                   | _ => []
                   end
  | Some e =>
      ws = []
      \/ (exists task0 sqls, ws = [Call _ (UpdateExecuteSQLs task0 sqls) (Some e)])
      \/ (exists task0 sqls task1 sqlType passRate,
             ws = [Call _ (UpdateExecuteSQLs task0 sqls) None;
                   Call _ (UpdateTask task1 sqlType passRate TaskStatusAudited)
                          (Some e)])
      \/ (exists task0 sqls task1 sqlType passRate rollbackSqls,
             rollbackSqls <> []
             /\ generateAnswers (snd r) = [inl rollbackSqls]
             /\ ws = [Call _ (UpdateExecuteSQLs task0 sqls) None;
                      Call _ (UpdateTask task1 sqlType passRate TaskStatusAudited)
                             None;
                      Call _ (UpdateRollbackSQLs task1 rollbackSqls) (Some e)])
  end.
Proof.
  intros r task' ws. exact (spec_run _ _ o (audit_writes_shape task)).
Qed.

(** The audit of the two statements of task 1: two writes, no rollback
    statements to write. *)
Example audit_writes_of_task_1 :
  length (List.filter isStoreUpdate
            (snd (run (H := Demo.demo) (Demo.world Demo.noFaults)
                      (audit Demo.mixedTask)))) = 2%nat.
Proof. reflexivity. Qed.

(* ===================================================================== *)
(** * Further properties: the commit workflow *)
(* ===================================================================== *)

Section CommitFacts.

Context `{Collaborators}.

Lemma sameButStmts_refl (sql : BaseSQL) : sameButStmts sql sql.
Proof. repeat split. Qed.

(** The parsing loop of [commitDML]: it only calls [ParseSql], on the
    texts of the statements in order, and stops at the first failure. *)
Lemma commitDML_parse_shape (sqls : list ExecuteSQL) :
  forall i,
    spec (commitDML_parse i sqls) (fun r t =>
      Forall (fun en => isStoreUpdate en = false /\ isExec en = false) t
      /\ Forall2 (fun sql' sql => sameButStmts (E_BaseSQL sql') (E_BaseSQL sql))
                 (snd (fst r)) sqls
      /\ match snd r with
         | None =>
             parseSqlArgs t = map (fun sql => Content (E_BaseSQL sql)) sqls
             /\ Forall (fun en => isParseFailure en = false) t
         | Some e =>
             exists t0 i0 content i',
               t = t0 ++ [Call _ (ParseSql i0 content) (i', inr e)]
         end).
Proof.
  induction sqls as [|sql rest IH]; intros i; simpl.
  - apply spec_ret. repeat split; constructor.
  - apply spec_bind_call. intros [i' [nodes|err]]; cbv beta iota zeta.
    + eapply spec_bind; [apply IH|].
      intros [[i'' rest'] err] t (Hquiet & Hsame & Hres). simpl in Hsame, Hres.
      apply spec_ret. rewrite app_nil_r. simpl.
      split; [constructor; [split; reflexivity|exact Hquiet]|].
      split; [constructor; [repeat split|exact Hsame]|].
      destruct err as [e|].
      * destruct Hres as (t0 & i0 & content & i1 & ->).
        exists (Call _ (ParseSql i (Content (E_BaseSQL sql))) (i', inl nodes) :: t0),
          i0, content, i1. reflexivity.
      * destruct Hres as [Hargs Hok]. split.
        -- unfold parseSqlArgs in *. simpl. now f_equal.
        -- constructor; [reflexivity|exact Hok].
    + apply spec_ret. simpl.
      split; [constructor; [split; reflexivity|constructor]|].
      split.
      * apply Forall2_same_length_lookup_2; [reflexivity|].
        intros k x y Hx Hy. rewrite Hx in Hy. injection Hy as ->.
        apply sameButStmts_refl.
      * exists [], i, (Content (E_BaseSQL sql)), i'. reflexivity.
Qed.

Lemma writeBack_setExec_frame (sqls : list ExecuteSQL) :
  forall fs : list ExecFields,
    Forall2 (fun sql' sql =>
               Number (E_BaseSQL sql') = Number (E_BaseSQL sql)
               /\ Content (E_BaseSQL sql') = Content (E_BaseSQL sql))
            (writeBack (fun f sql => setBase (setExec f (E_BaseSQL sql)) sql)
                       sqls fs)
            sqls.
Proof.
  induction sqls as [|sql rest IH]; intros [|f fs]; simpl.
  - constructor.
  - constructor.
  - constructor; [split; reflexivity|].
    apply Forall2_same_length_lookup_2; [reflexivity|].
    intros k x y Hx Hy. rewrite Hx in Hy. injection Hy as ->. split; reflexivity.
  - constructor; [split; reflexivity|apply IH].
Qed.

Lemma same_numbers_trans (a b c : list ExecuteSQL) :
  Forall2 (fun sql' sql =>
             Number (E_BaseSQL sql') = Number (E_BaseSQL sql)
             /\ Content (E_BaseSQL sql') = Content (E_BaseSQL sql)) a b ->
  Forall2 (fun sql' sql => sameButStmts (E_BaseSQL sql') (E_BaseSQL sql)) b c ->
  Forall2 (fun sql' sql =>
             Number (E_BaseSQL sql') = Number (E_BaseSQL sql)
             /\ Content (E_BaseSQL sql') = Content (E_BaseSQL sql)) a c.
Proof.
  intros Hab. revert c. induction Hab as [|x y a b [Hn Hc] _ IH]; intros c Hbc.
  - inversion Hbc. constructor.
  - inversion Hbc as [|? z ? c' (Hn' & Hc' & _) Hrest]; subst.
    constructor; [split; congruence|now apply IH].
Qed.

Lemma same_numbers_of_parse (b c : list ExecuteSQL) :
  Forall2 (fun sql' sql => sameButStmts (E_BaseSQL sql') (E_BaseSQL sql)) b c ->
  Forall2 (fun sql' sql =>
             Number (E_BaseSQL sql') = Number (E_BaseSQL sql)
             /\ Content (E_BaseSQL sql') = Content (E_BaseSQL sql)) b c.
Proof.
  induction 1 as [|x y b c (Hn & Hc & _) _ IH]; constructor; auto.
Qed.

Lemma same_statements_fmap (b c : list ExecuteSQL) :
  Forall2 (fun sql' sql => sameButStmts (E_BaseSQL sql') (E_BaseSQL sql)) b c ->
  Forall2 sameButStmts (map E_BaseSQL b) (map E_BaseSQL c).
Proof. induction 1; simpl; constructor; auto. Qed.

(** The calls of [commitDML], case by case. *)
Lemma commitDML_trace (task : Task) :
  spec (commitDML task) (fun r t =>
    Forall2 (fun sql' sql =>
               Number (E_BaseSQL sql') = Number (E_BaseSQL sql)
               /\ Content (E_BaseSQL sql') = Content (E_BaseSQL sql))
            (ExecuteSQLs (fst r)) (ExecuteSQLs task)
    /\ exists x,
        let start :=
          Call _ (Log LInfo "start commit" []) x in
        let marked :=
          Call _ (UpdateExecuteSQLStatusByTaskId task SQLExecuteStatusDoing) None in
        (exists e x',
            snd r = Some e
            /\ t = [start;
                    Call _ (UpdateExecuteSQLStatusByTaskId task SQLExecuteStatusDoing)
                           (Some e);
                    Call _ (Log LError
                              "update commit sql status to storage failed, error: %v"
                              [ArgErr e]) x'])
        \/ exists tP,
            Forall (fun en => isStoreUpdate en = false /\ isExec en = false) tP
            /\ ((exists e t0 i0 content i',
                    snd r = Some e
                    /\ tP = t0 ++ [Call _ (ParseSql i0 content) (i', inr e)]
                    /\ t = start :: marked :: tP)
                \/ (parseSqlArgs tP
                    = map (fun sql => Content (E_BaseSQL sql)) (ExecuteSQLs task)
                    /\ Forall (fun en => isParseFailure en = false) tP
                    /\ ((exists e,
                            snd r = Some e
                            /\ t = start :: marked
                                   :: tP ++ [Call _ (UpdateTaskStatusById (ID task)
                                                       TaskStatusExecuting) (Some e)])
                        \/ exists i sqls a tl,
                            Forall2 sameButStmts sqls
                                    (map E_BaseSQL (ExecuteSQLs task))
                            /\ Forall (fun en => isExec en = false
                                                 /\ isParseFailure en = false
                                                 /\ parseSqlArg en = None) tl
                            /\ t = start :: marked
                                   :: tP ++ Call _ (UpdateTaskStatusById (ID task)
                                                      TaskStatusExecuting) None
                                   :: Call _ (CommitDMLs i sqls) a :: tl)))).
Proof.
  assert (Hrefl : Forall2 (fun sql' sql =>
                             Number (E_BaseSQL sql') = Number (E_BaseSQL sql)
                             /\ Content (E_BaseSQL sql') = Content (E_BaseSQL sql))
                          (ExecuteSQLs task) (ExecuteSQLs task)).
  { apply Forall2_same_length_lookup_2; [reflexivity|].
    intros k a b Ha Hb. rewrite Ha in Hb. injection Hb as ->. split; reflexivity. }
  unfold commitDML.
  apply spec_bind_call; intros x.
  apply spec_bind_call; intros [e|].
  { apply spec_bind_call; intros x'. apply spec_ret.
    split; [exact Hrefl|]. exists x. left. exists e, x'. split; reflexivity. }
  eapply spec_bind; [apply commitDML_parse_shape|].
  intros [[i sqls] err] tP (HtP & Hsame & Hres); cbv beta iota zeta.
  simpl in Hsame, Hres.
  destruct err as [err|].
  { apply spec_ret. rewrite app_nil_r.
    split; [simpl; now apply same_numbers_of_parse|].
    exists x. right. exists tP. split; [exact HtP|]. left.
    destruct Hres as (t0 & i0 & content & i' & ->).
    exists err, t0, i0, content, i'. repeat split; reflexivity. }
  destruct Hres as [Hargs Hok].
  apply spec_bind_call; intros [e|].
  { apply spec_ret.
    split; [simpl; now apply same_numbers_of_parse|].
    exists x. right. exists tP. split; [exact HtP|]. right.
    split; [exact Hargs|]. split; [exact Hok|]. left. exists e.
    split; reflexivity. }
  apply spec_bind_call; intros [i' fs]. cbv beta iota zeta.
  assert (Hframe : forall task',
             ExecuteSQLs task'
             = writeBack (fun f sql => setBase (setExec f (E_BaseSQL sql)) sql)
                         sqls fs ->
             Forall2 (fun sql' sql =>
                        Number (E_BaseSQL sql') = Number (E_BaseSQL sql)
                        /\ Content (E_BaseSQL sql') = Content (E_BaseSQL sql))
                     (ExecuteSQLs task') (ExecuteSQLs task)).
  { intros task' ->. eapply same_numbers_trans; [apply writeBack_setExec_frame|].
    exact Hsame. }
  apply spec_bind_call; intros [e|].
  - apply spec_bind_call; intros xl.
    apply spec_bind_call; intros xs.
    destruct xs as [e'|];
      [apply spec_bind_call; intros xl'|apply spec_bind_ret];
      apply spec_ret;
      (split; [apply Hframe; reflexivity|];
       exists x; right; exists tP; split; [exact HtP|]; right;
       split; [exact Hargs|]; split; [exact Hok|]; right;
       eexists i, (map E_BaseSQL sqls), (i', fs), _;
       split; [now apply same_statements_fmap|];
       split; cycle 1; [simpl; reflexivity|];
       repeat (constructor; [repeat split|]); constructor).
  - apply spec_bind_call; intros xs. apply spec_ret.
    split; [apply Hframe; reflexivity|].
    exists x. right. exists tP. split; [exact HtP|]. right.
    split; [exact Hargs|]. split; [exact Hok|]. right.
    eexists i, (map E_BaseSQL sqls), (i', fs), _.
    split; [now apply same_statements_fmap|].
    split; cycle 1; [simpl; reflexivity|].
    repeat (constructor; [repeat split|]); constructor.
Qed.

End CommitFacts.

Section CommitBatch.

Context `{Collaborators}.

Lemma isExec_commitDMLsArg (en : Entry) :
  isExec en = false -> commitDMLsArg en = None.
Proof. destruct en as [X [] x]; simpl; congruence. Qed.

Lemma quiet_commitDMLsArgs (t : list Entry) :
  Forall (fun en => isStoreUpdate en = false /\ isExec en = false) t ->
  commitDMLsArgs t = [].
Proof.
  intros Ht. apply omap_quiet. eapply Forall_impl; [exact Ht|].
  intros en [_ Hen]. now apply isExec_commitDMLsArg.
Qed.

Lemma quiet_tail (tl : list Entry) :
  Forall (fun en => isExec en = false /\ isParseFailure en = false
                    /\ parseSqlArg en = None) tl ->
  commitDMLsArgs tl = [] /\ parseSqlArgs tl = []
  /\ existsb isParseFailure tl = false.
Proof.
  intros Ht. split; [|split].
  - apply omap_quiet. eapply Forall_impl; [exact Ht|].
    intros en [Hen _]. now apply isExec_commitDMLsArg.
  - apply omap_quiet. eapply Forall_impl; [exact Ht|]. now intros en (_ & _ & Hen).
  - apply existsb_quiet. eapply Forall_impl; [exact Ht|]. now intros en (_ & Hen & _).
Qed.

(** The observers on the histories of [commitDML_trace]. *)
Lemma commitDML_observed (task : Task) :
  spec (commitDML task) (fun r t =>
    Forall2 (fun sql' sql =>
               Number (E_BaseSQL sql') = Number (E_BaseSQL sql)
               /\ Content (E_BaseSQL sql') = Content (E_BaseSQL sql))
            (ExecuteSQLs (fst r)) (ExecuteSQLs task)
    /\ ((commitDMLsArgs t = [] /\ snd r <> None)
        \/ exists sqls,
            commitDMLsArgs t = [sqls]
            /\ Forall2 sameButStmts sqls (map E_BaseSQL (ExecuteSQLs task))
            /\ parseSqlArgs t
               = map (fun sql => Content (E_BaseSQL sql)) (ExecuteSQLs task)
            /\ existsb isParseFailure t = false)
    /\ (existsb isParseFailure t = true ->
        exists e x t0 i0 content i',
          snd r = Some e
          /\ t = Call _ (Log LInfo "start commit" []) x
                 :: Call _ (UpdateExecuteSQLStatusByTaskId task
                              SQLExecuteStatusDoing) None
                 :: t0 ++ [Call _ (ParseSql i0 content) (i', inr e)]
          /\ Forall (fun en => isStoreUpdate en = false /\ isExec en = false)
                    (t0 ++ [Call _ (ParseSql i0 content) (i', inr e)]))).
Proof.
  eapply spec_weaken; [apply commitDML_trace|].
  intros r t [Hframe (x & Hcases)]. cbv zeta in Hcases.
  split; [exact Hframe|].
  destruct Hcases as [(e & x' & Herr & ->)|(tP & HtP & Hcases)].
  { split; [left; split; [reflexivity|congruence]|]. intros Habs. discriminate Habs. }
  pose proof (quiet_commitDMLsArgs tP HtP) as HnoBatch.
  destruct Hcases
    as [(e & t0 & i0 & content & i' & Herr & -> & ->)
       |(Hargs & Hok & [(e & Herr & ->)|(i & sqls & a & tl & Hsqls & Htl & ->)])].
  - split.
    + left. split; [|congruence]. unfold commitDMLsArgs in *.
      rewrite !omap_cons_None by reflexivity. exact HnoBatch.
    + intros _. exists e, x, t0, i0, content, i'. repeat split; auto.
  - split.
    + left. split; [|congruence]. unfold commitDMLsArgs in *.
      rewrite !omap_cons_None by reflexivity. rewrite omap_app, HnoBatch.
      reflexivity.
    + intros Habs. exfalso. simpl in Habs.
      rewrite existsb_app, (existsb_quiet _ _ Hok) in Habs. discriminate Habs.
  - destruct (quiet_tail tl Htl) as (Hb & Hp & Hf).
    split.
    + right. exists sqls. split; [|split; [exact Hsqls|split]].
      * unfold commitDMLsArgs in *.
        rewrite !omap_cons_None by reflexivity. rewrite omap_app, HnoBatch.
        rewrite omap_cons_None by reflexivity.
        rewrite omap_cons_Some with (b := sqls) by reflexivity.
        now rewrite Hb.
      * unfold parseSqlArgs in *.
        rewrite !omap_cons_None by reflexivity. rewrite omap_app, Hargs.
        rewrite !omap_cons_None by reflexivity. rewrite Hp.
        now rewrite app_nil_r.
      * simpl. rewrite existsb_app, (existsb_quiet _ _ Hok). simpl. exact Hf.
    + intros Habs. exfalso. simpl in Habs.
      rewrite existsb_app, (existsb_quiet _ _ Hok) in Habs. simpl in Habs.
      congruence.
Qed.

End CommitBatch.

(** X12.  A DML commit in which the inspector fails to parse a statement: by
    then the store has accepted the status doing for all the statements
    of the task; the commit returns the parse error; it asks the store
    for nothing more and runs no statement, so the statements are left
    marked doing and the task's status is never written. *)
Theorem commitDML_parse_failure_leaves_statements_doing `{Collaborators}
    (o : Oracle) (task : Task) :
  let r := run o (commitDML task) in
  existsb isParseFailure (snd r) = true ->
  exists e x t0 i0 content i',
    snd (fst r) = Some e
    /\ snd r = Call _ (Log LInfo "start commit" []) x
               :: Call _ (UpdateExecuteSQLStatusByTaskId task
                            SQLExecuteStatusDoing) None
               :: t0 ++ [Call _ (ParseSql i0 content) (i', inr e)]
    /\ Forall (fun en => isStoreUpdate en = false /\ isExec en = false)
              (t0 ++ [Call _ (ParseSql i0 content) (i', inr e)]).
Proof.
  intros r Hfail.
  destruct (spec_run _ _ o (commitDML_observed task)) as (_ & _ & Hparse).
  exact (Hparse Hfail).
Qed.

(** Task 2 in a world where nothing parses. *)
Lemma commitDML_parse_failure_leaves_statements_doing_witness :
  let r := run (H := Demo.demo) Demo.unparsableWorld (commitDML Demo.dmlTask) in
  snd (fst r) = Some Demo.parseError
  /\ existsb isStoreUpdate (skipn 2 (snd r)) = false
  /\ existsb isExec (snd r) = false.
Proof.
  intros r.
  destruct (commitDML_parse_failure_leaves_statements_doing
              (H := Demo.demo) Demo.unparsableWorld Demo.dmlTask eq_refl)
    as (e & x & t0 & i0 & content & i' & Herr & Ht & Hquiet).
  fold r in Herr, Ht.
  split; [reflexivity|]. split; reflexivity.
Defined.

(** X13.  A DML commit hands the statements to the inspector in one batch, at
    most once: the batch is all the statements of the task in order, with
    the number, text and execution fields they had, and it is handed over
    only after every statement was parsed, in order, without failure.  A
    commit that returns without error did run the batch.  Whatever
    happens, the task keeps its statements' numbers and texts. *)
Theorem commitDML_runs_one_batch `{Collaborators} (o : Oracle) (task : Task) :
  let r := run o (commitDML task) in
  let t := snd r in
  (length (commitDMLsArgs t) <= 1)%nat
  /\ (forall sqls,
         In sqls (commitDMLsArgs t) ->
         Forall2 sameButStmts sqls (map E_BaseSQL (ExecuteSQLs task))
         /\ parseSqlArgs t
            = map (fun sql => Content (E_BaseSQL sql)) (ExecuteSQLs task)
         /\ existsb isParseFailure t = false)
  /\ (snd (fst r) = None -> length (commitDMLsArgs t) = 1%nat)
  /\ Forall2 (fun sql' sql =>
                Number (E_BaseSQL sql') = Number (E_BaseSQL sql)
                /\ Content (E_BaseSQL sql') = Content (E_BaseSQL sql))
             (ExecuteSQLs (fst (fst r))) (ExecuteSQLs task).
Proof.
  intros r t.
  destruct (spec_run _ _ o (commitDML_observed task)) as (Hframe & Hbatch & _).
  fold r in Hframe, Hbatch. fold t in Hbatch.
  split; [|split; [|split; [|exact Hframe]]].
  - destruct Hbatch as [[-> _]|(sqls & -> & _)]; simpl; lia.
  - intros sqls Hin.
    destruct Hbatch as [[Hnone _]|(sqls' & Hone & Hsame & Hargs & Hok)].
    + rewrite Hnone in Hin. destruct Hin.
    + rewrite Hone in Hin. destruct Hin as [<-|[]]. repeat split; assumption.
  - intros Hok. destruct Hbatch as [[_ Herr]|(sqls & -> & _)];
      [contradiction|reflexivity].
Qed.

(** The commit of task 2 runs its one statement in one batch. *)
Example commitDML_batch_of_task_2 :
  map (map Content)
      (commitDMLsArgs (snd (run (H := Demo.demo) (Demo.world Demo.noFaults)
                                (commitDML Demo.dmlTask))))
  = [["DELETE FROM t WHERE id=1"]].
Proof. reflexivity. Qed.

Section CommitClassification.

Context `{Collaborators}.

Lemma commitBackupSqls_noClassify (backupSqls : list string) :
  forall i, sat (commitBackupSqls i backupSqls)
                (fun en => isClassify en = false) (fun _ => True).
Proof.
  induction backupSqls as [|backupSql rest IH]; intros i; simpl.
  - repeat sat_step.
  - sat_step; [sat_step|]. destruct a as [[i' f] err].
    sat_step; [repeat sat_step|]. apply IH.
Qed.

Lemma commitDDL_action_noClassify (isProcedureFunction : bool) (i : Inspector)
    (currentSql : ExecuteSQL) :
  sat (commitDDL_action isProcedureFunction i currentSql)
      (fun en => isClassify en = false) (fun _ => True).
Proof.
  unfold commitDDL_action.
  repeat first [ apply commitBackupSqls_noClassify | sat_step ].
Qed.

Lemma Do_commitDDL_noClassify (isProcedureFunction : bool)
    (sqls : list ExecuteSQL) (i : Inspector) :
  sat (Do (fun _ => true) (commitDDL_action isProcedureFunction) i sqls)
      (fun en => isClassify en = false) (fun _ => True).
Proof.
  apply sat_weaken with (P := fun en => isClassify en = false)
                        (Q := fun r => Forall2 (fun _ _ => True) (snd (fst r)) sqls);
    [|auto|auto].
  apply Do_sat; [auto|].
  intros. eapply sat_weaken; [apply commitDDL_action_noClassify|auto|auto].
Qed.

Lemma commitDML_parse_noClassify (sqls : list ExecuteSQL) :
  forall i, sat (commitDML_parse i sqls)
                (fun en => isClassify en = false) (fun _ => True).
Proof.
  induction sqls as [|sql rest IH]; intros i; simpl.
  - repeat sat_step.
  - sat_step; [sat_step|].
    destruct a as [i' [nodes|err]].
    + sat_step; [apply IH|]. repeat sat_step.
    + repeat sat_step.
Qed.

(** The commit of a statement type never asks for the type. *)
Lemma commitDDL_noClassify (task : Task) (isProcedureFunction : bool) :
  sat (commitDDL task isProcedureFunction)
      (fun en => isClassify en = false) (fun _ => True).
Proof.
  unfold commitDDL.
  repeat first
    [ apply AddAll_sat; reflexivity
    | apply Do_commitDDL_noClassify
    | sat_step ].
Qed.

Lemma commitDML_noClassify (task : Task) :
  sat (commitDML task) (fun en => isClassify en = false) (fun _ => True).
Proof.
  unfold commitDML.
  repeat first [ apply commitDML_parse_noClassify | sat_step ].
Qed.

Lemma sat_from {A} (m : M A) (P : Entry -> Prop) (Q : A -> Prop)
    (o : Oracle) (h : list Entry) :
  sat m P Q -> exists t, snd (m o h) = h ++ t /\ Forall P t.
Proof. intros Hm. destruct (Hm o h) as (t & Ht & HP & _). eauto. Qed.

End CommitClassification.

(** X14.  Commit asks the inspector for the statement type only of a task
    without stored type, and then once.  With a stored type DML, DDL or
    procedure/function no call of the commit is a classification,
    whatever the loops over the statements do.  With any other stored
    type the first call is the classification and no later call is one;
    when the classification fails, commit returns its error, and when it
    succeeds and finds none of the types the commit knows, commit returns
    without error: in both cases the task is as it was and the
    classification is the only call made, so no statement was run and no
    status written. *)
Theorem commit_classifies_untyped_task_once `{Collaborators}
    (o : Oracle) (task : Task) :
  let e := ParseSqlType (NewInspector NewContext task [] None) (ExecuteSQLs task) in
  let a := o _ [] e in
  let r := run o (commit task) in
  (SQLType task = SQL_TYPE_DML \/ SQLType task = SQL_TYPE_DDL
   \/ SQLType task = SQL_TYPE_PROCEDURE_FUNCTION ->
   Forall (fun en => isClassify en = false) (snd r))
  /\ (SQLType task <> SQL_TYPE_DML ->
      SQLType task <> SQL_TYPE_DDL ->
      SQLType task <> SQL_TYPE_PROCEDURE_FUNCTION ->
      (exists t',
          snd r = Call _ e a :: t'
          /\ Forall (fun en => isClassify en = false) t')
      /\ (forall err, snd a = Some err -> r = (task, Some err, [Call _ e a]))
      /\ (snd a = None -> SqlType (fst a) = SQL_TYPE_UNSET ->
          r = (task, None, [Call _ e a]))).
Proof.
  intros e a r. split.
  - intros Htyped. subst r. unfold commit.
    destruct Htyped as [Ht|[Ht|Ht]]; rewrite Ht; simpl.
    + destruct (sat_run _ _ _ o (commitDML_noClassify task)) as [Hcalls _].
      exact Hcalls.
    + destruct (sat_run _ _ _ o (commitDDL_noClassify task false)) as [Hcalls _].
      exact Hcalls.
    + destruct (sat_run _ _ _ o (commitDDL_noClassify task true)) as [Hcalls _].
      exact Hcalls.
  - intros Hdml Hddl Hpf. subst r. unfold run, commit.
    rewrite !bool_decide_eq_false_2 by assumption.
    rewrite run_bind, run_call. fold e a. destruct a as [i [err|]] eqn:Ea.
    + simpl. split; [exists []; split; [reflexivity|constructor]|].
      split; [intros ? [= <-]; reflexivity|discriminate].
    + simpl fst; simpl snd. cbv beta iota zeta.
      split; [|split; [discriminate|intros _ ->; reflexivity]].
      destruct (SqlType i) eqn:Ei.
      all: try (exists []; split; [reflexivity|constructor]).
      * destruct (sat_from _ _ _ o [Call _ e (i, None)] (commitDML_noClassify task))
          as (t & -> & Ht). now exists t.
      * destruct (sat_from _ _ _ o [Call _ e (i, None)]
                           (commitDDL_noClassify task false))
          as (t & -> & Ht). now exists t.
      * destruct (sat_from _ _ _ o [Call _ e (i, None)]
                           (commitDDL_noClassify task true))
          as (t & -> & Ht). now exists t.
Qed.

(** A task without stored type whose one statement is a DELETE: the type
    is asked for once, first, and the statement is then run; task 2, which
    is stored as DML, is committed without asking. *)
Example commit_classification_calls :
  let untyped := Demo.task 6 SQL_TYPE_UNSET TaskStatusAudited
                           ["DELETE FROM t WHERE id=1"] in
  let r := run (H := Demo.demo) (Demo.world Demo.noFaults) (commit untyped) in
  map isClassify (firstn 2 (snd r)) = [true; false]
  /\ length (List.filter isClassify (snd r)) = 1%nat
  /\ length (commitDMLsArgs (snd r)) = 1%nat
  /\ snd (fst r) = None
  /\ List.filter isClassify
       (snd (run (H := Demo.demo) (Demo.world Demo.noFaults)
                 (commit Demo.dmlTask))) = [].
Proof. repeat split; reflexivity. Qed.

(* ===================================================================== *)
(** * Further properties: the rollback workflow *)
(* ===================================================================== *)

Section RollbackFacts.

Context `{Collaborators}.

Lemma rollbackRegistered_content (sql : RollbackSQL) :
  rollbackRegistered sql = true -> Content (R_BaseSQL sql) <> "".
Proof.
  unfold rollbackRegistered. intros Hreg Heq. rewrite Heq in Hreg. discriminate.
Qed.

Lemma AddAll_rollback_touch (sqls : list RollbackSQL) :
  forall i,
    sat (AddAll rollbackRegistered R_BaseSQL i sqls)
        (fun en => Forall (fun sql => Content sql <> "") (touchedSqls en))
        (fun _ => True).
Proof.
  induction sqls as [|sql rest IH]; intros i; simpl.
  - now apply sat_ret.
  - destruct (rollbackRegistered sql) eqn:Hreg; [|apply IH].
    eapply sat_bind.
    + apply sat_call with (Q := fun _ => True); [|auto].
      intros x. simpl. constructor; [|constructor].
      now apply rollbackRegistered_content.
    + intros [i' [err|]] _; [now apply sat_ret|apply IH].
Qed.

Lemma rollback_action_touch (i : Inspector) (currentSql : RollbackSQL) :
  Content (R_BaseSQL currentSql) <> "" ->
  sat (rollback_action i currentSql)
      (fun en => Forall (fun sql => Content sql <> "") (touchedSqls en))
      (fun _ => True).
Proof.
  intros Hcontent. unfold rollback_action.
  repeat lazymatch goal with
    | |- sat (mret _) _ _ => apply sat_ret; exact I
    | |- sat (call _) _ _ =>
        apply sat_call;
        [intros ?; simpl; repeat constructor; try assumption|intros ?; exact I]
    | |- sat (mbind _ _) _ _ =>
        apply sat_bind with (Q := fun _ => True); [|intros ? _]
    | |- sat (match ?x with _ => _ end) _ _ => destruct x
    | |- sat (let _ := _ in _) _ _ => cbv zeta
    | |- sat (logSaveFailed _) _ _ => unfold logSaveFailed
    end.
  (* the DML case: the statement as written back *)
  all: match goal with
       | |- context [match ?fs with [] => _ | _ :: _ => _ end] =>
           destruct fs; simpl; assumption
       end.
Qed.

Lemma Do_rollback_touch (sqls : list RollbackSQL) :
  forall i,
    sat (Do rollbackRegistered rollback_action i sqls)
        (fun en => Forall (fun sql => Content sql <> "") (touchedSqls en))
        (fun _ => True).
Proof.
  induction sqls as [|sql rest IH]; intros i; simpl.
  - now apply sat_ret.
  - destruct (rollbackRegistered sql) eqn:Hreg.
    + eapply sat_bind.
      * apply rollback_action_touch. now apply rollbackRegistered_content.
      * intros [[i' sql'] [err|]] _; [now apply sat_ret|].
        eapply sat_bind; [apply IH|].
        intros [[i'' rest'] err] _. now apply sat_ret.
    + eapply sat_bind; [apply IH|].
      intros [[i'' rest'] err] _. now apply sat_ret.
Qed.

Lemma rollback_touch (task : Task) :
  sat (rollback task)
      (fun en => Forall (fun sql => Content sql <> "") (touchedSqls en))
      (fun _ => True).
Proof.
  unfold rollback.
  eapply sat_bind with (Q := fun _ => True).
  { apply sat_call; [intros ?; constructor|auto]. }
  intros _ _. cbv zeta.
  eapply sat_bind; [apply AddAll_rollback_touch|].
  intros [i [err|]] _.
  - eapply sat_bind with (Q := fun _ => True).
    { apply sat_call; [intros ?; constructor|auto]. }
    intros _ _. now apply sat_ret.
  - eapply sat_bind; [apply Do_rollback_touch|].
    intros [[i' sqls] err] _.
    eapply sat_bind with (Q := fun _ => True).
    { destruct err; (apply sat_call; [intros ?; constructor|auto]). }
    intros _ _. now apply sat_ret.
Qed.

Lemma AddAll_none (sqls : list RollbackSQL) (i : Inspector) (o : Oracle)
    (h : list Entry) :
  Forall (fun sql => Content (R_BaseSQL sql) = "") sqls ->
  AddAll rollbackRegistered R_BaseSQL i sqls o h = (i, None, h).
Proof.
  induction 1 as [|sql rest Hsql _ IH]; simpl; [reflexivity|].
  unfold rollbackRegistered at 1. rewrite Hsql. simpl. exact IH.
Qed.

Lemma Do_none (sqls : list RollbackSQL) (i : Inspector) (o : Oracle)
    (h : list Entry) :
  Forall (fun sql => Content (R_BaseSQL sql) = "") sqls ->
  Do rollbackRegistered rollback_action i sqls o h = (i, sqls, None, h).
Proof.
  induction 1 as [|sql rest Hsql _ IH]; simpl; [reflexivity|].
  unfold rollbackRegistered at 1. rewrite Hsql. simpl.
  rewrite run_bind, IH. reflexivity.
Qed.

End RollbackFacts.

(** X15.  Rollback passes over the rollback statements whose text is empty:
    every statement it hands to the inspector or to the store, to
    register, mark, run or save it, has a text.  When all the rollback
    statements of a task are empty, or there is none, rollback logs its
    start and its end, calls nothing else and returns without error, the
    task as it was. *)
Theorem rollback_skips_empty_statements `{Collaborators}
    (o : Oracle) (task : Task) :
  let r := run o (rollback task) in
  Forall (fun en => Forall (fun sql => Content sql <> "") (touchedSqls en)) (snd r)
  /\ (Forall (fun sql => Content (R_BaseSQL sql) = "") (RollbackSQLs task) ->
      exists x y,
        r = (task, None,
             [Call _ (Log LInfo "start rollback sql" []) x;
              Call _ (Log LInfo "rollback sql finish" []) y])).
Proof.
  intros r. split.
  - destruct (sat_run _ _ _ o (rollback_touch task)) as [Hcalls _]. exact Hcalls.
  - intros Hempty. subst r. unfold run, rollback.
    rewrite run_bind, run_call. cbv beta iota zeta.
    rewrite run_bind, (AddAll_none _ _ _ _ Hempty). cbv beta iota zeta.
    rewrite run_bind, (Do_none _ _ _ _ Hempty). cbv beta iota zeta.
    rewrite run_bind, run_call, run_ret. simpl.
    eexists _, _. destruct task. reflexivity.
Qed.

(** Task 4 has one rollback statement, with a text: it is the only
    statement rollback touches. *)
Example rollback_touches_task_4 :
  map (map Content)
      (List.filter (fun l => negb (length l =? 0)%nat)
         (map touchedSqls
              (snd (run (H := Demo.demo) (Demo.world Demo.noFaults)
                        (rollback Demo.executedProcedureTask)))))
  = [["DROP PROCEDURE p"]; ["DROP PROCEDURE p"]; ["DROP PROCEDURE p"]].
Proof. reflexivity. Qed.

(* ===================================================================== *)
(** * Further properties: waiting for the result of an action *)
(* ===================================================================== *)

Section WaitFacts.

(** Past the [select] of [do] nothing moves but a caller that has not
    started to receive, and no caller returns. *)
Lemma past_select_never_returns (ls : list WaitLabel) :
  forall w w' : Wait,
    worker w = WorkerPastSelect ->
    (forall task err, caller w <> CallerReturned task err) ->
    wait_steps w ls = Some w' ->
    worker w' = WorkerPastSelect
    /\ forall task err, caller w' <> CallerReturned task err.
Proof.
  induction ls as [|l ls IH]; intros w w' Hworker Hcaller Hsteps;
    simpl in Hsteps.
  - injection Hsteps as <-. split; assumption.
  - destruct l as [|action]; simpl in Hsteps.
    + destruct (caller w) eqn:Hc; try discriminate Hsteps.
      apply (IH {| caller := CallerReceiving; worker := worker w |} w');
        [exact Hworker|discriminate|exact Hsteps].
    + rewrite Hworker in Hsteps. discriminate Hsteps.
Qed.

End WaitFacts.

(** X16.  [AddTaskWaitResult] gets the result of its action only when it is
    already receiving from [Done] at the moment [do] reaches its
    [select]: then it returns the task and the error of the action.
    When [do] reaches its [select] first, nothing is sent; the caller
    then blocks on the channel and no further step wakes it, so it never
    returns. *)
Theorem wait_result_needs_receiving_caller (ls : list WaitLabel) (w : Wait) :
  wait_steps initWait ls = Some w ->
  ((exists task err, caller w = CallerReturned task err)
   <-> exists action, ls = [LReceive; LSelect action])
  /\ (forall action,
         ls = [LReceive; LSelect action] ->
         caller w = CallerReturned (A_Task action) (Error action))
  /\ (forall action,
         ls = [LSelect action; LReceive] ->
         caller w = CallerReceiving
         /\ (forall l, wait_step w l = None)
         /\ forall ls' w',
             wait_steps w ls' = Some w' ->
             forall task err, caller w' <> CallerReturned task err).
Proof.
  intros Hsteps. split; [|split].
  - split.
    + intros (task & err & Hret).
      destruct ls as [|[|a1] [|[|a2] [|l3 ls]]]; simpl in Hsteps;
        try discriminate Hsteps;
        try (injection Hsteps as <-; simpl in Hret; discriminate Hret).
      * now exists a2.
      * destruct l3; discriminate Hsteps.
      * destruct l3; discriminate Hsteps.
    + intros (action & ->). simpl in Hsteps. injection Hsteps as <-.
      simpl. eauto.
  - intros action ->. simpl in Hsteps. now injection Hsteps as <-.
  - intros action ->. simpl in Hsteps. injection Hsteps as <-.
    split; [reflexivity|]. split.
    + intros [|a]; reflexivity.
    + intros ls' w' Hmore.
      apply (past_select_never_returns
               ls' {| caller := CallerReceiving; worker := WorkerPastSelect |} w');
        [reflexivity|discriminate|exact Hmore].
Qed.

(** The audit of task 2 is over before its caller waits: the caller is
    left receiving. *)
Lemma wait_result_needs_receiving_caller_witness :
  let action := {| A_Task := Some Demo.dmlTask; Typ := TASK_ACTION_AUDIT;
                   Error := None |} in
  exists w,
    wait_steps initWait [LSelect action; LReceive] = Some w
    /\ caller w = CallerReceiving
    /\ forall l, wait_step w l = None.
Proof.
  intros action. eexists. split; [reflexivity|].
  destruct (wait_result_needs_receiving_caller
              [LSelect action; LReceive] _ eq_refl) as (_ & _ & Hlost).
  destruct (Hlost action eq_refl) as (Hc & Hstuck & _).
  split; [exact Hc|exact Hstuck].
Defined.

(* ===================================================================== *)
(** * Further properties: registration in the DDL commit *)
(* ===================================================================== *)

(** Walk through a computation whose calls are all of the kind [P]
    describes by computation. *)
Ltac kind_step :=
  lazymatch goal with
  | |- sat (mret _) _ _ => apply sat_ret; exact I
  | |- sat (call _) _ _ =>
      apply sat_call; [intros ?; repeat split|intros ?; exact I]
  | |- sat (mbind _ _) _ _ =>
      apply sat_bind with (Q := fun _ => True); [|intros ? _]
  | |- sat (match ?x with _ => _ end) _ _ => destruct x
  | |- sat (let _ := _ in _) _ _ => cbv zeta
  | |- sat (logSaveFailed _) _ _ => unfold logSaveFailed
  end.

Section RegistrationFacts.

Context `{Collaborators}.

Lemma commitBackupSqls_noAdd (backupSqls : list string) :
  forall i, sat (commitBackupSqls i backupSqls)
                (fun en => addArg en = None /\ isAddFailure en = false)
                (fun _ => True).
Proof.
  induction backupSqls as [|backupSql rest IH]; intros i; simpl.
  - repeat kind_step.
  - kind_step; [kind_step|]. destruct a as [[i' f] err].
    kind_step; [repeat kind_step|]. apply IH.
Qed.

Lemma commitDDL_action_noAdd (isProcedureFunction : bool) (i : Inspector)
    (currentSql : ExecuteSQL) :
  sat (commitDDL_action isProcedureFunction i currentSql)
      (fun en => addArg en = None /\ isAddFailure en = false) (fun _ => True).
Proof.
  unfold commitDDL_action.
  repeat first [ apply commitBackupSqls_noAdd | kind_step ].
Qed.

Lemma Do_commitDDL_noAdd (isProcedureFunction : bool) (sqls : list ExecuteSQL)
    (i : Inspector) :
  sat (Do (fun _ => true) (commitDDL_action isProcedureFunction) i sqls)
      (fun en => addArg en = None /\ isAddFailure en = false) (fun _ => True).
Proof.
  apply sat_weaken with
    (P := fun en => addArg en = None /\ isAddFailure en = false)
    (Q := fun r => Forall2 (fun _ _ => True) (snd (fst r)) sqls);
    [|auto|auto].
  apply Do_sat; [auto|].
  intros. eapply sat_weaken; [apply commitDDL_action_noAdd|auto|auto].
Qed.

(** The registration loop of [commitDDL]: [Add] is called on the
    statements in order, up to the first refusal. *)
Lemma AddAll_shape (sqls : list ExecuteSQL) :
  forall i,
    spec (AddAll (fun _ => true) E_BaseSQL i sqls) (fun r t =>
      Forall (fun en => isStoreUpdate en = false /\ isExec en = false) t
      /\ addArgs t `prefix_of` map E_BaseSQL sqls
      /\ match snd r with
         | None =>
             addArgs t = map E_BaseSQL sqls
             /\ Forall (fun en => isAddFailure en = false) t
         | Some e =>
             exists t0 i0 sql i',
               t = t0 ++ [Call _ (Add i0 sql) (i', Some e)]
         end).
Proof.
  induction sqls as [|sql rest IH]; intros i; simpl.
  - apply spec_ret. split; [constructor|]. split; [now exists []|].
    split; [reflexivity|constructor].
  - apply spec_bind_call. intros [i' [err|]]; cbv beta iota zeta.
    + apply spec_ret. split; [constructor; [split; reflexivity|constructor]|].
      split.
      * exists (map E_BaseSQL rest). reflexivity.
      * exists [], i, (E_BaseSQL sql), i'. reflexivity.
    + eapply spec_weaken; [apply IH|].
      intros [i'' err] t (Hquiet & Hprefix & Hres). simpl in Hres.
      split; [constructor; [split; reflexivity|exact Hquiet]|].
      split.
      * destruct Hprefix as [k Hk]. exists k. unfold addArgs in *. simpl.
        now rewrite Hk.
      * simpl. destruct err as [e|].
        -- destruct Hres as (t0 & i0 & sql0 & i1 & ->).
           exists (Call _ (Add i (E_BaseSQL sql)) (i', None) :: t0), i0, sql0, i1.
           reflexivity.
        -- destruct Hres as [Hargs Hok]. split.
           ++ unfold addArgs in *. simpl. now rewrite Hargs.
           ++ constructor; [reflexivity|exact Hok].
Qed.

Lemma commitDDL_registration (task : Task) (isProcedureFunction : bool) :
  spec (commitDDL task isProcedureFunction) (fun r t =>
    addArgs t `prefix_of` map E_BaseSQL (ExecuteSQLs task)
    /\ (existsb isAddFailure t = true ->
        exists e x y t0 i0 sql i',
          r = (task, Some e)
          /\ t = Call _ (Log LInfo "start commit" []) x
                 :: t0 ++ [Call _ (Add i0 sql) (i', Some e);
                           Call _ (Log LError "add commit sql to task failed" []) y]
          /\ Forall (fun en => isStoreUpdate en = false /\ isExec en = false) t)
    /\ (existsb isStoreUpdate t = true ->
        addArgs t = map E_BaseSQL (ExecuteSQLs task))).
Proof.
  unfold commitDDL.
  apply spec_bind_call; intros x.
  eapply spec_bind; [apply AddAll_shape|].
  intros [i [err|]] tA (HtA & Hprefix & Hres); simpl in Hres.
  - destruct Hres as (t0 & i0 & sql & i' & ->).
    apply spec_bind_call; intros y. apply spec_ret.
    assert (Hargs : addArgs
                      (Call _ (Log LInfo "start commit" []) x
                         :: (t0 ++ [Call _ (Add i0 sql) (i', Some err)])
                         ++ [Call _ (Log LError "add commit sql to task failed" []) y])
                    = addArgs (t0 ++ [Call _ (Add i0 sql) (i', Some err)])).
    { unfold addArgs. rewrite omap_cons_None by reflexivity.
      rewrite omap_app. simpl. now rewrite app_nil_r. }
    split; [now rewrite Hargs|]. split.
    + intros _. exists err, x, y, t0, i0, sql, i'. split; [reflexivity|].
      split; [now rewrite <- app_assoc|].
      constructor; [split; reflexivity|].
      apply Forall_app. split; [exact HtA|].
      constructor; [split; reflexivity|constructor].
    + intros Hwrite. exfalso. simpl in Hwrite.
      rewrite existsb_app in Hwrite. simpl in Hwrite.
      rewrite existsb_quiet in Hwrite; [discriminate|].
      eapply Forall_impl; [exact HtA|]. now intros en [? _].
  - destruct Hres as [Hargs Hok].
    assert (Hall : forall tail,
               Forall (fun en => addArg en = None /\ isAddFailure en = false) tail ->
               addArgs (Call _ (Log LInfo "start commit" []) x :: tA ++ tail)
               = map E_BaseSQL (ExecuteSQLs task)
               /\ existsb isAddFailure
                    (Call _ (Log LInfo "start commit" []) x :: tA ++ tail) = false).
    { intros tail Htail. split.
      - unfold addArgs in *. rewrite omap_cons_None by reflexivity.
        rewrite omap_app, Hargs, omap_quiet; [now rewrite app_nil_r|].
        eapply Forall_impl; [exact Htail|]. now intros en [? _].
      - simpl. rewrite existsb_app, (existsb_quiet _ _ Hok). simpl.
        apply existsb_quiet. eapply Forall_impl; [exact Htail|]. now intros en [_ ?]. }
    apply spec_bind_call; intros [e|].
    + apply spec_ret.
      destruct (Hall [Call _ (UpdateTaskStatusById (ID task) TaskStatusExecuting)
                             (Some e)]) as [Ha Hf].
      { constructor; [split; reflexivity|constructor]. }
      split; [rewrite Ha; exists []; now rewrite app_nil_r|].
      split; [intros Habs; congruence|intros _; exact Ha].
    + eapply spec_bind; [apply sat_spec, Do_commitDDL_noAdd|].
      intros [[i' sqls] err] tDo [HtDo _]. cbv beta iota zeta.
      assert (Hlog : forall (m : M unit),
                 (m = call (Log LError "commit sql failed" [])
                  \/ m = call (Log LInfo "commit sql finish" [])) ->
                 spec m (fun _ t =>
                   Forall (fun en => addArg en = None /\ isAddFailure en = false) t)).
      { intros m [-> | ->]; apply spec_call; intros [];
          (constructor; [split; reflexivity|constructor]). }
      eapply spec_bind.
      { apply Hlog. destruct err; auto. }
      intros [] tL HtL.
      apply spec_bind_call; intros xs. apply spec_ret.
      destruct (Hall (Call _ (UpdateTaskStatusById (ID task) TaskStatusExecuting) None
                        :: tDo ++ tL
                        ++ [Call _ (UpdateTaskStatusById
                                      (ID (setExecuteSQLs sqls task))
                                      (taskStatusAfter
                                         (ExecuteSQLs (setExecuteSQLs sqls task))))
                                   xs])) as [Ha Hf].
      { constructor; [split; reflexivity|].
        apply Forall_app. split; [exact HtDo|].
        apply Forall_app. split; [exact HtL|].
        constructor; [split; reflexivity|constructor]. }
      rewrite ?app_nil_r.
      split; [rewrite Ha; exists []; now rewrite app_nil_r|].
      split; [intros Habs; congruence|intros _; exact Ha].
Qed.

End RegistrationFacts.

(** X17.  The DDL commit registers the statements with the inspector in task
    order before it writes anything: the statements handed to [Add] are a
    prefix of the task's statements, and all of them once the store has
    been asked to write.  When the inspector refuses a statement the
    commit stops there: it logs, returns the inspector's error and the
    task as it was, and has neither asked the store to write nor run a
    statement. *)
Theorem commitDDL_registers_before_writing `{Collaborators}
    (o : Oracle) (task : Task) (isProcedureFunction : bool) :
  let r := run o (commitDDL task isProcedureFunction) in
  let t := snd r in
  addArgs t `prefix_of` map E_BaseSQL (ExecuteSQLs task)
  /\ (existsb isStoreUpdate t = true ->
      addArgs t = map E_BaseSQL (ExecuteSQLs task))
  /\ (existsb isAddFailure t = true ->
      exists e x y t0 i0 sql i',
        fst r = (task, Some e)
        /\ t = Call _ (Log LInfo "start commit" []) x
               :: t0 ++ [Call _ (Add i0 sql) (i', Some e);
                         Call _ (Log LError "add commit sql to task failed" []) y]
        /\ Forall (fun en => isStoreUpdate en = false /\ isExec en = false) t).
Proof.
  intros r t.
  destruct (spec_run _ _ o (commitDDL_registration task isProcedureFunction))
    as (Hprefix & Hfail & Hwrite).
  fold r in Hprefix, Hfail, Hwrite. fold t in Hprefix, Hfail, Hwrite.
  split; [exact Hprefix|]. split; [exact Hwrite|].
  intros Hrefused.
  destruct (Hfail Hrefused) as (e & x & y & t0 & i0 & sql & i' & Hr & Ht & Hquiet).
  exists e, x, y, t0, i0, sql, i'. rewrite Hr. repeat split; assumption.
Qed.

(** The procedure of task 3 is refused by the inspector: one [Add], two
    log lines, nothing else. *)
Example commitDDL_refused_registration :
  let r := run (H := Demo.demo) Demo.refusingWorld
               (commitDDL Demo.procedureTask true) in
  snd (fst r) = Some Demo.addError
  /\ length (snd r) = 3%nat
  /\ existsb isStoreUpdate (snd r) = false
  /\ existsb isExec (snd r) = false.
Proof. repeat split; reflexivity. Qed.
